(** * Link discovery endpoint of the page auditor

    A shallow embedding of the discovery route handler (the [GET] handler
    with its helpers [cleanUrl], [isNonHtmlResource], [isSitemapIndex],
    [extractSitemapUrls], [parseSitemapUrls] and [createSSEResponse]) and
    the properties proved about it.

    Conventions.
    - A JavaScript string is a [string]: a sequence of code units, each
      below 256.  The literals the handler matches strings against are
      ASCII.
    - A [Set<string>] is a duplicate-free list in insertion order, which is
      also the order in which JavaScript iterates it.
    - The platform's [URL] class is not part of the repository.  Its record
      and its serializer follow the URL Standard; its parser is a parameter,
      and so is [localeCompare].
    - Everything the handler awaits (sitemap fetches, the browser) is an
      oracle of the environment; every interaction and every event sent is
      appended to a trace.
    - The [message] of an event is kept as its template and the values it
      interpolates. *)

From Stdlib Require Import String Ascii List Bool Arith ZArith Lia.
From Stdlib Require Import Sorting.Sorted Sorting.Permutation DecimalString.
From Stdlib Require Import Structures.OrdersEx Classes.RelationClasses.
Import ListNotations.

Local Open Scope string_scope.
Local Open Scope list_scope.
Local Open Scope nat_scope.

(* ================================================================= *)
(** ** JavaScript strings *)

Module JS.

Definition code (c : ascii) : nat := nat_of_ascii c.

(** [s.startsWith(p)] *)
Definition startsWith (s p : string) : bool := String.prefix p s.

(** [s.includes(p)] *)
Fixpoint includes (s p : string) : bool :=
  String.prefix p s ||
  match s with
  | EmptyString => false
  | String _ s' => includes s' p
  end.

(** [s.endsWith(p)] *)
Fixpoint endsWith (s p : string) : bool :=
  String.eqb s p ||
  match s with
  | EmptyString => false
  | String _ s' => endsWith s' p
  end.

(** One code unit of [toLowerCase]: A-Z and the upper-case letters of
    Latin-1 move up by 32. *)
Definition lowerChar (c : ascii) : ascii :=
  let n := code c in
  if ((65 <=? n) && (n <=? 90))
     || ((192 <=? n) && (n <=? 222) && negb (n =? 215))
  then ascii_of_nat (n + 32) else c.

Fixpoint toLowerCase (s : string) : string :=
  match s with
  | EmptyString => EmptyString
  | String c s' => String (lowerChar c) (toLowerCase s')
  end.

(** White space and line terminators removed by [trim]. *)
Definition isWhiteSpace (c : ascii) : bool :=
  let n := code c in
  ((9 <=? n) && (n <=? 13)) || (n =? 32) || (n =? 160).

Fixpoint trimStart (s : string) : string :=
  match s with
  | EmptyString => EmptyString
  | String c s' => if isWhiteSpace c then trimStart s' else s
  end.

Fixpoint trimEnd (s : string) : string :=
  match s with
  | EmptyString => EmptyString
  | String c s' =>
      match trimEnd s' with
      | EmptyString => if isWhiteSpace c then EmptyString else String c EmptyString
      | r => String c r
      end
  end.

(** [s.trim()] *)
Definition trim (s : string) : string := trimEnd (trimStart s).

(** [s.split(sep)] for a one-character separator. *)
Fixpoint split (sep : ascii) (s : string) : list string :=
  match s with
  | EmptyString => [EmptyString]
  | String c s' =>
      if Ascii.eqb c sep then EmptyString :: split sep s'
      else match split sep s' with
           | [] => [String c EmptyString]
           | w :: ws => String c w :: ws
           end
  end.

(** Truthiness of a string: [Boolean(s)], [!!s]. *)
Definition truthy (s : string) : bool :=
  match s with EmptyString => false | _ => true end.

Fixpoint take (n : nat) (s : string) : string :=
  match n, s with
  | S n', String c s' => String c (take n' s')
  | _, _ => EmptyString
  end.

Fixpoint drop (n : nat) (s : string) : string :=
  match n, s with
  | S n', String _ s' => drop n' s'
  | _, _ => s
  end.

(** A [Set<string>]: membership and [add]. *)
Definition has (s : list string) (x : string) : bool :=
  existsb (String.eqb x) s.

Definition add (s : list string) (x : string) : list string :=
  if has s x then s else s ++ [x].

End JS.

(* ================================================================= *)
(** ** Regular expressions of the handler

    The four expressions used on sitemap documents, each written out as the
    matcher it denotes.  All carry the [i] flag; on the ASCII literals of
    these patterns a code unit matches when both sides agree after mapping
    a-z to A-Z. *)

Module Regex.

Definition upperChar (c : ascii) : ascii :=
  let n := JS.code c in
  if (97 <=? n) && (n <=? 122) then ascii_of_nat (n - 32) else c.

Definition ciEqb (a b : ascii) : bool := Ascii.eqb (upperChar a) (upperChar b).

(** The literal [p] matches, ignoring case, at the start of [s]. *)
Fixpoint ciPrefix (p s : string) : bool :=
  match p, s with
  | EmptyString, _ => true
  | String a p', String b s' => ciEqb a b && ciPrefix p' s'
  | String _ _, EmptyString => false
  end.

(** Number of code units before the first occurrence of the literal [p]
    in [s], ignoring case. *)
Fixpoint ciIndexOf (p s : string) : option nat :=
  if ciPrefix p s then Some 0
  else match s with
       | EmptyString => None
       | String _ s' => option_map S (ciIndexOf p s')
       end.

(** Number of code units before the first [>]. *)
Fixpoint indexOfGt (s : string) : option nat :=
  match s with
  | EmptyString => None
  | String c s' => if Ascii.eqb c ">" then Some 0 else option_map S (indexOfGt s')
  end.

(** [.] matches any code unit but a line terminator. *)
Definition isLineTerminator (c : ascii) : bool :=
  (JS.code c =? 10) || (JS.code c =? 13).

Fixpoint hasLineTerminator (s : string) : bool :=
  match s with
  | EmptyString => false
  | String c s' => isLineTerminator c || hasLineTerminator s'
  end.

(** [/<tag[^>]*>[\s\S]*?<\/tag>/i] anchored at the start of [s]: the length
    of the match.  [[^>]*] runs to the first [>], the lazy [[\s\S]*?] to the
    first closing tag after it. *)
Definition elementAt (tag s : string) : option nat :=
  let opening := ("<" ++ tag)%string in
  let closing := ("</" ++ tag ++ ">")%string in
  if ciPrefix opening s then
    let n0 := String.length opening in
    match indexOfGt (JS.drop n0 s) with
    | None => None
    | Some n1 =>
        match ciIndexOf closing (JS.drop (n0 + n1 + 1) s) with
        | None => None
        | Some n2 => Some (n0 + n1 + 1 + n2 + String.length closing)
        end
    end
  else None.

(** [/<loc>(.*?)<\/loc>/i] anchored at the start of [s]: the length of the
    match and the captured group. *)
Definition locAt (s : string) : option (nat * string) :=
  if ciPrefix "<loc>" s then
    let rest := JS.drop 5 s in
    match ciIndexOf "</loc>" rest with
    | None => None
    | Some n =>
        let inner := JS.take n rest in
        if hasLineTerminator inner then None else Some (5 + n + 6, inner)
    end
  else None.

(** [s.match(re)] with the [g] flag: every match from left to right, each
    search resuming where the previous match ended.  [skip] counts the code
    units of the current match still to pass. *)
Fixpoint matchAll (at_ : string -> option nat) (skip : nat) (s : string)
  : list string :=
  match s with
  | EmptyString => []
  | String _ s' =>
      match skip with
      | S k => matchAll at_ k s'
      | O =>
          match at_ s with
          | Some (S n) => JS.take (S n) s :: matchAll at_ n s'
          | _ => matchAll at_ 0 s'
          end
      end
  end.

(** [xml.match(/<tag[^>]*>[\s\S]*?<\/tag>/gi) || []] *)
Definition matchElements (tag xml : string) : list string :=
  matchAll (elementAt tag) 0 xml.

(** [xml.match(/<loc>(.*?)<\/loc>/gi) || []] *)
Definition matchLocs (xml : string) : list string :=
  matchAll (fun s => option_map fst (locAt s)) 0 xml.

(** [s.match(/<loc>(.*?)<\/loc>/i)]: the captured group of the leftmost
    match. *)
Fixpoint firstLoc (s : string) : option string :=
  match locAt s with
  | Some (_, inner) => Some inner
  | None =>
      match s with
      | EmptyString => None
      | String _ s' => firstLoc s'
      end
  end.

(** [s.replace(/<\/?loc>/gi, "")] *)
Fixpoint stripLocTags (skip : nat) (s : string) : string :=
  match s with
  | EmptyString => EmptyString
  | String c s' =>
      match skip with
      | S k => stripLocTags k s'
      | O =>
          if ciPrefix "<loc>" s then stripLocTags 4 s'
          else if ciPrefix "</loc>" s then stripLocTags 5 s'
          else String c (stripLocTags 0 s')
      end
  end.

End Regex.

(* ================================================================= *)
(** ** The platform's URL class

    The URL record, its serializer and the getters read by the handler, as
    the URL Standard defines them.  [new URL(s)] is the parser, a parameter
    of every definition that needs it: [None] stands for the [TypeError] it
    throws. *)

Module URL.

Inductive Path :=
| Opaque (p : string)
| Segments (segs : list string).

Record t := mk {
  scheme : string;
  username : string;
  password : string;
  host : option string;
  port : option N;
  path : Path;
  query : option string;
  fragment : option string
}.

Definition Parser := string -> option t.

Definition serializePath (p : Path) : string :=
  match p with
  | Opaque s => s
  | Segments segs => String.concat "" (map (fun seg => "/" ++ seg)%string segs)
  end.

Definition serializePort (p : N) : string :=
  NilEmpty.string_of_uint (N.to_uint p).

Definition serializeAuthority (u : t) (h : string) : string :=
  ("//"
   ++ (if JS.truthy (username u) || JS.truthy (password u)
       then username u
            ++ (if JS.truthy (password u) then ":" ++ password u else "")
            ++ "@"
       else "")
   ++ h
   ++ match port u with Some p => ":" ++ serializePort p | None => "" end)%string.

(** The URL serializer, fragment included: [href] and [toString()]. *)
Definition href (u : t) : string :=
  (scheme u ++ ":"
   ++ match host u, path u with
      | Some h, _ => serializeAuthority u h
      | None, Segments (EmptyString :: _ :: _) => "/."
      | None, _ => ""
      end
   ++ serializePath (path u)
   ++ match query u with Some q => "?" ++ q | None => "" end
   ++ match fragment u with Some f => "#" ++ f | None => "" end)%string.

Definition toString := href.

(** [u.pathname] *)
Definition pathname (u : t) : string := serializePath (path u).

(** [u.hash = ""]: the fragment becomes null. *)
Definition clearHash (u : t) : t :=
  mk (scheme u) (username u) (password u) (host u) (port u) (path u)
     (query u) None.

Definition tupleOrigin (u : t) : string :=
  match host u with
  | Some h =>
      (scheme u ++ "://" ++ h
       ++ match port u with Some p => ":" ++ serializePort p | None => "" end)%string
  | None => "null"
  end.

Definition isTupleScheme (s : string) : bool :=
  existsb (String.eqb s) ["ftp"; "http"; "https"; "ws"; "wss"].

(** [u.origin], serialized; an opaque origin serializes as [null]. *)
Definition origin (parse : Parser) (u : t) : string :=
  if isTupleScheme (scheme u) then tupleOrigin u
  else if String.eqb (scheme u) "blob" then
    match parse (pathname u) with
    | Some pu =>
        if String.eqb (scheme pu) "http" || String.eqb (scheme pu) "https"
        then tupleOrigin pu else "null"
    | None => "null"
    end
  else "null".

(** Two URLs differ at most in their fragment. *)
Definition sameButFragment (u v : t) : Prop :=
  scheme u = scheme v /\ username u = username v /\ password u = password v
  /\ host u = host v /\ port u = port v /\ path u = path v
  /\ query u = query v.

End URL.

(* ================================================================= *)
(** ** Events, effects and the environment *)

(** A value caught by [catch (err)]: an [Error] with its message, or
    anything else. *)
Inductive Thrown :=
| ErrorObject (message : string)
| OtherValue.

Inductive Result (A : Type) :=
| Ok (a : A)
| Throws (e : Thrown).
Arguments Ok {A} a.
Arguments Throws {A} e.

(** [err instanceof Error ? err.message : dflt] *)
Definition messageOr (e : Thrown) (dflt : string) : string :=
  match e with ErrorObject m => m | OtherValue => dflt end.

Inductive Phase :=
| starting | sitemap | sitemap_done | browser | scanning.

(** The template of an event's [message] with the values it interpolates. *)
Inductive Message :=
| MsgStartingSitemap
| MsgStartingCrawl
| MsgFetchingSitemap (sitemapUrl : string)
| MsgFoundIndex (children : nat)
| MsgProcessing (processed children found : nat)
| MsgParsing
| MsgSitemapParsed (found : nat)
| MsgSitemapComplete (found : nat)
| MsgSitemapFailed (reason : string)
| MsgLaunching
| MsgScanning (page : nat) (pathname : string)
| MsgFoundNew (found : nat) (pathname : string) (total : nat)
| MsgAllScanned (pages : nat)
| MsgCrawlComplete (pages found : nat)
| MsgFailure (reason : string).

Inductive Event :=
| Status (phase : Phase) (message : Message)
         (total fromSitemap pagesScanned : nat) (currentUrl : option string)
| Done (message : Message) (links : list string)
       (total fromSitemap fromPages pagesScanned : nat)
| Error (message : Message).

(** What the handler does to the outside, in order. *)
Inductive Effect :=
| Send (e : Event)              (* sendEvent(e) *)
| FetchXml (url : string)       (* fetchXml(url) *)
| Launch                        (* chromium.launch(...) *)
| NewPage                       (* browser.newContext(...), context.newPage() *)
| Goto (url : string)           (* page.goto(url) *)
| EvalLinks (selector : string) (* page.$$eval(selector, ...) *)
| CloseBrowser                  (* browser.close() *)
| CloseStream.                  (* close() *)

(** The environment of one request: what each awaited call answers.
    [pageGoto n url] tells whether the navigation to the [n]-th page visited
    succeeds, [pageEval n url sel] is what the extraction on that page
    returns, [None] when it throws.  [browser.close()] always succeeds. *)
Record Env := {
  fetchXml : string -> Result string;
  launch : Result unit;
  newPage : Result unit;
  pageGoto : nat -> string -> bool;
  pageEval : nat -> string -> string -> option (list string)
}.

Definition isBrowserEffect (f : Effect) : bool :=
  match f with
  | Launch | NewPage | Goto _ | EvalLinks _ | CloseBrowser => true
  | _ => false
  end.

Definition isDone (e : Event) : bool :=
  match e with Done _ _ _ _ _ _ => true | _ => false end.

(** The events passed to [sendEvent], in order. *)
Fixpoint sent (tr : list Effect) : list Event :=
  match tr with
  | [] => []
  | Send e :: tr' => e :: sent tr'
  | _ :: tr' => sent tr'
  end.

(* ================================================================= *)
(** ** Helpers of the handler that need no URL parsing *)

(** Check if XML is a sitemap index (contains other sitemaps). *)
Definition isSitemapIndex (xml : string) : bool :=
  JS.includes xml "<sitemapindex" || JS.includes xml "<sitemap>".

(** Extract sitemap URLs from a sitemap index. *)
Definition extractSitemapUrls (xml : string) : list string :=
  let sitemapMatches := Regex.matchElements "sitemap" xml in
  fold_left
    (fun urls m =>
       match Regex.firstLoc m with
       | Some loc => if JS.truthy loc then urls ++ [JS.trim loc] else urls
       | None => urls
       end)
    sitemapMatches [].

(** Parse sitemap and extract page URLs. *)
Definition parseSitemapUrls (xml : string) : list string :=
  let urlMatches := Regex.matchElements "url" xml in
  let urls :=
    fold_left
      (fun urls m =>
         match Regex.firstLoc m with
         | Some loc => if JS.truthy loc then JS.add urls (JS.trim loc) else urls
         | None => urls
         end)
      urlMatches [] in
  if length urls =? 0 then
    fold_left
      (fun urls m =>
         let loc := JS.trim (Regex.stripLocTags 0 m) in
         if negb (JS.endsWith loc ".xml") && negb (JS.includes loc "sitemap")
         then JS.add urls loc else urls)
      (Regex.matchLocs xml) urls
  else urls.

(** Build a scoped selector that handles comma-separated selectors. *)
Definition buildScopedSelector (baseSelector targetSelector : string) : string :=
  String.concat ", "
    (map (fun s => (JS.trim s ++ " " ++ targetSelector)%string)
         (JS.split "," baseSelector)).

(** The selector handed to [page.$$eval] by [extractLinksFromPage]. *)
Definition linkSelector (cssSelector : option string) : string :=
  match cssSelector with
  | Some sel => if JS.truthy sel then buildScopedSelector sel "a[href]" else "a[href]"
  | None => "a[href]"
  end.

Definition NON_HTML_EXTENSIONS : list string :=
  [ ".pdf"; ".doc"; ".docx"; ".xls"; ".xlsx"; ".ppt"; ".pptx";
    ".zip"; ".rar"; ".7z"; ".tar"; ".gz";
    ".mp3"; ".mp4"; ".avi"; ".mov"; ".wmv"; ".wav"; ".ogg";
    ".jpg"; ".jpeg"; ".png"; ".gif"; ".webp"; ".svg"; ".ico"; ".bmp"; ".tiff";
    ".css"; ".js"; ".json"; ".txt"; ".csv";
    ".woff"; ".woff2"; ".ttf"; ".eot"; ".otf" ].

Definition PARALLEL_LIMIT : nat := 5.
Definition MAX_PAGES_SAFETY : nat := 5000.

(** [Array.prototype.sort(cmp)]: the stable sort of the language, written
    as an insertion sort.  [cmp a b < 0] puts [a] before [b]; elements that
    do not compare below each other keep their order.  The language fixes
    the result of a sort for a consistent comparator only, and there every
    stable sort gives this one; with another comparator the order is the
    engine's choice and only the elements are known.  Statements on the
    order of a sorted list are therefore made for consistent comparators
    and the others up to permutation, but for one list that the comparator
    finds in order as it stands, from each element to the next. *)
Fixpoint sortInsert (cmp : string -> string -> Z) (x : string) (l : list string)
  : list string :=
  match l with
  | [] => [x]
  | y :: l' => if (cmp y x <? 0)%Z then y :: sortInsert cmp x l' else x :: l
  end.

Fixpoint sort (cmp : string -> string -> Z) (l : list string) : list string :=
  match l with
  | [] => []
  | x :: l' => sortInsert cmp x (sort cmp l')
  end.

(** The local variables of the handler's background task. *)
Record Vars := mkVars {
  discoveredLinks : list string;     (* Set<string> *)
  visited : list string;             (* Set<string> *)
  sitemapLinksCount : nat;
  pagesToVisit : list string;        (* the frontier, a queue *)
  pagesVisited : nat;
  newLinksFromPages : nat;
  trace : list Effect;
  (* history of every value pushed onto pagesToVisit; never read by the
     handler, kept to state the frontier invariant *)
  enqueued : list string
}.

Inductive Outcome :=
| Normal (v : Vars)
| Abrupt (e : Thrown) (v : Vars).

Inductive Response :=
| Response400
| ResponseStream (tr : list Effect).

Definition emit (f : Effect) (v : Vars) : Vars :=
  mkVars (discoveredLinks v) (visited v) (sitemapLinksCount v)
         (pagesToVisit v) (pagesVisited v) (newLinksFromPages v)
         (trace v ++ [f]) (enqueued v).

Definition sendEvent (e : Event) (v : Vars) : Vars := emit (Send e) v.

Definition setDiscovered (d : list string) (v : Vars) : Vars :=
  mkVars d (visited v) (sitemapLinksCount v) (pagesToVisit v) (pagesVisited v)
         (newLinksFromPages v) (trace v) (enqueued v).

Definition initialVars : Vars := mkVars [] [] 0 [] 0 0 [] [].

(** [const url = pagesToVisit.shift()!]: what is left of the frontier. *)
Definition shiftFrontier (rest : list string) (v : Vars) : Vars :=
  mkVars (discoveredLinks v) (visited v) (sitemapLinksCount v)
         rest (pagesVisited v) (newLinksFromPages v) (trace v) (enqueued v).

(** [visited.add(url); pagesVisited++] *)
Definition markVisited (url : string) (v : Vars) : Vars :=
  mkVars (discoveredLinks v) (JS.add (visited v) url) (sitemapLinksCount v)
         (pagesToVisit v) (S (pagesVisited v)) (newLinksFromPages v) (trace v)
         (enqueued v).

(* ================================================================= *)
(** ** The handler *)

Section Handler.

Variable parseURL : URL.Parser.                     (* new URL(s) *)
Variable localeCompare : string -> string -> Z.     (* a.localeCompare(b) *)
Variable env : Env.

(** Clean URL by removing hash. *)
Definition cleanUrl (url : string) : string :=
  match parseURL url with
  | Some urlObj => URL.toString (URL.clearHash urlObj)
  | None => url
  end.

(** Check if URL is a non-HTML resource. *)
Definition isNonHtmlResource (url : string) : bool :=
  match parseURL url with
  | Some u =>
      let pathname := JS.toLowerCase (URL.pathname u) in
      existsb (fun ext => JS.endsWith pathname ext) NON_HTML_EXTENSIONS
  | None => false
  end.

(** [pathname.split('/').filter(Boolean).length] *)
Definition depthOf (pathname : string) : nat :=
  length (filter JS.truthy (JS.split "/" pathname)).

(** The comparator of both sorts: path depth first, then alphabetically;
    the whole strings are compared when either fails to parse. *)
Definition compareLinks (a b : string) : Z :=
  match parseURL a, parseURL b with
  | Some ua, Some ub =>
      let pathA := URL.pathname ua in
      let pathB := URL.pathname ub in
      let depthA := depthOf pathA in
      let depthB := depthOf pathB in
      if negb (depthA =? depthB) then (Z.of_nat depthA - Z.of_nat depthB)%Z
      else localeCompare pathA pathB
  | _, _ => localeCompare a b
  end.

Definition sortLinks (ls : list string) : list string := sort compareLinks ls.

(** *** Mode 1: sitemap provided *)

(** One URL of a parsed sitemap (the body of both [for (const url of urls)]
    loops). *)
Definition addSitemapUrl (origin : string) (v : Vars) (url : string) : Vars :=
  if JS.startsWith url origin && negb (isNonHtmlResource url) then
    mkVars (JS.add (discoveredLinks v) (cleanUrl url)) (visited v)
           (S (sitemapLinksCount v)) (pagesToVisit v) (pagesVisited v)
           (newLinksFromPages v) (trace v) (enqueued v)
  else v.

(** One child sitemap of a batch: its page URLs, or none when the fetch
    fails. *)
Definition fetchChild (url : string) : list string :=
  match fetchXml env url with
  | Ok childXml => parseSitemapUrls childXml
  | Throws _ => []
  end.

(** One round of the loop over child sitemaps, starting at index [i]. *)
Definition processBatch (origin : string) (childSitemapUrls : list string)
    (i : nat) (v : Vars) : Vars :=
  let batch := firstn PARALLEL_LIMIT (skipn i childSitemapUrls) in
  let v := fold_left (fun v url => emit (FetchXml url) v) batch v in
  let results := map fetchChild batch in
  let v := fold_left (fun v urls => fold_left (addSitemapUrl origin) urls v)
                     results v in
  sendEvent
    (Status sitemap
       (MsgProcessing (i + length batch) (length childSitemapUrls)
                      (sitemapLinksCount v))
       (length (discoveredLinks v)) (sitemapLinksCount v) 0 None) v.

(** [for (let i = 0; i < childSitemapUrls.length; i += PARALLEL_LIMIT)] *)
Fixpoint batchLoop (fuel : nat) (origin : string)
    (childSitemapUrls : list string) (i : nat) (v : Vars) : Vars :=
  match fuel with
  | O => v
  | S fuel' =>
      if i <? length childSitemapUrls then
        batchLoop fuel' origin childSitemapUrls (i + PARALLEL_LIMIT)
                  (processBatch origin childSitemapUrls i v)
      else v
  end.

(** The sitemap branch after a successful fetch of the sitemap itself. *)
Definition sitemapParsed (origin xml : string) (v : Vars) : Vars :=
  let v :=
    if isSitemapIndex xml then
      let childSitemapUrls := extractSitemapUrls xml in
      let v := sendEvent
                 (Status sitemap (MsgFoundIndex (length childSitemapUrls))
                         (length (discoveredLinks v)) 0 0 None) v in
      batchLoop (length childSitemapUrls) origin childSitemapUrls 0 v
    else
      let v := sendEvent
                 (Status sitemap MsgParsing
                         (length (discoveredLinks v)) 0 0 None) v in
      fold_left (addSitemapUrl origin) (parseSitemapUrls xml) v in
  let v := sendEvent
             (Status sitemap_done (MsgSitemapParsed (sitemapLinksCount v))
                     (length (discoveredLinks v)) (sitemapLinksCount v) 0 None) v in
  let sortedLinks := sortLinks (discoveredLinks v) in
  sendEvent
    (Done (MsgSitemapComplete (sitemapLinksCount v)) sortedLinks
          (length sortedLinks) (sitemapLinksCount v) 0 0) v.

Definition sitemapMode (origin sitemapUrl : string) (v : Vars) : Vars :=
  let v := sendEvent
             (Status sitemap (MsgFetchingSitemap sitemapUrl)
                     (length (discoveredLinks v)) 0 0 None) v in
  let v := emit (FetchXml sitemapUrl) v in
  match fetchXml env sitemapUrl with
  | Ok xml => sitemapParsed origin xml v
  | Throws err =>
      sendEvent (Error (MsgSitemapFailed (messageOr err "Unknown error"))) v
  end.

(** *** Mode 2: no sitemap, crawl pages to discover links *)

(** One extracted link (the body of [for (const link of links)]). *)
Definition addLink (origin : string) (v : Vars) (link : string) : Vars :=
  let cleanedLink := cleanUrl link in
  if JS.startsWith cleanedLink origin
     && negb (isNonHtmlResource cleanedLink)
     && negb (JS.has (discoveredLinks v) cleanedLink)
  then
    let discovered := JS.add (discoveredLinks v) cleanedLink in
    if negb (JS.has (visited v) cleanedLink) then
      mkVars discovered (visited v) (sitemapLinksCount v)
             (pagesToVisit v ++ [cleanedLink]) (pagesVisited v)
             (S (newLinksFromPages v)) (trace v)
             (enqueued v ++ [cleanedLink])
    else
      mkVars discovered (visited v) (sitemapLinksCount v)
             (pagesToVisit v) (pagesVisited v)
             (S (newLinksFromPages v)) (trace v) (enqueued v)
  else v.

(** The [try] block of one page: navigation, extraction, the links found
    and the status event for new links.  Whatever throws inside it is
    swallowed by its [catch]. *)
Definition visitPage (origin : string) (cssSelector : option string)
    (url : string) (previousSize : nat) (v : Vars) : Vars :=
  let v := emit (Goto url) v in
  if pageGoto env (pagesVisited v) url then
    let selector := linkSelector cssSelector in
    let v := emit (EvalLinks selector) v in
    match pageEval env (pagesVisited v) url selector with
    | Some links =>
        let v := fold_left (addLink origin) links v in
        let newLinksFound := length (discoveredLinks v) - previousSize in
        if 0 <? newLinksFound then
          match parseURL url with
          | Some u =>
              sendEvent
                (Status scanning
                   (MsgFoundNew newLinksFound (URL.pathname u)
                                (length (discoveredLinks v)))
                   (length (discoveredLinks v)) 0 (pagesVisited v) None) v
          | None => v
          end
        else v
    | None => v
    end
  else v.

(** The condition of the [while] loop. *)
Definition loopCond (v : Vars) : bool :=
  (0 <? length (pagesToVisit v)) && (pagesVisited v <? MAX_PAGES_SAFETY).

(** The body of the [while] loop. *)
Definition loopBody (origin : string) (cssSelector : option string)
    (v : Vars) : Outcome :=
  match pagesToVisit v with
  | [] => Normal v                 (* not reached: the condition holds *)
  | url :: rest =>
      let v := shiftFrontier rest v in
      if JS.has (visited v) url then Normal v    (* continue *)
      else
        let v := markVisited url v in
        let previousSize := length (discoveredLinks v) in
        let progress :=
          if (pagesVisited v mod 5 =? 1) || (pagesVisited v =? 1) then
            match parseURL url with
            | Some u =>
                Ok (sendEvent
                      (Status scanning
                         (MsgScanning (pagesVisited v) (URL.pathname u))
                         (length (discoveredLinks v)) 0 (pagesVisited v)
                         (Some url)) v)
            | None => Throws (ErrorObject "Invalid URL")
            end
          else Ok v in
        match progress with
        | Throws e => Abrupt e v
        | Ok v =>
            let v := visitPage origin cssSelector url previousSize v in
            if length (pagesToVisit v) =? 0 then
              Normal (sendEvent
                        (Status scanning (MsgAllScanned (pagesVisited v))
                                (length (discoveredLinks v)) 0 (pagesVisited v)
                                None) v)
            else Normal v
        end
  end.

(** The [while] loop; [None] when [fuel] rounds do not reach its end. *)
Fixpoint runLoop (fuel : nat) (origin : string) (cssSelector : option string)
    (v : Vars) : option Outcome :=
  match fuel with
  | O => None
  | S fuel' =>
      if loopCond v then
        match loopBody origin cssSelector v with
        | Normal v' => runLoop fuel' origin cssSelector v'
        | Abrupt e v' => Some (Abrupt e v')
        end
      else Some (Normal v)
  end.

(** The outer [catch]: an error event, and the browser closed if there is
    one. *)
Definition failed (err : Thrown) (browserOpen : bool) (v : Vars) : Vars :=
  let v := sendEvent (Error (MsgFailure (messageOr err "Discovery failed"))) v in
  if browserOpen then emit CloseBrowser v else v.

Definition crawlMode (fuel : nat) (origin startUrl : string)
    (cssSelector : option string) (v : Vars) : option Vars :=
  let v := sendEvent
             (Status browser MsgLaunching (length (discoveredLinks v)) 0 0 None)
             v in
  let v := emit Launch v in
  match launch env with
  | Throws err => Some (failed err false v)
  | Ok _ =>
      let v := emit NewPage v in
      match newPage env with
      | Throws err => Some (failed err true v)
      | Ok _ =>
          let v := mkVars (discoveredLinks v) (visited v) (sitemapLinksCount v)
                          [startUrl] 0 0 (trace v) [startUrl] in
          match runLoop fuel origin cssSelector v with
          | None => None
          | Some (Abrupt err v) => Some (failed err true v)
          | Some (Normal v) =>
              let v := emit CloseBrowser v in
              let sortedLinks := sortLinks (discoveredLinks v) in
              Some (sendEvent
                      (Done (MsgCrawlComplete (pagesVisited v) (length sortedLinks))
                            sortedLinks (length sortedLinks) 0
                            (newLinksFromPages v) (pagesVisited v)) v)
          end
      end
  end.

(** The background task started by the handler, from [try] to [finally]. *)
Definition discover (fuel : nat) (startUrl : string)
    (sitemapUrl cssSelector : option string) : option (list Effect) :=
  let hasSitemap :=
    match sitemapUrl with Some s => JS.truthy s | None => false end in
  let finally_ (v : Vars) := trace (emit CloseStream v) in
  match parseURL startUrl with
  | None => Some (finally_ (failed (ErrorObject "Invalid URL") false initialVars))
  | Some u =>
      let origin := URL.origin parseURL u in
      let v := sendEvent
                 (Status starting
                    (if hasSitemap then MsgStartingSitemap else MsgStartingCrawl)
                    0 0 0 None) initialVars in
      let v := setDiscovered (JS.add (discoveredLinks v) (cleanUrl startUrl)) v in
      match hasSitemap, sitemapUrl with
      | true, Some sitemapUrl => Some (finally_ (sitemapMode origin sitemapUrl v))
      | _, _ => option_map finally_ (crawlMode fuel origin startUrl cssSelector v)
      end
  end.

(** [export async function GET(request)], on the three query parameters.
    The loop gets one round per page the safety cap allows, and one more
    for the test that ends it. *)
Definition GET (startUrl sitemapUrl cssSelector : option string)
  : option Response :=
  match startUrl with
  | None => Some Response400
  | Some startUrl =>
      if JS.truthy startUrl then
        option_map ResponseStream
          (discover (S MAX_PAGES_SAFETY) startUrl sitemapUrl cssSelector)
      else Some Response400
  end.

End Handler.

(* ================================================================= *)
(** ** The event emitter returned by [createSSEResponse]

    The stream's controller accepts chunks until it is closed, errored or
    cancelled by the consumer; from then on [enqueue] and [close] throw.
    The emitter is generic in the event type; [stringify] stands for
    [JSON.stringify], which may throw. *)

Module SSE.

Record Controller := mkController {
  accepting : bool;
  chunks : list string
}.

(** [controller.enqueue(chunk)] *)
Definition enqueue (chunk : string) (c : Controller) : Result Controller :=
  if accepting c then Ok (mkController true (chunks c ++ [chunk]))
  else Throws (ErrorObject "Invalid state: Controller is already closed").

(** [controller.close()] *)
Definition closeController (c : Controller) : Result Controller :=
  if accepting c then Ok (mkController false (chunks c))
  else Throws (ErrorObject "Invalid state: Controller is already closed").

Record t := mk {
  isClosed : bool;
  controller : Controller
}.

(** The state right after [createSSEResponse()]. *)
Definition createSSEResponse : t := mk false (mkController true []).

Section Emitter.

Context {A : Type}.
Variable stringify : A -> Result string.

(** [sendEvent(data)]: the new state; it never throws. *)
Definition sendEvent (data : A) (s : t) : Result t :=
  if isClosed s then Ok s
  else
    (* try *)
    match stringify data with
    | Ok json =>
        let message := ("data: " ++ json ++ String "010" (String "010" ""))%string in
        match enqueue message (controller s) with
        | Ok c => Ok (mk (isClosed s) c)
        | Throws _ => Ok (mk true (controller s))      (* catch *)
        end
    | Throws _ => Ok (mk true (controller s))          (* catch *)
    end.

(** [close()] *)
Definition close (s : t) : Result t :=
  if negb (isClosed s) then
    (* try *)
    match closeController (controller s) with
    | Ok c => Ok (mk true c)
    | Throws _ => Ok (mk true (controller s))          (* catch *)
    end
  else Ok s.

(** A call made on the emitter. *)
Inductive Call :=
| CallSend (data : A)
| CallClose.

Definition call (c : Call) (s : t) : Result t :=
  match c with
  | CallSend data => sendEvent data s
  | CallClose => close s
  end.

(** A sequence of calls; it stops at the first that throws. *)
Fixpoint calls (cs : list Call) (s : t) : Result t :=
  match cs with
  | [] => Ok s
  | c :: cs' =>
      match call c s with
      | Ok s' => calls cs' s'
      | Throws e => Throws e
      end
  end.

End Emitter.

End SSE.

(** The URLs navigated to, in order. *)
Fixpoint navigations (tr : list Effect) : list string :=
  match tr with
  | [] => []
  | Goto url :: tr' => url :: navigations tr'
  | _ :: tr' => navigations tr'
  end.

(* ================================================================= *)
(** ** A small platform to run the handler on

    A parser for the plain [http(s)://host/path?query#fragment] URLs of the
    worked examples, where it agrees with the platform's parser (it refuses
    everything else), and the comparison of strings by code units, which
    is how [localeCompare] orders lower-case ASCII path names. *)

Module Sample.

Definition between (lo hi : nat) (c : ascii) : bool :=
  (lo <=? JS.code c) && (JS.code c <=? hi).

Definition isAlnum (c : ascii) : bool :=
  between 48 57 c || between 65 90 c || between 97 122 c.

Definition oneOf (cs : string) (c : ascii) : bool :=
  existsb (Ascii.eqb c) (list_ascii_of_string cs).

Fixpoint all (p : ascii -> bool) (s : string) : bool :=
  match s with
  | EmptyString => true
  | String c s' => p c && all p s'
  end.

(** The part of [s] before the first code unit satisfying [stop], and the
    rest. *)
Fixpoint break (stop : ascii -> bool) (s : string) : string * string :=
  match s with
  | EmptyString => (EmptyString, EmptyString)
  | String c s' =>
      if stop c then (EmptyString, s)
      else let '(a, b) := break stop s' in (String c a, b)
  end.

Definition dotSegment (seg : string) : bool :=
  String.eqb seg "." || String.eqb seg "..".

Definition parseAfterScheme (scheme rest : string) : option URL.t :=
  let '(host, r1) := break (oneOf "/?#") rest in
  let '(pathStr, r2) := break (oneOf "?#") r1 in
  let '(query, r3) :=
    match r2 with
    | String "?" q => let '(q1, r) := break (oneOf "#") q in (Some q1, r)
    | _ => (None, r2)
    end in
  let fragment :=
    match r3 with
    | String "#" f => Some f
    | _ => None
    end in
  let segs :=
    match pathStr with
    | String "/" p => JS.split "/" p
    | _ => [EmptyString]
    end in
  if JS.truthy host
     && all (fun c => between 97 122 c || oneOf ".-" c) host
     && all (fun c => isAlnum c || oneOf "._-" c) (String.concat "" segs)
     && negb (existsb dotSegment segs)
     && all (fun c => isAlnum c || oneOf "=&._-" c)
            (match query with Some q => q | None => "" end)
     && all (fun c => isAlnum c || oneOf "._-" c)
            (match fragment with Some f => f | None => "" end)
  then Some (URL.mk scheme "" "" (Some host) None (URL.Segments segs)
                    query fragment)
  else None.

Definition parseURL : URL.Parser := fun s =>
  if String.prefix "https://" s then parseAfterScheme "https" (JS.drop 8 s)
  else if String.prefix "http://" s then parseAfterScheme "http" (JS.drop 7 s)
  else None.

Definition localeCompare (a b : string) : Z :=
  match String_as_OT.compare a b with
  | Lt => (-1)%Z
  | Eq => 0%Z
  | Gt => 1%Z
  end.

(** Look a key up in a table. *)
Fixpoint lookup {A : Type} (k : string) (tbl : list (string * A)) : option A :=
  match tbl with
  | [] => None
  | (k', a) :: tbl' => if String.eqb k k' then Some a else lookup k tbl'
  end.

(** A site given by the links of each of its pages and by the documents
    it serves; the browser starts, every listed page loads. *)
Definition site (pages : list (string * list string))
    (documents : list (string * string)) : Env :=
  {| fetchXml := fun url =>
       match lookup url documents with
       | Some xml => Ok xml
       | None => Throws (ErrorObject "getaddrinfo ENOTFOUND")
       end;
     launch := Ok tt;
     newPage := Ok tt;
     pageGoto := fun _ url =>
       match lookup url pages with Some _ => true | None => false end;
     pageEval := fun _ url _ => lookup url pages |}.

Definition siteOrigin : string := "https://example.com".
Definition home : string := "https://example.com/".

(** A site of four pages; the home page links to two of them, to itself,
    to another site and to a document. *)
Definition crawlSite : Env :=
  site [ (home, [ "https://example.com/a#top"; "https://example.com/b";
                  "https://example.com/a"; "https://example.com/";
                  "https://other.example/"; "https://example.com/report.pdf" ]);
         ("https://example.com/a", [ "https://example.com/" ]);
         ("https://example.com/b", [ "https://example.com/c/d" ]);
         ("https://example.com/c/d", []) ]
       [].

(** A site whose pages do not load and that serves no sitemap. *)
Definition deadSite : Env := site [] [].

(** A site with a sitemap index of two child sitemaps, three pages each. *)
Definition indexXml : string :=
  "<?xml version='1.0'?><sitemapindex xmlns='http://www.sitemaps.org/schemas/sitemap/0.9'><sitemap><loc>https://example.com/s1.xml</loc></sitemap><sitemap><loc>https://example.com/s2.xml</loc></sitemap></sitemapindex>".

Definition child1Xml : string :=
  "<urlset><url><loc>https://example.com/a/b</loc></url><url><loc>https://example.com/a</loc></url><url><loc>https://example.com/c/d/e</loc></url></urlset>".

Definition child2Xml : string :=
  "<urlset><url><loc>https://example.com/x</loc></url><url><loc>https://example.com/y</loc></url><url><loc>https://example.com/z</loc></url></urlset>".

Definition indexSite : Env :=
  site [] [ ("https://example.com/sitemap.xml", indexXml);
            ("https://example.com/s1.xml", child1Xml);
            ("https://example.com/s2.xml", child2Xml) ].

(** A site with a flat sitemap of three pages. *)
Definition flatSite : Env :=
  site [] [ ("https://example.com/sitemap.xml", child1Xml) ].

(** A site whose flat sitemap lists a page twice, once with a fragment,
    a page of another site, a document and a page between blanks. *)
Definition variedXml : string :=
  "<urlset><url><loc>https://example.com/b#top</loc></url><url><loc>https://other.example/x</loc></url><url><loc>https://example.com/b</loc></url><url><loc>https://example.com/files/report.PDF</loc></url><url><loc> https://example.com/a </loc></url></urlset>".

Definition variedSite : Env :=
  site [] [ ("https://example.com/sitemap.xml", variedXml) ].

(** A site whose flat sitemap lists three URLs that start with the site's
    origin without being of the site; the second is no URL at all. *)
Definition strayXml : string :=
  "<urlset><url><loc>https://example.comk/a</loc></url><url><loc>https://example.comm:x/</loc></url><url><loc>https://example.comz/</loc></url></urlset>".

Definition straySite : Env :=
  site [] [ ("https://example.com/sitemap.xml", strayXml) ].

(** The variables while the links of the home page are added. *)
Definition atHome : Vars :=
  mkVars [home] [home] 0 [] 1 0 [Goto home; EvalLinks "a[href]"] [home].

(** The variables when the loop starts on the home page. *)
Definition beforeHome : Vars :=
  mkVars [home] [] 0 [home] 0 0 [] [home].

End Sample.

(* ================================================================= *)
(** ** What the specification calls things *)

(** Where a reader of markup is: in text, inside a comment, a CDATA
    section or a processing instruction that lasts until [until], or in
    the name of a tag, with the part of the name read since its last
    colon. *)
Inductive Markup :=
| InText
| Skipping (until : string)
| InName (local : string).

Definition endsName (c : ascii) : bool :=
  JS.isWhiteSpace c || Ascii.eqb c ">" || Ascii.eqb c "/".

(** A document has a start tag whose name is [sitemapindex], with or
    without a namespace prefix. *)
Fixpoint scanIndexWrapper (st : Markup) (s : string) : bool :=
  match s with
  | EmptyString => false
  | String c s' =>
      match st with
      | InText =>
          if JS.startsWith s "<!--" then scanIndexWrapper (Skipping "-->") s'
          else if JS.startsWith s "<![CDATA[" then
            scanIndexWrapper (Skipping "]]>") s'
          else if JS.startsWith s "<?" then scanIndexWrapper (Skipping "?>") s'
          else if Ascii.eqb c "<" then scanIndexWrapper (InName "") s'
          else scanIndexWrapper InText s'
      | Skipping until =>
          if JS.startsWith s until then scanIndexWrapper InText s'
          else scanIndexWrapper (Skipping until) s'
      | InName local =>
          if Ascii.eqb c ":" then scanIndexWrapper (InName "") s'
          else if endsName c then
            String.eqb local "sitemapindex" || scanIndexWrapper InText s'
          else scanIndexWrapper (InName (local ++ String c "")) s'
      end
  end.

(** A document contains the index wrapper element of a sitemap of
    sitemaps: an element named [sitemapindex], whatever its prefix, that
    is not inside a comment, a CDATA section or a processing
    instruction. *)
Definition hasIndexWrapper (xml : string) : bool :=
  scanIndexWrapper InText xml.

(** The events of a trace are progress reports after each page: the page
    with number [n] has a status event that reports [n] pages scanned. *)
Definition progressAfterEachPage (tr : list Effect) : Prop :=
  forall n, 1 <= n <= length (navigations tr) ->
    exists ph m total fromSm cur, In (Send (Status ph m total fromSm n cur)) tr.

(** *** How the variables evolve *)

Definition isStatus (f : Effect) : bool :=
  match f with Send (Status _ _ _ _ _ _) => true | _ => false end.

(** What the sitemap branch may do before its last two events. *)
Definition sitemapEffect (f : Effect) : bool :=
  isStatus f || match f with FetchXml _ => true | _ => false end.

(** What the loop over pages may do. *)
Definition crawlEffect (f : Effect) : bool :=
  isStatus f || match f with Goto _ | EvalLinks _ => true | _ => false end.

(** What crawl mode may do before it reports how the run ended. *)
Definition browsingEffect (f : Effect) : bool :=
  crawlEffect f || match f with Launch | NewPage => true | _ => false end.

Definition varsOf (o : Outcome) : Vars :=
  match o with Normal v => v | Abrupt _ v => v end.

(** The variables when the loop over pages starts: the frontier holds the
    start URL. *)
Definition loopStart (startUrl : string) (v : Vars) : Vars :=
  mkVars (discoveredLinks v) (visited v) (sitemapLinksCount v)
         [startUrl] 0 0 (trace v) [startUrl].

(** The variables after the start URL joined the discovered set. *)
Definition seeded (canonicalStart : string) (hasSitemap : bool) : Vars :=
  setDiscovered (JS.add [] canonicalStart)
    (sendEvent
       (Status starting
          (if hasSitemap then MsgStartingSitemap else MsgStartingCrawl)
          0 0 0 None) initialVars).

(** [v'] comes after [v]: the trace has grown by effects allowed by [Q] and
    no discovered link was lost. *)
Definition extends (Q : Effect -> bool) (v v' : Vars) : Prop :=
  (exists ext, trace v' = trace v ++ ext /\ forallb Q ext = true)
  /\ incl (discoveredLinks v) (discoveredLinks v').

(** [a] is not sorted after [b] by the comparator [cmp]. *)
Definition precedes (cmp : string -> string -> Z) (a b : string) : Prop :=
  (cmp a b <= 0)%Z.

(** The string parses as a URL. *)
Definition parsesWith (parseURL : URL.Parser) (a : string) : Prop :=
  parseURL a <> None.

(** *** The frontier invariant *)

(** What holds of the variables while the links of a page are added, and
    between two rounds once the first page has been taken. *)
Definition duringVisit (v : Vars) : Prop :=
  NoDup (enqueued v)
  /\ NoDup (pagesToVisit v)
  /\ incl (pagesToVisit v) (enqueued v)
  /\ (forall x, In x (enqueued v) ->
                In x (discoveredLinks v) \/ In x (visited v))
  /\ (forall x, In x (pagesToVisit v) -> ~ In x (visited v))
  /\ NoDup (navigations (trace v))
  /\ incl (navigations (trace v)) (visited v)
  /\ pagesVisited v = length (visited v)
  /\ incl (visited v) (enqueued v).

(** What holds at the head of the loop: the above, or the frontier still
    holds the start URL alone. *)
Definition atHead (startUrl : string) (v : Vars) : Prop :=
  duringVisit v
  \/ (visited v = [] /\ pagesToVisit v = [startUrl] /\ enqueued v = [startUrl]
      /\ navigations (trace v) = [] /\ pagesVisited v = 0).

(** *** Words of the specification *)

(** [isSameOrigin(url, origin)]: a strict prefix match on the origin
    string. *)
Definition sameOrigin (origin url : string) : bool := JS.startsWith url origin.

(** The result set as a list without duplicates, first occurrences kept. *)
Definition dedup (l : list string) : list string := fold_left JS.add l [].

Section Words.

Variable parseURL : URL.Parser.
Variable localeCompare : string -> string -> Z.
Variable env : Env.

(** A sitemap flattened to its page URLs: the pages of every child that
    could be fetched when the document is an index, its own pages
    otherwise. *)
Definition flatten (xml : string) : list string :=
  if isSitemapIndex xml
  then concat (map (fetchChild env) (extractSitemapUrls xml))
  else parseSitemapUrls xml.

(** The URLs of a sitemap that are kept: those of the origin that are no
    resource files. *)
Definition accepted (origin : string) (urls : list string) : list string :=
  filter (fun url => sameOrigin origin url
                     && negb (isNonHtmlResource parseURL url)) urls.

(** The variables after a part of the sitemap branch: the links of [urls]
    joined the discovered set, the counter went up by their number, and
    the trace grew by status events and fetches. *)
Definition absorbed (origin : string) (urls : list string) (v v' : Vars) : Prop :=
  discoveredLinks v'
  = fold_left JS.add (map (cleanUrl parseURL) (accepted origin urls))
              (discoveredLinks v)
  /\ sitemapLinksCount v' = sitemapLinksCount v + length (accepted origin urls)
  /\ exists ext, trace v' = trace v ++ ext /\ forallb sitemapEffect ext = true.

(** The same-origin, non-resource URLs of a flattened sitemap. *)
Definition sitemapPages (origin xml : string) : list string :=
  accepted origin (flatten xml).

(** The result set of sitemap mode: the start URL and the sitemap's pages,
    canonicalized and deduplicated. *)
Definition sitemapResult (startUrl origin xml : string) : list string :=
  dedup (cleanUrl parseURL startUrl
         :: map (cleanUrl parseURL) (sitemapPages origin xml)).

(** The variables at the head of the loop over pages, after any number of
    rounds from [v0]. *)
Inductive headState (origin : string) (cssSelector : option string)
    (v0 : Vars) : Vars -> Prop :=
| head_start : headState origin cssSelector v0 v0
| head_round v v' :
    headState origin cssSelector v0 v ->
    loopCond v = true ->
    loopBody parseURL env origin cssSelector v = Normal v' ->
    headState origin cssSelector v0 v'.

(** [a] may stand before [b] in a list sorted by path depth ascending,
    then by path name. *)
Definition linkOrder (a b : string) : Prop :=
  exists ua ub,
    parseURL a = Some ua /\ parseURL b = Some ub
    /\ (depthOf (URL.pathname ua) < depthOf (URL.pathname ub)
        \/ (depthOf (URL.pathname ua) = depthOf (URL.pathname ub)
            /\ (localeCompare (URL.pathname ua) (URL.pathname ub) <= 0)%Z)).

End Words.

(* ================================================================= *)
(** ** The sitemap fetcher

    [fetchXml], with the network as an oracle: what [get] on a URL is
    answered with.  A response carries its status code, its [location]
    header, the chunks of its body and whether its [end] event comes: a
    response that is cut short delivers chunks and never ends.  Instead of
    a response, the request may emit an error, [get] may refuse the URL by
    throwing at once, or nothing may ever come back.  [resolveURL loc base]
    stands for [new URL(loc, base).toString()], [None] when it throws. *)

Module Fetch.

Inductive Protocol := http | https.

Inductive Answer :=
| Responds (statusCode : option nat) (location : option string)
           (chunks : list string) (ends : bool)
| Errors (e : Thrown)
| Refuses (e : Thrown)
| Silent.

(** What became of the promise.  An exception thrown by the executor
    rejects it; one thrown inside the response callback settles nothing,
    and neither does an event that never comes: the promise stays
    pending. *)
Inductive Settled :=
| Resolved (data : string)
| Rejected (e : Thrown)
| Unsettled.

Definition Request : Type := Protocol * string.

Section Fetcher.

Variable net : Protocol -> string -> Answer.
Variable resolveURL : string -> string -> option string.

(** [targetUrl.startsWith("https") ? https : http] *)
Definition protocolOf (targetUrl : string) : Protocol :=
  if JS.startsWith targetUrl "https" then https else http.

(** The test for a redirect: the location to follow, if any. *)
Definition redirectTo (statusCode : option nat) (location : option string)
  : option string :=
  match statusCode, location with
  | Some sc, Some loc =>
      if negb (sc =? 0) && (300 <=? sc) && (sc <? 400) && JS.truthy loc
      then Some loc else None
  | _, _ => None
  end.

(** [makeRequest(targetUrl, redirectCount)]: the calls of [get], in order,
    and what became of the promise; [None] when [fuel] calls do not reach
    the end.  The first call runs in the executor of the promise, the
    others in the callback of the response before. *)
Fixpoint makeRequest (fuel : nat) (targetUrl : string) (redirectCount : nat)
  : option (list Request * Settled) :=
  match fuel with
  | O => None
  | S fuel' =>
      if 5 <? redirectCount then
        Some ([], Rejected (ErrorObject "Too many redirects"))
      else
        let req := (protocolOf targetUrl, targetUrl) in
        match net (protocolOf targetUrl) targetUrl with
        | Errors e => Some ([req], Rejected e)
        | Refuses e =>
            Some ([req], if redirectCount =? 0 then Rejected e else Unsettled)
        | Silent => Some ([req], Unsettled)
        | Responds statusCode location chunks ends =>
            match redirectTo statusCode location with
            | Some loc =>
                match resolveURL loc targetUrl with
                | Some redirectUrl =>
                    match makeRequest fuel' redirectUrl (S redirectCount) with
                    | Some (reqs, out) => Some (req :: reqs, out)
                    | None => None
                    end
                | None => Some ([req], Unsettled)
                end
            | None =>
                Some ([req],
                      if ends then Resolved (String.concat "" chunks)
                      else Unsettled)
            end
        end
  end.

(** [fetchXml(url)]: one call for the request and one for each of the
    redirects that can be followed, and the call that refuses the next. *)
Definition fetchXml (url : string) : option (list Request * Settled) :=
  makeRequest 7 url 0.

(** The request was answered by a redirect that leads to [next]. *)
Definition redirected (req : Request) (next : string) : Prop :=
  exists statusCode location chunks ends loc,
    net (fst req) (snd req) = Responds statusCode location chunks ends
    /\ redirectTo statusCode location = Some loc
    /\ resolveURL loc (snd req) = Some next.

(** Each request of the list but the last was answered by a redirect to the
    URL of the one after it. *)
Fixpoint chained (reqs : list Request) : Prop :=
  match reqs with
  | req :: ((next :: _) as rest) => redirected req (snd next) /\ chained rest
  | _ => True
  end.

End Fetcher.

End Fetch.

(* ================================================================= *)
(** ** More views of a trace *)

(** The URLs fetched, in order. *)
Fixpoint fetches (tr : list Effect) : list string :=
  match tr with
  | [] => []
  | FetchXml url :: tr' => url :: fetches tr'
  | _ :: tr' => fetches tr'
  end.

Definition isCloseStream (f : Effect) : bool :=
  match f with CloseStream => true | _ => false end.

Definition isCloseBrowser (f : Effect) : bool :=
  match f with CloseBrowser => true | _ => false end.

(** An event that ends a run: [done] or [error]. *)
Definition isTerminal (e : Event) : bool :=
  match e with Status _ _ _ _ _ _ => false | _ => true end.

Definition isStatusEvent (e : Event) : bool :=
  match e with Status _ _ _ _ _ _ => true | _ => false end.

(** The [total] an event reports, if it reports one. *)
Definition totalOf (e : Event) : option nat :=
  match e with
  | Status _ _ total _ _ _ => Some total
  | Done _ _ total _ _ _ => Some total
  | Error _ => None
  end.

(** The totals reported along a trace, in order. *)
Fixpoint totals (tr : list Effect) : list nat :=
  match tr with
  | [] => []
  | Send e :: tr' =>
      match totalOf e with
      | Some t => t :: totals tr'
      | None => totals tr'
      end
  | _ :: tr' => totals tr'
  end.

(** The test a link passes to be discovered by the crawl: it starts with
    the origin and is no resource file. *)
Definition onSite (parseURL : URL.Parser) (origin url : string) : Prop :=
  JS.startsWith url origin = true /\ isNonHtmlResource parseURL url = false.

(** What the crawl keeps true of its counters and of the links it holds:
    the discovered set has no duplicates and one link more than were
    counted as new, every link in it but the canonical start URL passed
    the test, so did every URL pushed onto the frontier but the start URL,
    and the page counter is within the cap. *)
Definition counted (parseURL : URL.Parser) (origin startUrl : string)
    (v : Vars) : Prop :=
  NoDup (discoveredLinks v)
  /\ length (discoveredLinks v) = S (newLinksFromPages v)
  /\ (forall x, In x (discoveredLinks v) ->
                x = cleanUrl parseURL startUrl \/ onSite parseURL origin x)
  /\ (forall x, In x (enqueued v) -> x = startUrl \/ onSite parseURL origin x)
  /\ pagesVisited v <= MAX_PAGES_SAFETY.

(** The totals reported so far never went down and none exceeds the size
    of the discovered set. *)
Definition steady (v : Vars) : Prop :=
  StronglySorted le (totals (trace v))
  /\ Forall (fun t => t <= length (discoveredLinks v)) (totals (trace v)).

(* ----------------------------------------------------------------- *)
(** *** What an emitter delivers *)

(** The frame of one event on the stream. *)
Definition frame (json : string) : string :=
  ("data: " ++ json ++ String "010" (String "010" ""))%string.

(** What happens to an emitter: a call is made on it, or the consumer
    cancels the stream, after which the controller accepts nothing:
    [enqueue] and [close] throw. *)
Inductive Happening {A : Type} :=
| Called (c : @SSE.Call A)
| ConsumerCancels.

Definition cancelled (s : SSE.t) : SSE.t :=
  SSE.mk (SSE.isClosed s)
         (SSE.mkController false (SSE.chunks (SSE.controller s))).

(** A sequence of happenings; it stops at the first call that throws. *)
Fixpoint happen {A : Type} (stringify : A -> Result string)
    (hs : list (@Happening A)) (s : SSE.t) : Result SSE.t :=
  match hs with
  | [] => Ok s
  | Called c :: hs' =>
      match SSE.call stringify c s with
      | Ok s' => happen stringify hs' s'
      | Throws e => Throws e
      end
  | ConsumerCancels :: hs' => happen stringify hs' (cancelled s)
  end.

(** The data of the [sendEvent] calls made before the first [close()] and
    before the consumer cancels. *)
Fixpoint sendsBeforeEnd {A : Type} (hs : list (@Happening A)) : list A :=
  match hs with
  | [] => []
  | Called (SSE.CallSend data) :: hs' => data :: sendsBeforeEnd hs'
  | Called SSE.CallClose :: _ => []
  | ConsumerCancels :: _ => []
  end.

(* ----------------------------------------------------------------- *)
(** *** The parts of a run *)

(** [if (sitemapUrl)], on the query parameter. *)
Definition hasSitemap (sitemapUrl : option string) : bool :=
  match sitemapUrl with Some s => JS.truthy s | None => false end.

(** What a run may do before it reports how it ended. *)
Definition quietEffect (f : Effect) : bool :=
  sitemapEffect f || browsingEffect f.

(** The variables when the loop over pages starts in a run on [startUrl]. *)
Definition crawlStart (parseURL : URL.Parser) (startUrl : string) : Vars :=
  let v := seeded (cleanUrl parseURL startUrl) false in
  loopStart startUrl
    (emit NewPage
       (emit Launch
          (sendEvent (Status browser MsgLaunching
                             (length (discoveredLinks v)) 0 0 None) v))).

(** How crawl mode ends after the loop over pages. *)
Definition crawlEnding (parseURL : URL.Parser)
    (localeCompare : string -> string -> Z) (o : Outcome) : list Effect :=
  match o with
  | Normal v =>
      let sortedLinks := sortLinks parseURL localeCompare (discoveredLinks v) in
      [ CloseBrowser;
        Send (Done (MsgCrawlComplete (pagesVisited v) (length sortedLinks))
                   sortedLinks (length sortedLinks) 0
                   (newLinksFromPages v) (pagesVisited v)) ]
  | Abrupt err _ =>
      [ Send (Error (MsgFailure (messageOr err "Discovery failed")));
        CloseBrowser ]
  end.

(** An event that reports the size of the discovered set as its total. *)
Ltac reported_size :=
  let He := fresh "He" in
  let Ht := fresh "Ht" in
  intros ? ? He Ht; inversion He; subst; cbn in Ht; inversion Ht; reflexivity.

(** Every page marked visited was navigated to, in the same order. *)
Definition navigatedAll (v : Vars) : Prop := navigations (trace v) = visited v.

(** [v'] comes after [v] in the sitemap branch: the URLs [fs] were fetched
    in between, and the reported totals stay steady if they were. *)
Definition grows (fs : list string) (v v' : Vars) : Prop :=
  fetches (trace v') = fetches (trace v) ++ fs
  /\ (steady v -> steady v').

(** The documents a run with a sitemap asks for: the sitemap, and the
    children it lists when it is taken for an index. *)
Definition sitemapRequests (env : Env) (sitemapUrl : string) : list string :=
  sitemapUrl
  :: match fetchXml env sitemapUrl with
     | Ok xml => if isSitemapIndex xml then extractSitemapUrls xml else []
     | Throws _ => []
     end.

Ltac reported_total :=
  let Ht := fresh "Ht" in
  intros ? Ht; unfold totalOf in Ht; injection Ht as <-; try reflexivity.

(* ----------------------------------------------------------------- *)
(** *** More sample sites *)

Module SampleNet.

(** A server that sends plain HTTP to HTTPS, serves one sitemap in two
    chunks, moves another to a location that is no URL, cuts a third short,
    and answers everything else by a redirect to the same place. *)
Definition net (p : Fetch.Protocol) (url : string) : Fetch.Answer :=
  match p with
  | Fetch.http =>
      Fetch.Responds (Some 301) (Some "https://example.com/sitemap.xml") [] true
  | Fetch.https =>
      if String.eqb url "https://example.com/sitemap.xml"
      then Fetch.Responds (Some 200) None ["<urlset>"; "</urlset>"] true
      else if String.eqb url "https://example.com/moved.xml"
      then Fetch.Responds (Some 302) (Some "http://") [] true
      else if String.eqb url "https://example.com/cut.xml"
      then Fetch.Responds (Some 200) None ["<urlset>"] false
      else Fetch.Responds (Some 302) (Some "https://example.com/loop") [] true
  end.

(** Absolute locations with a host only. *)
Definition resolveURL (loc base : string) : option string :=
  if String.eqb loc "http://" then None
  else if JS.startsWith loc "http" then Some loc else None.

(** [JSON.stringify] that throws on the empty string. *)
Definition stringify (data : string) : Result string :=
  if JS.truthy data then Ok data else Throws (ErrorObject "cannot serialise").

(** A flat sitemap of one page that mentions sitemaps in a comment. *)
Definition commentedXml : string :=
  "<urlset><!-- see <sitemap> in the protocol --><url><loc>https://example.com/a</loc></url></urlset>".

Definition commentedSite : Env :=
  Sample.site [] [ ("https://example.com/sitemap.xml", commentedXml) ].

End SampleNet.

(* ================================================================= *)
(** ** The client: link discovery in the [useCrawler] hook

    The state of the hook that discovery touches, and the handlers that
    [discoverLinks] puts on its [EventSource].  [connected] tells whether
    that [EventSource] is open: one that was closed dispatches nothing.
    [render] gives the text of a message. *)

Module Client.

Inductive CrawlerPhase := idle | discovering | preview | crawling.

Module Progress.
Record t := mk {
  message : string;
  total : nat;
  fromSitemap : nat;
  pagesScanned : nat;
  phase : string
}.
End Progress.

Module Alert.
Inductive Kind := error | warning | info.
Record t := mk {
  isOpen : bool;
  title : string;
  message : string;
  type : Kind
}.
End Alert.

Record State := mkState {
  phase : CrawlerPhase;
  discoveredLinks : list string;
  selectedLinks : list string;                 (* a Set *)
  pendingStartUrl : string;
  pendingSitemapUrl : string;
  pendingResetCallback : option nat;
  discoveryProgress : option Progress.t;
  discoveryEventSource : bool;                 (* not null *)
  alertState : Alert.t;
  connected : bool
}.

(** [n || d] on numbers, [s || d] on strings. *)
Definition orNat (n d : nat) : nat := if n =? 0 then d else n.
Definition orString (s d : string) : string := if JS.truthy s then s else d.

Definition phaseName (p : Phase) : string :=
  match p with
  | starting => "starting"
  | sitemap => "sitemap"
  | sitemap_done => "sitemap_done"
  | browser => "browser"
  | scanning => "scanning"
  end.

Definition showAlert (title message : string) (type : Alert.Kind) (s : State)
  : State :=
  mkState (phase s) (discoveredLinks s) (selectedLinks s) (pendingStartUrl s)
          (pendingSitemapUrl s) (pendingResetCallback s) (discoveryProgress s)
          (discoveryEventSource s) (Alert.mk true title message type)
          (connected s).

Section Hook.

Variable render : Message -> string.

(** [es.onmessage] *)
Definition onmessage (data : Event) (s : State) : State :=
  match data with
  | Status p m total fromSitemap pagesScanned _ =>
      mkState (phase s) (discoveredLinks s) (selectedLinks s) (pendingStartUrl s)
              (pendingSitemapUrl s) (pendingResetCallback s)
              (Some (Progress.mk (render m) (orNat total 0) (orNat fromSitemap 0)
                                 (orNat pagesScanned 0)
                                 (orString (phaseName p) "unknown")))
              (discoveryEventSource s) (alertState s) (connected s)
  | Done m links total fromSitemap _ pagesScanned =>
      mkState preview links (fold_left JS.add links []) (pendingStartUrl s)
              (pendingSitemapUrl s) (pendingResetCallback s)
              (Some (Progress.mk (render m) (orNat total (length links))
                                 (orNat fromSitemap 0) (orNat pagesScanned 0)
                                 "done"))
              false (alertState s) false
  | Error m =>
      let s := showAlert "Discovery Failed"
                 (orString (render m) "An unknown error occurred during discovery.")
                 Alert.error s in
      mkState idle (discoveredLinks s) (selectedLinks s) (pendingStartUrl s)
              (pendingSitemapUrl s) (pendingResetCallback s) None
              false (alertState s) false
  end.

(** [es.onerror] *)
Definition onerror (s : State) : State :=
  let s := showAlert "Connection Lost"
             "The discovery connection was lost. Please try again."
             Alert.error s in
  mkState idle (discoveredLinks s) (selectedLinks s) (pendingStartUrl s)
          (pendingSitemapUrl s) (pendingResetCallback s) None
          false (alertState s) false.

(** A message of the stream reaches the handler while the [EventSource] is
    open. *)
Definition dispatch (s : State) (data : Event) : State :=
  if connected s then onmessage data s else s.

(** The end of the stream is an error to an [EventSource] that is still
    open. *)
Definition streamEnded (s : State) : State :=
  if connected s then onerror s else s.

(** [discoverLinks(startUrl, sitemapUrl, onResetAutoScroll)]: the state it
    leaves and the query it sends, [startUrl] and, if there is one,
    [sitemapUrl]. *)
Definition discoverLinks (startUrl sitemapUrl : string)
    (onResetAutoScroll : option nat) (s : State)
  : State * option (string * option string) :=
  if negb (JS.truthy startUrl) then
    (showAlert "Missing URL" "Please enter a start URL to begin discovery."
               Alert.warning s, None)
  else
    (mkState discovering (discoveredLinks s) (selectedLinks s) startUrl sitemapUrl
             onResetAutoScroll
             (Some (Progress.mk "Starting discovery..." 0 0 0 "starting"))
             true (alertState s) true,
     Some (startUrl, if JS.truthy sitemapUrl then Some sitemapUrl else None)).

Section Session.

Variable parseURL : URL.Parser.
Variable localeCompare : string -> string -> Z.
Variable env : Env.

(** One discovery, from the call of [discoverLinks] to the end of the
    stream that the route answers with. *)
Definition session (startUrl sitemapUrl : string)
    (onResetAutoScroll : option nat) (s : State) : option State :=
  match discoverLinks startUrl sitemapUrl onResetAutoScroll s with
  | (s, None) => Some s
  | (s, Some (startUrl, sitemapUrl)) =>
      match GET parseURL localeCompare env (Some startUrl) sitemapUrl None with
      | Some (ResponseStream tr) => Some (streamEnded (fold_left dispatch (sent tr) s))
      | Some Response400 => Some (onerror s)
      | None => None
      end
  end.

End Session.

End Hook.

(** The hook before anything was done with it. *)
Definition initial : State :=
  mkState idle [] [] "" "" None None false (Alert.mk false "" "" Alert.info) false.

End Client.

(** The runs of the route on the sample sites. *)
Definition traceOf (r : option Response) : list Effect :=
  match r with Some (ResponseStream tr) => tr | _ => [] end.

Definition crawlRun : list Effect := Eval vm_compute in
    traceOf (GET Sample.parseURL Sample.localeCompare Sample.crawlSite
                 (Some Sample.home) None None).

Definition indexRun : list Effect := Eval vm_compute in
    traceOf (GET Sample.parseURL Sample.localeCompare Sample.indexSite
                 (Some Sample.home) (Some "https://example.com/sitemap.xml") None).

Definition commentedRun : list Effect := Eval vm_compute in
    traceOf (GET Sample.parseURL Sample.localeCompare SampleNet.commentedSite
                 (Some Sample.home) (Some "https://example.com/sitemap.xml") None).

(* ================================================================= *)
(** ** The handler, with awaits that do not come back

    [Env] answers every [fetchXml] and lets [browser.close()] succeed.
    Here the handler is written once more for what that leaves out: the
    promise of a fetch may stay pending, and then the task never gets past
    the [await] on it; and the [browser.close()] after the loop may reject.
    [pending url] tells whether the promise of [fetchXml(url)] stays
    pending ([fetchXml env url] is what it settles with otherwise), and
    [closeBrowser] is what the [browser.close()] after the loop answers.
    The calls of the browser are taken to come back, as in [Env], with a
    value or with an exception. *)

(** The task goes on, or it waits for ever, with its variables. *)
Inductive Course :=
| Goes (v : Vars)
| Waits (v : Vars).

(** What becomes of a request: the response of a task that came to its
    end, or a stream on which the task waits for ever after the effects
    given. *)
Inductive Reply :=
| Finished (r : Response)
| Hung (tr : list Effect).

Module Awaiting.

Section Handler.

Variable parseURL : URL.Parser.
Variable localeCompare : string -> string -> Z.
Variable env : Env.
Variable pending : string -> bool.
Variable closeBrowser : Result unit.

(** One round of the loop over child sitemaps.  The requests of the batch
    are all made; [Promise.all] settles when each of them has. *)
Definition processBatch (origin : string) (childSitemapUrls : list string)
    (i : nat) (v : Vars) : Course :=
  let batch := firstn PARALLEL_LIMIT (skipn i childSitemapUrls) in
  if existsb pending batch then
    Waits (fold_left (fun v url => emit (FetchXml url) v) batch v)
  else Goes (processBatch parseURL env origin childSitemapUrls i v).

(** [for (let i = 0; i < childSitemapUrls.length; i += PARALLEL_LIMIT)] *)
Fixpoint batchLoop (fuel : nat) (origin : string)
    (childSitemapUrls : list string) (i : nat) (v : Vars) : Course :=
  match fuel with
  | O => Goes v
  | S fuel' =>
      if i <? length childSitemapUrls then
        match processBatch origin childSitemapUrls i v with
        | Goes v => batchLoop fuel' origin childSitemapUrls (i + PARALLEL_LIMIT) v
        | Waits v => Waits v
        end
      else Goes v
  end.

(** The sitemap branch after the fetch of the sitemap itself settled with
    [xml]. *)
Definition sitemapParsed (origin xml : string) (v : Vars) : Course :=
  let mid :=
    if isSitemapIndex xml then
      let childSitemapUrls := extractSitemapUrls xml in
      let v := sendEvent
                 (Status sitemap (MsgFoundIndex (length childSitemapUrls))
                         (length (discoveredLinks v)) 0 0 None) v in
      batchLoop (length childSitemapUrls) origin childSitemapUrls 0 v
    else
      let v := sendEvent
                 (Status sitemap MsgParsing
                         (length (discoveredLinks v)) 0 0 None) v in
      Goes (fold_left (addSitemapUrl parseURL origin) (parseSitemapUrls xml) v) in
  match mid with
  | Waits v => Waits v
  | Goes v =>
      let v := sendEvent
                 (Status sitemap_done (MsgSitemapParsed (sitemapLinksCount v))
                         (length (discoveredLinks v)) (sitemapLinksCount v) 0 None)
                 v in
      let sortedLinks := sortLinks parseURL localeCompare (discoveredLinks v) in
      Goes (sendEvent
              (Done (MsgSitemapComplete (sitemapLinksCount v)) sortedLinks
                    (length sortedLinks) (sitemapLinksCount v) 0 0) v)
  end.

Definition sitemapMode (origin sitemapUrl : string) (v : Vars) : Course :=
  let v := sendEvent
             (Status sitemap (MsgFetchingSitemap sitemapUrl)
                     (length (discoveredLinks v)) 0 0 None) v in
  let v := emit (FetchXml sitemapUrl) v in
  if pending sitemapUrl then Waits v
  else
    match fetchXml env sitemapUrl with
    | Ok xml => sitemapParsed origin xml v
    | Throws err =>
        Goes (sendEvent (Error (MsgSitemapFailed (messageOr err "Unknown error"))) v)
    end.

(** Crawl mode.  When the [browser.close()] after the loop rejects,
    [browser] is still set and the outer [catch] closes it again. *)
Definition crawlMode (fuel : nat) (origin startUrl : string)
    (cssSelector : option string) (v : Vars) : option Vars :=
  let v := sendEvent
             (Status browser MsgLaunching (length (discoveredLinks v)) 0 0 None)
             v in
  let v := emit Launch v in
  match launch env with
  | Throws err => Some (failed err false v)
  | Ok _ =>
      let v := emit NewPage v in
      match newPage env with
      | Throws err => Some (failed err true v)
      | Ok _ =>
          let v := mkVars (discoveredLinks v) (visited v) (sitemapLinksCount v)
                          [startUrl] 0 0 (trace v) [startUrl] in
          match runLoop parseURL env fuel origin cssSelector v with
          | None => None
          | Some (Abrupt err v) => Some (failed err true v)
          | Some (Normal v) =>
              let v := emit CloseBrowser v in
              match closeBrowser with
              | Throws err => Some (failed err true v)
              | Ok _ =>
                  let sortedLinks :=
                    sortLinks parseURL localeCompare (discoveredLinks v) in
                  Some (sendEvent
                          (Done (MsgCrawlComplete (pagesVisited v)
                                                  (length sortedLinks))
                                sortedLinks (length sortedLinks) 0
                                (newLinksFromPages v) (pagesVisited v)) v)
              end
          end
      end
  end.

(** The background task, from [try] to [finally]; a task that waits for
    ever does not reach its [finally]. *)
Definition discover (fuel : nat) (startUrl : string)
    (sitemapUrl cssSelector : option string) : option Reply :=
  let finally_ (v : Vars) := Finished (ResponseStream (trace (emit CloseStream v))) in
  match parseURL startUrl with
  | None => Some (finally_ (failed (ErrorObject "Invalid URL") false initialVars))
  | Some u =>
      let origin := URL.origin parseURL u in
      let v := sendEvent
                 (Status starting
                    (if hasSitemap sitemapUrl then MsgStartingSitemap
                     else MsgStartingCrawl)
                    0 0 0 None) initialVars in
      let v := setDiscovered
                 (JS.add (discoveredLinks v) (cleanUrl parseURL startUrl)) v in
      match hasSitemap sitemapUrl, sitemapUrl with
      | true, Some sitemapUrl =>
          match sitemapMode origin sitemapUrl v with
          | Goes v => Some (finally_ v)
          | Waits v => Some (Hung (trace v))
          end
      | _, _ => option_map finally_ (crawlMode fuel origin startUrl cssSelector v)
      end
  end.

Definition GET (startUrl sitemapUrl cssSelector : option string)
  : option Reply :=
  match startUrl with
  | None => Some (Finished Response400)
  | Some startUrl =>
      if JS.truthy startUrl then
        discover (S MAX_PAGES_SAFETY) startUrl sitemapUrl cssSelector
      else Some (Finished Response400)
  end.

End Handler.

End Awaiting.

(** The handler's view of [fetchXml] over a network: what the promise of a
    URL settles with, and whether it stays pending. *)
Definition settlesWith (net : Fetch.Protocol -> string -> Fetch.Answer)
    (resolveURL : string -> string -> option string) (url : string)
  : Result string :=
  match Fetch.fetchXml net resolveURL url with
  | Some (_, Fetch.Resolved data) => Ok data
  | Some (_, Fetch.Rejected e) => Throws e
  | _ => Throws OtherValue
  end.

Definition staysPending (net : Fetch.Protocol -> string -> Fetch.Answer)
    (resolveURL : string -> string -> option string) (url : string) : bool :=
  match Fetch.fetchXml net resolveURL url with
  | Some (_, Fetch.Unsettled) => true
  | _ => false
  end.

(** A site with no page that loads, behind the sample network. *)
Definition networkSite : Env :=
  {| fetchXml := settlesWith SampleNet.net SampleNet.resolveURL;
     launch := Ok tt;
     newPage := Ok tt;
     pageGoto := fun _ _ => false;
     pageEval := fun _ _ _ => None |}.

Definition networkPending : string -> bool :=
  staysPending SampleNet.net SampleNet.resolveURL.

(** The effects of a request, whether its task ended or not. *)
Definition effectsOf (reply : Reply) : list Effect :=
  match reply with
  | Finished Response400 => []
  | Finished (ResponseStream tr) => tr
  | Hung tr => tr
  end.

(** An effect that uses the browser: all browser effects but its
    closing. *)
Definition usesBrowser (f : Effect) : bool :=
  isBrowserEffect f && negb (isCloseBrowser f).

(** Three runs of the handler with awaits: over the sample network, a
    sitemap whose fetch stays pending and one that is fetched through a
    redirect; and a crawl of the sample site whose [browser.close()]
    rejects. *)
Definition pendingRun : list Effect :=
  [ Send (Status starting MsgStartingSitemap 0 0 0 None);
    Send (Status sitemap (MsgFetchingSitemap "https://example.com/moved.xml")
                 1 0 0 None);
    FetchXml "https://example.com/moved.xml" ].

Definition followedRun : list Effect :=
  [ Send (Status starting MsgStartingSitemap 0 0 0 None);
    Send (Status sitemap (MsgFetchingSitemap "http://example.com/sitemap.xml")
                 1 0 0 None);
    FetchXml "http://example.com/sitemap.xml";
    Send (Status sitemap MsgParsing 1 0 0 None);
    Send (Status sitemap_done (MsgSitemapParsed 0) 1 0 0 None);
    Send (Done (MsgSitemapComplete 0) ["https://example.com/"] 1 0 0 0);
    CloseStream ].

Definition closeFailedRun : list Effect :=
  Eval vm_compute in
    match Awaiting.GET Sample.parseURL Sample.localeCompare Sample.crawlSite
                       (fun _ => false) (Throws (ErrorObject "Target closed"))
                       (Some Sample.home) None None with
    | Some reply => effectsOf reply
    | None => []
    end.

(** Find an element in a list that is written out. *)
Ltac find_in_list := repeat first [left; reflexivity | right].

(* ================================================================= *)
(** ** Facts about strings and sets *)

Lemma prefix_app (p s : string) :
  String.prefix p s = true <-> exists r, s = (p ++ r)%string.
Proof.
  revert s; induction p as [|a p IH]; intros s.
  - split; [intros _; now exists s | intros _; now destruct s].
  - destruct s as [|b s]; simpl.
    + split; [discriminate | intros [r Hr]; discriminate].
    + destruct (ascii_dec a b) as [->|Hab].
      * rewrite IH. split; intros [r Hr]; exists r; congruence.
      * split; [discriminate | intros [r Hr]; congruence].
Qed.

Lemma includes_app (s p : string) :
  JS.includes s p = true <-> exists a b, s = (a ++ p ++ b)%string.
Proof.
  induction s as [|c s IH]; cbn [JS.includes].
  - rewrite orb_false_r, prefix_app. split.
    + intros [r Hr]. now exists EmptyString, r.
    + intros [a [b Hab]]. destruct a; [now exists b | discriminate].
  - rewrite orb_true_iff, prefix_app, IH. split.
    + intros [[r Hr] | [a [b Hab]]].
      * now exists EmptyString, r.
      * exists (String c a), b. simpl. now rewrite Hab.
    + intros [a [b Hab]]. destruct a as [|c' a]; simpl in Hab.
      * left. now exists b.
      * right. exists a, b. congruence.
Qed.

Lemma has_In (s : list string) (x : string) : JS.has s x = true <-> In x s.
Proof.
  unfold JS.has. rewrite existsb_exists. split.
  - intros [y [Hy Heq]]. apply String.eqb_eq in Heq. now subst.
  - intros H. exists x. split; [assumption | apply String.eqb_refl].
Qed.

Lemma has_notIn (s : list string) (x : string) : JS.has s x = false <-> ~ In x s.
Proof.
  rewrite <- has_In. destruct (JS.has s x); split; congruence.
Qed.

Lemma In_add (s : list string) (x y : string) :
  In y (JS.add s x) <-> In y s \/ y = x.
Proof.
  unfold JS.add. destruct (JS.has s x) eqn:E.
  - apply has_In in E. split; [now left | intros [H | ->]; assumption].
  - rewrite in_app_iff. simpl. intuition.
Qed.

Lemma NoDup_add (s : list string) (x : string) : NoDup s -> NoDup (JS.add s x).
Proof.
  intros H. unfold JS.add. destruct (JS.has s x) eqn:E; [assumption|].
  apply has_notIn in E. apply NoDup_app; [assumption | repeat constructor; auto | ].
  intros y Hy [<- | []]. contradiction.
Qed.

Lemma length_add_le (s : list string) (x : string) :
  length s <= length (JS.add s x).
Proof.
  unfold JS.add. destruct (JS.has s x); [lia|]. rewrite length_app. simpl. lia.
Qed.

(* ================================================================= *)
(** ** The helpers on small inputs *)

Example extractSitemapUrls_index :
  extractSitemapUrls Sample.indexXml
  = ["https://example.com/s1.xml"; "https://example.com/s2.xml"].
Proof. reflexivity. Qed.

Example parseSitemapUrls_urlset :
  parseSitemapUrls Sample.child1Xml
  = ["https://example.com/a/b"; "https://example.com/a";
     "https://example.com/c/d/e"].
Proof. reflexivity. Qed.

(** Without [url] elements the bare [loc] elements are taken, but for those
    that look like sitemaps. *)
Example parseSitemapUrls_bare_locs :
  parseSitemapUrls
    "<loc> https://example.com/a </loc><LOC>https://example.com/more.xml</LOC><loc>https://example.com/a</loc>"
  = ["https://example.com/a"].
Proof. reflexivity. Qed.

Example buildScopedSelector_two :
  buildScopedSelector ".main, #content" "a[href]"
  = ".main a[href], #content a[href]".
Proof. reflexivity. Qed.

Example isNonHtmlResource_pdf :
  isNonHtmlResource Sample.parseURL "https://example.com/files/Report.PDF?v=1" = true
  /\ isNonHtmlResource Sample.parseURL "https://example.com/files/report" = false
  /\ isNonHtmlResource Sample.parseURL "not a url.pdf" = false.
Proof. repeat split; reflexivity. Qed.

Example cleanUrl_examples :
  cleanUrl Sample.parseURL "https://example.com#top" = "https://example.com/"
  /\ cleanUrl Sample.parseURL "https://example.com/a?b=1#c" = "https://example.com/a?b=1"
  /\ cleanUrl Sample.parseURL "#top" = "#top".
Proof. repeat split; reflexivity. Qed.

Example origin_of_home :
  option_map (URL.origin Sample.parseURL) (Sample.parseURL Sample.home)
  = Some Sample.siteOrigin.
Proof. reflexivity. Qed.

Example depthOf_paths :
  map depthOf ["/"; "/a"; "/a/b"; "/a/b/"; "/c/d/e"] = [0; 1; 2; 2; 3].
Proof. reflexivity. Qed.

(** An emitter that is sent one event, closed, and sent another: the
    stream holds the first event only. *)
Example emitter_send_close_send :
  SSE.calls (fun n : nat => Ok (NilEmpty.string_of_uint (Nat.to_uint n)))
            [SSE.CallSend 1; SSE.CallClose; SSE.CallSend 2]
            SSE.createSSEResponse
  = Ok (SSE.mk true
          (SSE.mkController false
             [("data: 1" ++ String "010" (String "010" ""))%string])).
Proof. reflexivity. Qed.

(* ================================================================= *)
(** ** Canonical URLs *)

Section CleanUrl.

Variable parseURL : URL.Parser.

Lemma clearHash_sameButFragment (r1 r2 : URL.t) :
  URL.sameButFragment r1 r2 -> URL.clearHash r1 = URL.clearHash r2.
Proof.
  intros (Hs & Hu & Hp & Hh & Hpo & Hpa & Hq).
  unfold URL.clearHash. congruence.
Qed.

Lemma clearHash_idempotent (r : URL.t) :
  URL.clearHash (URL.clearHash r) = URL.clearHash r.
Proof. reflexivity. Qed.

Lemma cleanUrl_unparsed (u : string) :
  parseURL u = None -> cleanUrl parseURL u = u.
Proof. intros H. unfold cleanUrl. now rewrite H. Qed.

(** C3. Two strings that parse to URLs differing at most in the fragment
    have the same canonical form, whatever the fragments are; and
    canonicalising a canonical form changes nothing, for every string: one
    that does not parse is returned as it is, and one that parses is
    serialized without fragment, which the platform parses back to the
    same URL. *)
Theorem cleanUrl_fragment_blind_and_idempotent :
  (forall u1 u2 r1 r2,
      parseURL u1 = Some r1 -> parseURL u2 = Some r2 ->
      URL.sameButFragment r1 r2 ->
      cleanUrl parseURL u1 = cleanUrl parseURL u2)
  /\ (forall u,
         (forall r, parseURL u = Some r ->
                    parseURL (URL.toString (URL.clearHash r))
                    = Some (URL.clearHash r)) ->
         cleanUrl parseURL (cleanUrl parseURL u) = cleanUrl parseURL u).
Proof.
  split.
  - intros u1 u2 r1 r2 H1 H2 Hsame. unfold cleanUrl. rewrite H1, H2.
    f_equal. now apply clearHash_sameButFragment.
  - intros u Hround. unfold cleanUrl at 2 3.
    destruct (parseURL u) as [r|] eqn:Hu.
    + unfold cleanUrl. rewrite (Hround r eq_refl).
      now rewrite clearHash_idempotent.
    + now apply cleanUrl_unparsed.
Qed.

End CleanUrl.

Lemma cleanUrl_fragment_blind_and_idempotent_witness :
  cleanUrl Sample.parseURL "https://example.com/docs/guide?v=2#intro"
  = cleanUrl Sample.parseURL "https://example.com/docs/guide?v=2#usage"
  /\ cleanUrl Sample.parseURL
       (cleanUrl Sample.parseURL "https://example.com/docs/guide?v=2#intro")
     = "https://example.com/docs/guide?v=2"
  /\ cleanUrl Sample.parseURL (cleanUrl Sample.parseURL "/docs#intro")
     = "/docs#intro".
Proof.
  destruct (cleanUrl_fragment_blind_and_idempotent Sample.parseURL)
    as [Hblind Hidem].
  split; [|split].
  - eapply Hblind; [reflexivity | reflexivity | vm_compute; repeat split].
  - rewrite Hidem; [reflexivity|].
    intros r Hr. vm_compute in Hr. injection Hr as <-. reflexivity.
  - rewrite Hidem; [reflexivity|].
    intros r Hr. vm_compute in Hr. discriminate.
Defined.

(* ================================================================= *)
(** ** Sitemap index detection *)

(** C6 fails as stated: a flat sitemap with the text of a [sitemap] tag in a
    comment has no index wrapper element, yet it is taken for an index. *)
Lemma isSitemapIndex_flat_counterexample :
  let xml :=
    "<urlset><!-- <sitemap> entries live in the index --><url><loc>https://example.com/</loc></url></urlset>" in
  hasIndexWrapper xml = false /\ isSitemapIndex xml <> false.
Proof. vm_compute. split; [reflexivity | discriminate]. Qed.

(** C6, amended. [isSitemapIndex] answers true exactly for the documents
    that contain the text [<sitemapindex] or the text [<sitemap>], and so
    false for a flat sitemap that contains neither text.  It is a test on
    the text, not on the elements: an index whose wrapper element is
    written with a namespace prefix contains neither text and is not
    detected. *)
Theorem isSitemapIndex_iff (xml : string) :
  (isSitemapIndex xml = true <->
     (exists a b, xml = (a ++ "<sitemapindex" ++ b)%string)
     \/ (exists a b, xml = (a ++ "<sitemap>" ++ b)%string))
  /\ (JS.includes xml "<sitemapindex" = false ->
      JS.includes xml "<sitemap>" = false -> isSitemapIndex xml = false)
  /\ (let prefixed :=
        "<sm:sitemapindex xmlns:sm='http://www.sitemaps.org/schemas/sitemap/0.9'><sm:sitemap><sm:loc>https://example.com/s1.xml</sm:loc></sm:sitemap></sm:sitemapindex>" in
      hasIndexWrapper prefixed = true /\ isSitemapIndex prefixed = false).
Proof.
  split; [|split].
  - unfold isSitemapIndex. rewrite orb_true_iff, !includes_app. tauto.
  - unfold isSitemapIndex. intros -> ->. reflexivity.
  - vm_compute. split; reflexivity.
Qed.

Lemma isSitemapIndex_iff_witness :
  isSitemapIndex "<sitemapindex><sitemap><loc>https://example.com/s1.xml</loc></sitemap></sitemapindex>" = true
  /\ isSitemapIndex "<urlset><!-- <sitemap> entries live in the index --><url><loc>https://example.com/</loc></url></urlset>" = true
  /\ isSitemapIndex "<urlset><url><loc>https://example.com/</loc></url></urlset>" = false.
Proof.
  split; [|split].
  - match goal with
    | |- isSitemapIndex ?xml = true =>
        apply (proj2 (proj1 (isSitemapIndex_iff xml)))
    end.
    left.
    exists "", "><sitemap><loc>https://example.com/s1.xml</loc></sitemap></sitemapindex>".
    reflexivity.
  - match goal with
    | |- isSitemapIndex ?xml = true =>
        apply (proj2 (proj1 (isSitemapIndex_iff xml)))
    end.
    right.
    exists "<urlset><!-- ", " entries live in the index --><url><loc>https://example.com/</loc></url></urlset>".
    reflexivity.
  - match goal with
    | |- isSitemapIndex ?xml = false =>
        apply (proj1 (proj2 (isSitemapIndex_iff xml))); reflexivity
    end.
Defined.

(* ================================================================= *)
(** ** The event emitter *)

Section EmitterFacts.

Context {A : Type}.
Variable stringify : A -> Result string.

Lemma close_closes (s : SSE.t) :
  exists s', SSE.close s = Ok s' /\ SSE.isClosed s' = true.
Proof.
  unfold SSE.close. destruct (SSE.isClosed s) eqn:E; simpl.
  - now exists s.
  - destruct (SSE.closeController (SSE.controller s)); eexists; split; reflexivity.
Qed.

Lemma call_closed (c : SSE.Call) (s : SSE.t) :
  SSE.isClosed s = true -> SSE.call stringify c s = Ok s.
Proof.
  intros H. destruct c; simpl.
  - unfold SSE.sendEvent. now rewrite H.
  - unfold SSE.close. now rewrite H.
Qed.

Lemma calls_closed (cs : list SSE.Call) (s : SSE.t) :
  SSE.isClosed s = true -> SSE.calls stringify cs s = Ok s.
Proof.
  intros H. induction cs as [|c cs IH]; simpl; [reflexivity|].
  now rewrite call_closed.
Qed.

(** C8. [close()] returns normally and leaves the emitter closed; from
    then on every [sendEvent] returns the state it was given, so nothing is
    enqueued and nothing changes, a second [close()] does the same, and so
    does any sequence of further calls: none throws. *)
Theorem emitter_closed_is_final (s : SSE.t) :
  exists s',
    SSE.close s = Ok s'
    /\ SSE.isClosed s' = true
    /\ (forall data, SSE.sendEvent stringify data s' = Ok s')
    /\ SSE.close s' = Ok s'
    /\ (forall cs, SSE.calls stringify cs s' = Ok s').
Proof.
  destruct (close_closes s) as [s' [Hclose Hclosed]].
  exists s'. repeat split; try assumption.
  - intros data. exact (call_closed (SSE.CallSend data) s' Hclosed).
  - exact (call_closed SSE.CallClose s' Hclosed).
  - intros cs. now apply calls_closed.
Qed.

End EmitterFacts.

(* ================================================================= *)
(** ** Sorting *)

Section SortFacts.

Variable cmp : string -> string -> Z.

Lemma sortInsert_perm (x : string) (l : list string) :
  Permutation (x :: l) (sortInsert cmp x l).
Proof.
  induction l as [|y l IH]; simpl; [apply Permutation_refl|].
  destruct (cmp y x <? 0)%Z; [|apply Permutation_refl].
  eapply Permutation_trans; [apply perm_swap|]. now apply perm_skip.
Qed.

Lemma sort_perm (l : list string) : Permutation l (sort cmp l).
Proof.
  induction l as [|x l IH]; simpl; [constructor|].
  eapply Permutation_trans; [|apply sortInsert_perm]. now apply perm_skip.
Qed.

Lemma In_sort (x : string) (l : list string) : In x (sort cmp l) <-> In x l.
Proof.
  split; apply Permutation_in;
    [apply Permutation_sym|]; apply sort_perm.
Qed.

Lemma length_sort (l : list string) : length (sort cmp l) = length l.
Proof. symmetry. apply Permutation_length, sort_perm. Qed.

(** On elements where [cmp] is a consistent comparator the result is in
    order. *)
Variable P : string -> Prop.
Hypothesis cmp_total : forall a b, P a -> P b -> (0 <= cmp a b -> cmp b a <= 0)%Z.
Hypothesis cmp_trans :
  forall a b c, P a -> P b -> P c ->
                (cmp a b <= 0 -> cmp b c <= 0 -> cmp a c <= 0)%Z.

Local Abbreviation before := (precedes cmp).

Lemma sortInsert_sorted (x : string) (l : list string) :
  P x -> Forall P l -> StronglySorted before l ->
  StronglySorted before (sortInsert cmp x l).
Proof.
  intros Hx HP Hs. induction l as [|y l IH]; simpl.
  - repeat constructor.
  - inversion HP as [|? ? Hy HPl]; subst.
    inversion Hs as [|? ? Hsl Hyl]; subst.
    destruct (cmp y x <? 0)%Z eqn:E.
    + apply Z.ltb_lt in E. constructor; [now apply IH|].
      rewrite Forall_forall. intros z Hz.
      apply (Permutation_in _ (Permutation_sym (sortInsert_perm x l))) in Hz.
      destruct Hz as [<- | Hz]; [unfold precedes; lia|].
      rewrite Forall_forall in Hyl. now apply Hyl.
    + apply Z.ltb_ge in E. assert (Hxy : before x y) by now apply cmp_total.
      constructor; [assumption|]. constructor; [assumption|].
      rewrite Forall_forall in *. intros z Hz.
      apply (cmp_trans x y z); auto. apply (Hyl z Hz).
Qed.

Lemma sort_sorted (l : list string) :
  Forall P l -> StronglySorted before (sort cmp l).
Proof.
  induction l as [|x l IH]; intros HP; simpl; [constructor|].
  inversion HP as [|? ? Hx HPl]; subst.
  apply sortInsert_sorted; [assumption | | now apply IH].
  rewrite Forall_forall in *. intros z Hz. apply HPl. now apply In_sort.
Qed.

End SortFacts.

(* ================================================================= *)
(** ** How the variables evolve *)

Lemma extends_refl Q v : extends Q v v.
Proof.
  split; [exists []; now rewrite app_nil_r | apply incl_refl].
Qed.

Lemma extends_trans Q v1 v2 v3 :
  extends Q v1 v2 -> extends Q v2 v3 -> extends Q v1 v3.
Proof.
  intros [[e1 [H1 Q1]] I1] [[e2 [H2 Q2]] I2]. split.
  - exists (e1 ++ e2). rewrite H2, H1, <- app_assoc. split; [reflexivity|].
    rewrite forallb_app. now rewrite Q1, Q2.
  - eapply incl_tran; eassumption.
Qed.

Lemma extends_emit Q f v : Q f = true -> extends Q v (emit f v).
Proof.
  intros H. split; [|apply incl_refl].
  exists [f]. simpl. now rewrite H.
Qed.

Lemma extends_fold {B : Type} Q (step : Vars -> B -> Vars) (l : list B) :
  (forall v b, extends Q v (step v b)) ->
  forall v, extends Q v (fold_left step l v).
Proof.
  intros Hstep. induction l as [|b l IH]; intros v; simpl.
  - apply extends_refl.
  - eapply extends_trans; [apply Hstep | apply IH].
Qed.

Lemma extends_In Q v v' f :
  extends Q v v' -> In f (trace v') -> In f (trace v) \/ Q f = true.
Proof.
  intros [[ext [Ht HQ]] _] Hin. rewrite Ht in Hin.
  apply in_app_or in Hin. destruct Hin as [H|H]; [now left | right].
  rewrite forallb_forall in HQ. now apply HQ.
Qed.

Lemma fold_left_concat {A B : Type} (f : A -> B -> A) (ls : list (list B)) (a : A) :
  fold_left (fun a l => fold_left f l a) ls a = fold_left f (concat ls) a.
Proof.
  revert a. induction ls as [|l ls IH]; intros a; simpl; [reflexivity|].
  now rewrite fold_left_app, IH.
Qed.

Lemma In_fold_add (xs acc : list string) (y : string) :
  In y (fold_left JS.add xs acc) <-> In y acc \/ In y xs.
Proof.
  revert acc. induction xs as [|x xs IH]; intros acc; simpl; [tauto|].
  rewrite IH, In_add. intuition.
Qed.

Lemma NoDup_fold_add (xs acc : list string) :
  NoDup acc -> NoDup (fold_left JS.add xs acc).
Proof.
  revert acc. induction xs as [|x xs IH]; intros acc H; simpl; [assumption|].
  now apply IH, NoDup_add.
Qed.

(* ================================================================= *)
(** ** Sitemap mode *)

Section SitemapFacts.

Variable parseURL : URL.Parser.
Variable localeCompare : string -> string -> Z.
Variable env : Env.

Local Abbreviation clean := (cleanUrl parseURL).

Lemma absorbed_trans origin xs ys v1 v2 v3 :
  absorbed parseURL origin xs v1 v2 -> absorbed parseURL origin ys v2 v3 ->
  absorbed parseURL origin (xs ++ ys) v1 v3.
Proof.
  intros (D1 & C1 & e1 & T1 & Q1) (D2 & C2 & e2 & T2 & Q2).
  unfold absorbed, accepted in *. rewrite filter_app, map_app, fold_left_app.
  repeat split.
  - now rewrite D2, D1.
  - rewrite C2, C1, length_app. lia.
  - exists (e1 ++ e2). rewrite T2, T1, <- app_assoc, forallb_app, Q1, Q2.
    now split.
Qed.

Lemma absorbed_emit origin f v :
  sitemapEffect f = true -> absorbed parseURL origin [] v (emit f v).
Proof.
  intros H. unfold absorbed. simpl. repeat split; [lia|].
  exists [f]. simpl. now rewrite H.
Qed.

Lemma absorbed_addSitemapUrl origin url v :
  absorbed parseURL origin [url] v (addSitemapUrl parseURL origin v url).
Proof.
  unfold absorbed, accepted, addSitemapUrl, sameOrigin. simpl.
  destruct (JS.startsWith url origin && negb (isNonHtmlResource parseURL url));
    simpl; repeat split; try lia; exists []; now rewrite app_nil_r.
Qed.

Lemma absorbed_fold origin urls v :
  absorbed parseURL origin urls v (fold_left (addSitemapUrl parseURL origin) urls v).
Proof.
  revert v. induction urls as [|url urls IH]; intros v; simpl.
  - unfold absorbed. simpl. repeat split; [lia|]. exists []. now rewrite app_nil_r.
  - change (url :: urls) with ([url] ++ urls).
    eapply absorbed_trans; [apply absorbed_addSitemapUrl | apply IH].
Qed.

Lemma absorbed_fetches origin batch v :
  absorbed parseURL origin [] v (fold_left (fun v url => emit (FetchXml url) v) batch v).
Proof.
  revert v. induction batch as [|url batch IH]; intros v; simpl.
  - unfold absorbed. simpl. repeat split; [lia|]. exists []. now rewrite app_nil_r.
  - change (@nil string) with (@nil string ++ @nil string).
    eapply absorbed_trans;
      [apply (absorbed_emit origin (FetchXml url)); reflexivity | apply IH].
Qed.

Lemma absorbed_processBatch origin cs i v :
  absorbed parseURL origin
    (concat (map (fetchChild env) (firstn PARALLEL_LIMIT (skipn i cs))))
    v (processBatch parseURL env origin cs i v).
Proof.
  unfold processBatch. rewrite fold_left_concat.
  set (batch := firstn PARALLEL_LIMIT (skipn i cs)).
  set (urls := concat (map (fetchChild env) batch)).
  pose proof (absorbed_fetches origin batch v) as H1.
  pose proof (absorbed_fold origin urls
                (fold_left (fun v url => emit (FetchXml url) v) batch v)) as H2.
  pose proof (absorbed_trans _ _ _ _ _ _ H1 H2) as H12. simpl in H12.
  match goal with |- absorbed _ _ _ _ (sendEvent ?e ?w) =>
    pose proof (absorbed_emit origin (Send e) w eq_refl) as H3 end.
  pose proof (absorbed_trans _ _ _ _ _ _ H12 H3) as H. 
  now rewrite app_nil_r in H.
Qed.

Lemma absorbed_batchLoop origin cs :
  forall fuel i v,
    length cs <= fuel + i ->
    absorbed parseURL origin (concat (map (fetchChild env) (skipn i cs)))
             v (batchLoop parseURL env fuel origin cs i v).
Proof.
  assert (Hnil : forall v, absorbed parseURL origin [] v v).
  { intros v. unfold absorbed. simpl. repeat split; [lia|].
    exists []. now rewrite app_nil_r. }
  induction fuel as [|fuel IH]; intros i v Hlen; simpl.
  - rewrite skipn_all2 by lia. apply Hnil.
  - destruct (i <? length cs) eqn:E.
    + rewrite <- (firstn_skipn PARALLEL_LIMIT (skipn i cs)) at 1.
      rewrite map_app, concat_app, skipn_skipn.
      eapply absorbed_trans; [apply absorbed_processBatch|].
      rewrite Nat.add_comm. apply IH. unfold PARALLEL_LIMIT. lia.
    + apply Nat.ltb_ge in E. rewrite skipn_all2 by lia. apply Hnil.
Qed.

Lemma sitemapParsed_trace origin xml v :
  sitemapLinksCount v = 0 ->
  let pages := sitemapPages parseURL env origin xml in
  let links :=
    sortLinks parseURL localeCompare
      (fold_left JS.add (map clean pages) (discoveredLinks v)) in
  exists ext,
    forallb sitemapEffect ext = true
    /\ trace (sitemapParsed parseURL localeCompare env origin xml v)
       = trace v ++ ext
         ++ [Send (Done (MsgSitemapComplete (length pages)) links
                        (length links) (length pages) 0 0)].
Proof.
  intros Hcount pages links.
  assert (Habs : exists v1,
             absorbed parseURL origin (flatten env xml) v v1
             /\ sitemapParsed parseURL localeCompare env origin xml v
                = let v2 := sendEvent
                     (Status sitemap_done (MsgSitemapParsed (sitemapLinksCount v1))
                        (length (discoveredLinks v1)) (sitemapLinksCount v1) 0 None)
                     v1 in
                  let sorted := sortLinks parseURL localeCompare (discoveredLinks v2) in
                  sendEvent (Done (MsgSitemapComplete (sitemapLinksCount v2)) sorted
                                  (length sorted) (sitemapLinksCount v2) 0 0) v2).
  { unfold sitemapParsed, flatten. destruct (isSitemapIndex xml).
    - eexists. split; [|reflexivity].
      change (concat (map (fetchChild env) (extractSitemapUrls xml)))
        with ([] ++ concat (map (fetchChild env) (skipn 0 (extractSitemapUrls xml)))).
      eapply absorbed_trans; cycle 1;
        [apply absorbed_batchLoop; lia | apply absorbed_emit; reflexivity].
    - eexists. split; [|reflexivity].
      change (parseSitemapUrls xml) with ([] ++ parseSitemapUrls xml).
      eapply absorbed_trans; cycle 1;
        [apply absorbed_fold | apply absorbed_emit; reflexivity]. }
  destruct Habs as (v1 & (HD & HC & ext & HT & HQ) & ->).
  exists (ext ++ [Send (Status sitemap_done (MsgSitemapParsed (sitemapLinksCount v1))
                              (length (discoveredLinks v1)) (sitemapLinksCount v1)
                              0 None)]).
  split.
  - now rewrite forallb_app, HQ.
  - cbn -[sortLinks]. rewrite HT, HD, HC, Hcount. cbn -[sortLinks].
    now rewrite <- !app_assoc.
Qed.

(** The trace of the background task in sitemap mode, in its three cases. *)
Lemma discover_sitemap fuel startUrl sitemapUrl cssSelector :
  JS.truthy sitemapUrl = true ->
  exists tr,
    discover parseURL localeCompare env fuel startUrl (Some sitemapUrl) cssSelector
    = Some tr
    /\ ((parseURL startUrl = None
         /\ tr = [Send (Error (MsgFailure "Invalid URL")); CloseStream])
        \/ (exists u e,
               parseURL startUrl = Some u
               /\ fetchXml env sitemapUrl = Throws e
               /\ tr = [Send (Status starting MsgStartingSitemap 0 0 0 None);
                        Send (Status sitemap (MsgFetchingSitemap sitemapUrl) 1 0 0 None);
                        FetchXml sitemapUrl;
                        Send (Error (MsgSitemapFailed (messageOr e "Unknown error")));
                        CloseStream])
        \/ (exists u xml ext,
               parseURL startUrl = Some u
               /\ fetchXml env sitemapUrl = Ok xml
               /\ forallb sitemapEffect ext = true
               /\ let pages :=
                    sitemapPages parseURL env (URL.origin parseURL u) xml in
                  let links :=
                    sortLinks parseURL localeCompare
                      (sitemapResult parseURL env startUrl (URL.origin parseURL u) xml) in
                  tr = ext
                       ++ [Send (Done (MsgSitemapComplete (length pages)) links
                                      (length links) (length pages) 0 0);
                           CloseStream])).
Proof.
  intros Hsm. unfold discover. rewrite Hsm.
  destruct (parseURL startUrl) as [u|] eqn:Hu.
  - eexists. split; [reflexivity|]. right.
    unfold sitemapMode.
    destruct (fetchXml env sitemapUrl) as [xml|e] eqn:Hf.
    + right. exists u, xml.
      match goal with |- context [sitemapParsed _ _ _ ?o _ ?w] =>
        destruct (sitemapParsed_trace o xml w eq_refl) as (ext & HQ & HT);
        set (v2 := w) in * end.
      exists (trace v2 ++ ext). repeat split.
      * rewrite forallb_app, HQ. reflexivity.
      * cbn -[sortLinks sitemapParsed]. rewrite HT.
        rewrite <- !app_assoc. reflexivity.
    + left. exists u, e. repeat split.
  - eexists. split; [reflexivity|]. left. split; reflexivity.
Qed.

End SitemapFacts.

Lemma length_fold_add (xs : list string) :
  NoDup xs ->
  forall acc,
    length (fold_left JS.add xs acc)
    = length acc + length (filter (fun x => negb (JS.has acc x)) xs).
Proof.
  induction 1 as [|x xs Hx Hnd IH]; intros acc; simpl; [lia|].
  rewrite IH. unfold JS.add. destruct (JS.has acc x) eqn:E; simpl; [reflexivity|].
  rewrite length_app. simpl.
  rewrite (filter_ext_in (fun y => negb (JS.has (acc ++ [x]) y))
                         (fun y => negb (JS.has acc y))); [lia|].
  intros y Hy. f_equal. unfold JS.has. rewrite existsb_app. simpl.
  destruct (String.eqb_spec y x) as [->|]; [contradiction|].
  now rewrite !orb_false_r.
Qed.

Lemma length_dedup_cons (s : string) (xs : list string) :
  NoDup xs ->
  length (dedup (s :: xs)) = length xs + (if JS.has xs s then 0 else 1).
Proof.
  intros Hnd. unfold dedup. simpl. rewrite length_fold_add by assumption.
  change (JS.add [] s) with [s]. simpl.
  induction Hnd as [|x xs Hx Hnd IH]; simpl; [reflexivity|].
  unfold JS.has in *. simpl.
  rewrite (String.eqb_sym s x).
  destruct (String.eqb_spec x s) as [->|Hne]; simpl.
  - assert (E : existsb (String.eqb s) xs = false).
    { apply not_true_is_false. intros H. apply Hx.
      apply existsb_exists in H. destruct H as [y [Hy Hys]].
      apply String.eqb_eq in Hys. now subst. }
    rewrite E in IH. lia.
  - lia.
Qed.

Lemma sitemapEffect_no_browser (f : Effect) :
  sitemapEffect f = true -> isBrowserEffect f = false.
Proof. destruct f as [[]| | | | | | |]; simpl; intros H; reflexivity || discriminate. Qed.

Lemma sitemapEffect_not_done (f : Effect) m links t fs fp ps :
  sitemapEffect f = true -> f <> Send (Done m links t fs fp ps).
Proof. intros H ->. discriminate. Qed.

Lemma crawlEffect_not_done (f : Effect) m links t fs fp ps :
  crawlEffect f = true -> f <> Send (Done m links t fs fp ps).
Proof. intros H ->. discriminate. Qed.

Lemma sent_app (tr1 tr2 : list Effect) : sent (tr1 ++ tr2) = sent tr1 ++ sent tr2.
Proof.
  induction tr1 as [|f tr1 IH]; simpl; [reflexivity|].
  destruct f; simpl; now rewrite ?IH.
Qed.

Lemma navigations_app (tr1 tr2 : list Effect) :
  navigations (tr1 ++ tr2) = navigations tr1 ++ navigations tr2.
Proof.
  induction tr1 as [|f tr1 IH]; simpl; [reflexivity|].
  destruct f; simpl; now rewrite ?IH.
Qed.

Lemma sitemapEffect_no_dones (ext : list Effect) :
  forallb sitemapEffect ext = true -> filter isDone (sent ext) = [].
Proof.
  induction ext as [|f ext IH]; simpl; [reflexivity|].
  rewrite andb_true_iff. intros [Hf Hext].
  destruct f as [[]| | | | | | |]; simpl in *; try discriminate; auto.
Qed.

(* ================================================================= *)
(** ** Sitemap mode: what a run guarantees *)

Section SitemapRun.

Variable parseURL : URL.Parser.
Variable localeCompare : string -> string -> Z.
Variable env : Env.


(** C4. A sitemap index with two child sitemaps of three page URLs each,
    all six of the start URL's origin, none a resource file, and all
    distinct as canonical URLs: exactly one [done] event is sent, with
    [fromSitemap] 6 and a [total] that counts the six links together with
    the canonical start URL, 7 unless the sitemap lists the start URL
    itself, and then 6. *)
Theorem sitemap_index_of_two_children_counts
    (startUrl sitemapUrl : string) (cssSelector : option string)
    (u : URL.t) (xml c1 c2 x1 x2 a1 a2 a3 b1 b2 b3 : string) :
  JS.truthy startUrl = true ->
  JS.truthy sitemapUrl = true ->
  parseURL startUrl = Some u ->
  fetchXml env sitemapUrl = Ok xml ->
  isSitemapIndex xml = true ->
  extractSitemapUrls xml = [c1; c2] ->
  fetchXml env c1 = Ok x1 -> parseSitemapUrls x1 = [a1; a2; a3] ->
  fetchXml env c2 = Ok x2 -> parseSitemapUrls x2 = [b1; b2; b3] ->
  let pages := [a1; a2; a3; b1; b2; b3] in
  Forall (fun p => sameOrigin (URL.origin parseURL u) p = true
                   /\ isNonHtmlResource parseURL p = false) pages ->
  NoDup (map (cleanUrl parseURL) pages) ->
  exists tr m links,
    GET parseURL localeCompare env (Some startUrl) (Some sitemapUrl) cssSelector
    = Some (ResponseStream tr)
    /\ filter isDone (sent tr)
       = [Done m links
               (6 + (if JS.has (map (cleanUrl parseURL) pages)
                               (cleanUrl parseURL startUrl)
                     then 0 else 1))
               6 0 0].
Proof.
  intros Hstart Hsm Hu Hf Hidx Hchildren Hf1 Hp1 Hf2 Hp2 pages Hok Hnd.
  unfold GET. rewrite Hstart.
  destruct (discover_sitemap parseURL localeCompare env (S MAX_PAGES_SAFETY)
              startUrl sitemapUrl cssSelector Hsm) as (tr & -> & Hcases).
  destruct Hcases as [(Hu' & _) | [(u' & e & _ & Hf' & _) | (u' & xml' & ext & Hu' & Hf' & HQ & Htr)]];
    try congruence.
  assert (u' = u) by congruence. assert (xml' = xml) by congruence. subst u' xml'.
  assert (Hflat : flatten env xml = pages).
  { unfold flatten, fetchChild. rewrite Hidx, Hchildren. simpl.
    now rewrite Hf1, Hf2, Hp1, Hp2. }
  assert (Hpages : sitemapPages parseURL env (URL.origin parseURL u) xml = pages).
  { unfold sitemapPages. rewrite Hflat. apply forallb_filter_id.
    rewrite forallb_forall. rewrite Forall_forall in Hok.
    intros p Hp. destruct (Hok p Hp) as [-> ->]. reflexivity. }
  cbv zeta in Htr. rewrite Hpages in Htr.
  unfold sitemapResult in Htr. rewrite Hpages in Htr.
  unfold sortLinks in Htr at 2. rewrite length_sort in Htr.
  rewrite length_dedup_cons in Htr by assumption.
  exists tr. do 2 eexists. split; [reflexivity|].
  rewrite Htr, sent_app, filter_app, sitemapEffect_no_dones by assumption.
  reflexivity.
Qed.

End SitemapRun.

(* ================================================================= *)
(** ** Crawl mode: how one round changes the variables *)

Section CrawlFacts.

Variable parseURL : URL.Parser.
Variable env : Env.

Local Abbreviation addLink := (addLink parseURL).
Local Abbreviation visitPage := (visitPage parseURL env).
Local Abbreviation loopBody := (loopBody parseURL env).
Local Abbreviation runLoop := (runLoop parseURL env).

Lemma incl_add (s : list string) (x : string) : incl s (JS.add s x).
Proof. intros y Hy. apply In_add. now left. Qed.

Lemma extends_addLink origin v link : extends crawlEffect v (addLink origin v link).
Proof.
  unfold addLink.
  destruct (_ && _ && _); [|apply extends_refl].
  destruct (negb _); (split; [exists []; simpl; now rewrite app_nil_r | apply incl_add]).
Qed.

Lemma extends_visitPage origin sel url size v :
  extends crawlEffect v (visitPage origin sel url size v).
Proof.
  unfold visitPage.
  eapply extends_trans; [apply (extends_emit crawlEffect (Goto url)); reflexivity|].
  destruct (pageGoto _ _ _); [|apply extends_refl].
  eapply extends_trans;
    [apply (extends_emit crawlEffect (EvalLinks (linkSelector sel))); reflexivity|].
  destruct (pageEval _ _ _ _) as [links|]; [|apply extends_refl].
  eapply extends_trans;
    [apply (extends_fold crawlEffect (addLink origin) links);
     intros; apply extends_addLink|].
  destruct (0 <? _); [|apply extends_refl].
  destruct (parseURL url); [|apply extends_refl].
  apply extends_emit. reflexivity.
Qed.

Lemma extends_loopBody origin sel v :
  extends crawlEffect v (varsOf (loopBody origin sel v)).
Proof.
  unfold loopBody, markVisited, shiftFrontier.
  destruct (pagesToVisit v) as [|url rest]; [apply extends_refl|].
  cbn [visited discoveredLinks pagesVisited trace].
  destruct (JS.has (visited v) url).
  { split; [exists []; simpl; now rewrite app_nil_r | apply incl_refl]. }
  set (v1 := mkVars _ (JS.add _ _) _ _ _ _ _ _).
  assert (H1 : extends crawlEffect v v1).
  { split; [exists []; simpl; now rewrite app_nil_r | apply incl_refl]. }
  destruct ((_ =? 1) || _).
  - destruct (parseURL url) as [u|]; [|exact H1].
    match goal with |- context [visitPage _ _ _ _ ?w] => set (v2 := w) end.
    assert (H2 : extends crawlEffect v v2).
    { eapply extends_trans; [exact H1 | apply extends_emit; reflexivity]. }
    assert (H3 := extends_visitPage origin sel url (length (discoveredLinks v1)) v2).
    destruct (_ =? 0); simpl.
    + eapply extends_trans; [exact H2|]. eapply extends_trans; [exact H3|].
      apply extends_emit. reflexivity.
    + exact (extends_trans _ _ _ _ H2 H3).
  - assert (H3 := extends_visitPage origin sel url (length (discoveredLinks v1)) v1).
    destruct (_ =? 0); simpl.
    + eapply extends_trans; [exact H1|]. eapply extends_trans; [exact H3|].
      apply extends_emit. reflexivity.
    + exact (extends_trans _ _ _ _ H1 H3).
Qed.

Lemma extends_runLoop origin sel fuel :
  forall v o, runLoop fuel origin sel v = Some o ->
              extends crawlEffect v (varsOf o).
Proof.
  induction fuel as [|fuel IH]; intros v o; simpl; [discriminate|].
  destruct (loopCond v).
  - pose proof (extends_loopBody origin sel v) as Hb.
    destruct (loopBody origin sel v) as [v'|e v'].
    + intros H. eapply extends_trans; [exact Hb | now apply IH].
    + intros [= <-]. exact Hb.
  - intros [= <-]. apply extends_refl.
Qed.

(** The loop stops, when it stops by itself, on an empty frontier or at
    the cap. *)
Lemma runLoop_exit origin sel fuel :
  forall v v', runLoop fuel origin sel v = Some (Normal v') ->
               pagesToVisit v' = [] \/ MAX_PAGES_SAFETY <= pagesVisited v'.
Proof.
  induction fuel as [|fuel IH]; intros v v'; simpl; [discriminate|].
  destruct (loopCond v) eqn:Hc.
  - destruct (loopBody origin sel v) as [v1|e v1]; [apply IH | discriminate].
  - intros [= <-]. unfold loopCond in Hc. apply andb_false_iff in Hc.
    destruct Hc as [Hc | Hc].
    + left. apply Nat.ltb_ge in Hc. destruct (pagesToVisit v); [reflexivity|].
      simpl in Hc. lia.
    + right. now apply Nat.ltb_ge in Hc.
Qed.

(** *** The frontier invariant *)

Lemma duringVisit_emit f v :
  navigations [f] = [] -> duringVisit v -> duringVisit (emit f v).
Proof.
  intros Hf (H1 & H2 & H3 & H4 & H5 & H6 & H7 & H8 & H9).
  unfold duringVisit. simpl. rewrite navigations_app, Hf, app_nil_r.
  repeat split; assumption.
Qed.

(** A link is pushed onto the frontier only when it is new to the
    discovered set, to the frontier and to the visited set. *)
Lemma addLink_guard origin v link :
  duringVisit v ->
  let c := cleanUrl parseURL link in
  let v' := addLink origin v link in
  (pagesToVisit v' = pagesToVisit v /\ enqueued v' = enqueued v)
  \/ (pagesToVisit v' = pagesToVisit v ++ [c]
      /\ enqueued v' = enqueued v ++ [c]
      /\ ~ In c (discoveredLinks v)
      /\ ~ In c (pagesToVisit v)
      /\ ~ In c (visited v)
      /\ ~ In c (enqueued v)).
Proof.
  intros (H1 & H2 & H3 & H4 & H5 & H6 & H7 & H8 & H9) c v'. subst v'.
  unfold addLink. fold c.
  destruct (JS.startsWith c origin && negb (isNonHtmlResource parseURL c)); simpl;
    [|now left].
  destruct (JS.has (discoveredLinks v) c) eqn:Ed; simpl; [now left|].
  destruct (JS.has (visited v) c) eqn:Ev; simpl; [now left|].
  apply has_notIn in Ed, Ev. right.
  assert (Hq : ~ In c (enqueued v)).
  { intros Hin. destruct (H4 c Hin); contradiction. }
  repeat split; auto.
Qed.

Lemma duringVisit_addLink origin v link :
  duringVisit v -> duringVisit (addLink origin v link).
Proof.
  intros Hv. pose proof (addLink_guard origin v link Hv) as Hg.
  destruct Hv as (H1 & H2 & H3 & H4 & H5 & H6 & H7 & H8 & H9).
  assert (Hsame : trace (addLink origin v link) = trace v
                  /\ visited (addLink origin v link) = visited v
                  /\ pagesVisited (addLink origin v link) = pagesVisited v
                  /\ incl (discoveredLinks v) (discoveredLinks (addLink origin v link))
                  /\ (pagesToVisit (addLink origin v link) <> pagesToVisit v ->
                      In (cleanUrl parseURL link)
                         (discoveredLinks (addLink origin v link)))).
  { unfold addLink. destruct (_ && _ && _); [|repeat split; try apply incl_refl; congruence].
    destruct (negb _); simpl; repeat split; try apply incl_add;
      try congruence; intros _; apply In_add; now right. }
  destruct Hsame as (Ht & Hvis & Hpv & Hd & Hnew).
  unfold duringVisit. rewrite Ht, Hvis, Hpv.
  destruct Hg as [(Hq & He) | (Hq & He & Hc1 & Hc2 & Hc3 & Hc4)]; cbv zeta in *.
  - rewrite Hq, He. repeat split; auto.
    intros x Hx. destruct (H4 x Hx); auto.
  - assert (Hin : In (cleanUrl parseURL link) (discoveredLinks (addLink origin v link))).
    { apply Hnew. rewrite Hq. intros Heq.
      apply (f_equal (@length string)) in Heq. rewrite length_app in Heq.
      simpl in Heq. lia. }
    rewrite Hq, He. repeat split; auto.
    + apply NoDup_app; [assumption | repeat constructor; auto|].
      intros x Hx [<- | []]. contradiction.
    + apply NoDup_app; [assumption | repeat constructor; auto|].
      intros x Hx [<- | []]. contradiction.
    + intros x Hx. apply in_app_iff in Hx. apply in_app_iff.
      destruct Hx as [Hx | Hx]; [left; now apply H3 | now right].
    + intros x Hx. apply in_app_iff in Hx. destruct Hx as [Hx | [<- | []]].
      * destruct (H4 x Hx); auto.
      * now left.
    + intros x Hx. apply in_app_iff in Hx. destruct Hx as [Hx | [<- | []]]; auto.
    + intros x Hx. apply in_app_iff. left. now apply H9.
Qed.

Lemma duringVisit_fold origin links :
  forall v, duringVisit v -> duringVisit (fold_left (addLink origin) links v).
Proof.
  induction links as [|link links IH]; intros v Hv; simpl; [assumption|].
  now apply IH, duringVisit_addLink.
Qed.

Lemma duringVisit_visitPage origin sel url size v :
  duringVisit v -> In url (visited v) -> ~ In url (navigations (trace v)) ->
  duringVisit (visitPage origin sel url size v).
Proof.
  intros Hv Hvis Hnav. unfold visitPage.
  assert (Hg : duringVisit (emit (Goto url) v)).
  { destruct Hv as (H1 & H2 & H3 & H4 & H5 & H6 & H7 & H8 & H9).
    unfold duringVisit. simpl. rewrite navigations_app. simpl.
    repeat split; auto.
    - apply NoDup_app; [assumption | repeat constructor; auto|].
      intros x Hx [<- | []]. contradiction.
    - intros x Hx. apply in_app_iff in Hx. destruct Hx as [Hx | [<- | []]]; auto. }
  destruct (pageGoto _ _ _); [|assumption].
  assert (He : duringVisit (emit (EvalLinks (linkSelector sel)) (emit (Goto url) v)))
    by now apply duringVisit_emit.
  destruct (pageEval _ _ _ _) as [links|]; [|assumption].
  pose proof (duringVisit_fold origin links _ He) as Hf.
  destruct (0 <? _); [|assumption].
  destruct (parseURL url); [|assumption].
  now apply duringVisit_emit.
Qed.

Lemma pagesVisited_fold origin links :
  forall v, pagesVisited (fold_left (addLink origin) links v) = pagesVisited v.
Proof.
  induction links as [|link links IH]; intros v; simpl; [reflexivity|].
  rewrite IH. unfold addLink.
  destruct (_ && _ && _); [|reflexivity]. now destruct (negb _).
Qed.

Lemma pagesVisited_visitPage origin sel url size v :
  pagesVisited (visitPage origin sel url size v) = pagesVisited v.
Proof.
  unfold visitPage. destruct (pageGoto _ _ _); [|reflexivity].
  destruct (pageEval _ _ _ _); [|reflexivity].
  destruct (0 <? _); [|now rewrite pagesVisited_fold].
  destruct (parseURL url); simpl; now rewrite pagesVisited_fold.
Qed.

(** Taking the next URL off the frontier and marking it visited. *)
Lemma marked_duringVisit startUrl v url rest :
  atHead startUrl v -> pagesToVisit v = url :: rest ->
  JS.has (visited v) url = false
  /\ let v1 := markVisited url (shiftFrontier rest v) in
     duringVisit v1 /\ In url (visited v1) /\ ~ In url (navigations (trace v1)).
Proof.
  intros [(H1 & H2 & H3 & H4 & H5 & H6 & H7 & H8 & H9) | (Hv & Hq & He & Hn & Hp)] Hqueue.
  - rewrite Hqueue in *.
    assert (Hnot : ~ In url (visited v)) by (apply H5; now left).
    assert (Hhas : JS.has (visited v) url = false) by now apply has_notIn.
    split; [assumption|]. cbv zeta.
    unfold duringVisit, markVisited, shiftFrontier. simpl.
    unfold JS.add. rewrite Hhas. inversion H2; subst.
    repeat split; auto.
    + intros x Hx. apply H3. now right.
    + intros x Hx. rewrite in_app_iff. destruct (H4 x Hx); auto.
    + intros x Hx Hin. apply in_app_iff in Hin. destruct Hin as [Hin | [<- | []]].
      * apply (H5 x); [now right | assumption].
      * contradiction.
    + intros x Hx. apply in_app_iff. left. now apply H7.
    + rewrite length_app. simpl. lia.
    + intros x Hx. apply in_app_iff in Hx. destruct Hx as [Hx | [<- | []]].
      * now apply H9.
      * apply H3. now left.
    + apply in_app_iff. right. now left.
  - rewrite Hq in Hqueue. injection Hqueue as <- <-.
    unfold markVisited, shiftFrontier. simpl. rewrite Hv.
    split; [reflexivity|]. unfold duringVisit. simpl.
    rewrite He, Hn, Hp. simpl.
    repeat split; auto;
      try (now repeat constructor; simpl; tauto);
      try (now intros x []);
      try (now intros x [<- | []]; right; left);
      try (now intros x [<- | []]; left);
      tauto.
Qed.

(** One round of the loop, begun at the head, ends in a state that
    satisfies the invariant again and has counted one page more. *)
Lemma loopBody_atHead startUrl origin sel v :
  atHead startUrl v -> loopCond v = true ->
  duringVisit (varsOf (loopBody origin sel v))
  /\ pagesVisited (varsOf (loopBody origin sel v)) = S (pagesVisited v).
Proof.
  intros Hhead Hcond. unfold loopBody.
  destruct (pagesToVisit v) as [|url rest] eqn:Hqueue.
  { unfold loopCond in Hcond. rewrite Hqueue in Hcond. discriminate. }
  destruct (marked_duringVisit startUrl v url rest Hhead Hqueue) as (Hhas & Hv1 & Hin & Hnav).
  unfold markVisited, shiftFrontier in *.
  cbn [visited discoveredLinks pagesVisited trace]. rewrite Hhas.
  set (v1 := mkVars _ (JS.add _ _) _ _ _ _ _ _) in *.
  destruct ((_ =? 1) || _).
  - destruct (parseURL url) as [u|]; [|split; [assumption | reflexivity]].
    match goal with |- context [visitPage _ _ _ _ ?w] => set (v2 := w) end.
    assert (Hv2 : duringVisit v2) by now apply duringVisit_emit.
    assert (Hv3 : duringVisit (visitPage origin sel url (length (discoveredLinks v1)) v2)).
    { apply duringVisit_visitPage; [assumption | assumption |].
      subst v2. simpl. rewrite navigations_app. simpl. now rewrite app_nil_r. }
    destruct (_ =? 0); simpl.
    + split; [now apply duringVisit_emit | apply pagesVisited_visitPage].
    + split; [assumption | apply pagesVisited_visitPage].
  - assert (Hv3 : duringVisit (visitPage origin sel url (length (discoveredLinks v1)) v1))
      by now apply duringVisit_visitPage.
    destruct (_ =? 0); simpl.
    + split; [now apply duringVisit_emit | apply pagesVisited_visitPage].
    + split; [assumption | apply pagesVisited_visitPage].
Qed.

Lemma runLoop_atHead startUrl origin sel fuel :
  forall v o, atHead startUrl v -> runLoop fuel origin sel v = Some o ->
              atHead startUrl (varsOf o).
Proof.
  induction fuel as [|fuel IH]; intros v o Hhead; simpl; [discriminate|].
  destruct (loopCond v) eqn:Hc.
  - destruct (loopBody_atHead startUrl origin sel v Hhead Hc) as [Hd _].
    destruct (loopBody origin sel v) as [v'|e v'].
    + apply IH. now left.
    + intros [= <-]. now left.
  - intros [= <-]. assumption.
Qed.

(** The loop ends: one round per page up to the cap, and the test that
    ends it. *)
Lemma runLoop_total startUrl origin sel fuel :
  forall v, atHead startUrl v ->
            MAX_PAGES_SAFETY - pagesVisited v < fuel ->
            exists o, runLoop fuel origin sel v = Some o.
Proof.
  induction fuel as [|fuel IH]; intros v Hhead Hfuel; [lia|]. simpl.
  destruct (loopCond v) eqn:Hc; [|eexists; reflexivity].
  destruct (loopBody_atHead startUrl origin sel v Hhead Hc) as [Hd Hp].
  destruct (loopBody origin sel v) as [v'|e v']; [|eexists; reflexivity].
  simpl in Hd, Hp. apply IH; [now left|].
  unfold loopCond in Hc. apply andb_true_iff in Hc. destruct Hc as [_ Hc].
  apply Nat.ltb_lt in Hc. lia.
Qed.

End CrawlFacts.

(* ================================================================= *)
(** ** Crawl mode: how it ends *)

Section CrawlModeFacts.

Variable parseURL : URL.Parser.
Variable localeCompare : string -> string -> Z.
Variable env : Env.

Local Abbreviation runLoop := (runLoop parseURL env).

Lemma crawlEffect_browsing (ext : list Effect) :
  forallb crawlEffect ext = true -> forallb browsingEffect ext = true.
Proof.
  rewrite !forallb_forall. intros H f Hf. unfold browsingEffect.
  now rewrite (H f Hf).
Qed.

Lemma browsingEffect_no_dones (ext : list Effect) :
  forallb browsingEffect ext = true -> filter isDone (sent ext) = [].
Proof.
  induction ext as [|f ext IH]; simpl; [reflexivity|].
  rewrite andb_true_iff. intros [Hf Hext].
  destruct f as [[]| | | | | | |]; simpl in *; try discriminate; auto.
Qed.

(** How crawl mode ends: the browser or its page failed to start, the loop
    was left by an exception, or the loop ended and the [done] event was
    sent. *)
Lemma crawlMode_trace fuel origin startUrl sel v v' :
  crawlMode parseURL localeCompare env fuel origin startUrl sel v = Some v' ->
  exists ext,
    forallb browsingEffect ext = true
    /\ ((exists e closing,
            trace v' = trace v ++ ext
                       ++ Send (Error (MsgFailure (messageOr e "Discovery failed")))
                       :: closing
            /\ ((closing = [] /\ launch env = Throws e)
                \/ (closing = [CloseBrowser]
                    /\ (newPage env = Throws e
                        \/ exists vend,
                             runLoop fuel origin sel
                               (loopStart startUrl
                                  (emit NewPage (emit Launch
                                     (sendEvent (Status browser MsgLaunching
                                                   (length (discoveredLinks v)) 0 0 None) v))))
                             = Some (Abrupt e vend)))))
        \/ (exists vend,
               runLoop fuel origin sel
                       (loopStart startUrl
                          (emit NewPage (emit Launch
                             (sendEvent (Status browser MsgLaunching
                                           (length (discoveredLinks v)) 0 0 None) v))))
               = Some (Normal vend)
               /\ incl (discoveredLinks v) (discoveredLinks vend)
               /\ let links := sortLinks parseURL localeCompare (discoveredLinks vend) in
                  trace v' = trace v ++ ext
                             ++ [CloseBrowser;
                                 Send (Done (MsgCrawlComplete (pagesVisited vend)
                                                              (length links))
                                            links (length links) 0
                                            (newLinksFromPages vend)
                                            (pagesVisited vend))])).
Proof.
  unfold crawlMode.
  set (st := Send (Status browser MsgLaunching (length (discoveredLinks v)) 0 0 None)).
  destruct (launch env) as [ok|e] eqn:Hlaunch.
  2:{ intros [= <-]. exists [st; Launch]. split; [reflexivity|]. left.
      exists e, []. split; [|now left]. simpl. now rewrite <- !app_assoc. }
  destruct (newPage env) as [ok'|e] eqn:Hpage.
  2:{ intros [= <-]. exists [st; Launch; NewPage]. split; [reflexivity|]. left.
      exists e, [CloseBrowser]. split; [|right; split; [reflexivity | now left]].
      simpl. now rewrite <- !app_assoc. }
  fold (loopStart startUrl (emit NewPage (emit Launch (sendEvent (Status browser MsgLaunching (length (discoveredLinks v)) 0 0 None) v)))).
  set (v0 := loopStart _ _).
  destruct (runLoop fuel origin sel v0) as [[vend|e vend]|] eqn:Hrun; [| |discriminate].
  - intros [= <-].
    destruct (extends_runLoop parseURL env origin sel fuel v0 _ Hrun) as [(ext & Ht & HQ) Hincl].
    simpl in Ht, Hincl.
    exists ([st; Launch; NewPage] ++ ext). split.
    + rewrite forallb_app. simpl. now apply crawlEffect_browsing.
    + right. exists vend. repeat split; [assumption|].
      cbn -[sortLinks]. rewrite Ht. now rewrite <- !app_assoc.
  - intros [= <-].
    destruct (extends_runLoop parseURL env origin sel fuel v0 _ Hrun) as [(ext & Ht & HQ) Hincl].
    simpl in Ht.
    exists ([st; Launch; NewPage] ++ ext). split.
    + rewrite forallb_app. simpl. now apply crawlEffect_browsing.
    + left. exists e, [CloseBrowser].
      split; [|right; split; [reflexivity | right; now exists vend]].
      simpl. rewrite Ht. now rewrite <- !app_assoc.
Qed.

(** Without a sitemap the background task is crawl mode, between the
    seeding of the discovered set and the closing of the stream. *)
Lemma discover_crawl fuel startUrl sitemapUrl sel :
  match sitemapUrl with Some s => JS.truthy s | None => false end = false ->
  discover parseURL localeCompare env fuel startUrl sitemapUrl sel
  = match parseURL startUrl with
    | None => Some [Send (Error (MsgFailure "Invalid URL")); CloseStream]
    | Some u =>
        option_map (fun v => trace v ++ [CloseStream])
          (crawlMode parseURL localeCompare env fuel (URL.origin parseURL u)
                     startUrl sel
                     (seeded (cleanUrl parseURL startUrl) false))
    end.
Proof.
  intros Hsm. unfold discover. rewrite Hsm.
  destruct (parseURL startUrl); [|reflexivity].
  destruct sitemapUrl; reflexivity.
Qed.

End CrawlModeFacts.

(* ================================================================= *)
(** ** The [done] event, in both modes *)

Section DoneFacts.

Variable parseURL : URL.Parser.
Variable localeCompare : string -> string -> Z.
Variable env : Env.

Lemma browsingEffect_not_done ext m links t fs fp ps :
  forallb browsingEffect ext = true -> ~ In (Send (Done m links t fs fp ps)) ext.
Proof.
  rewrite forallb_forall. intros H Hin. apply H in Hin. discriminate.
Qed.

(** Every [done] event carries a sorted copy of a set that holds the
    canonical start URL, and the length of that copy as its total. *)
Lemma GET_done startUrl sitemapUrl sel tr m links t fs fp ps :
  GET parseURL localeCompare env (Some startUrl) sitemapUrl sel
  = Some (ResponseStream tr) ->
  In (Send (Done m links t fs fp ps)) tr ->
  exists d,
    links = sortLinks parseURL localeCompare d
    /\ t = length links
    /\ In (cleanUrl parseURL startUrl) d.
Proof.
  unfold GET. destruct (JS.truthy startUrl); [|discriminate].
  destruct (match sitemapUrl with Some s => JS.truthy s | None => false end) eqn:Hsm.
  - destruct sitemapUrl as [sm|]; [|discriminate].
    destruct (discover_sitemap parseURL localeCompare env (S MAX_PAGES_SAFETY)
                startUrl sm sel Hsm) as (tr' & -> & Hcases).
    intros [= <-] Hin.
    destruct Hcases as [(_ & ->) | [(u & e & _ & _ & ->) | (u & xml & ext & _ & _ & HQ & ->)]].
    + simpl in Hin. repeat (destruct Hin as [H | Hin]; [discriminate|]). contradiction.
    + simpl in Hin. repeat (destruct Hin as [H | Hin]; [discriminate|]). contradiction.
    + apply in_app_or in Hin. destruct Hin as [Hin | Hin].
      * rewrite forallb_forall in HQ. apply HQ in Hin. discriminate.
      * destruct Hin as [H | [H | []]]; [|discriminate].
        injection H as <- <- <- <- <- <-.
        eexists. repeat split. unfold sitemapResult, dedup.
        apply In_fold_add. right. now left.
  - rewrite (discover_crawl parseURL localeCompare env _ _ _ _ Hsm).
    destruct (parseURL startUrl) as [u|].
    + destruct (crawlMode _ _ _ _ _ _ _ _) as [v'|] eqn:Hcrawl; [|discriminate].
      intros [= <-] Hin.
      destruct (crawlMode_trace parseURL localeCompare env _ _ _ _ _ _ Hcrawl)
        as (ext & HQ & Hcases).
      pose proof (browsingEffect_not_done ext m links t fs fp ps HQ) as Hext.
      apply in_app_or in Hin. destruct Hin as [Hin | [H | []]]; [|discriminate].
      destruct Hcases as [(e & closing & Ht & Hclosing) | (vend & _ & Hincl & Ht)].
      * rewrite Ht in Hin. simpl in Hin.
        destruct Hin as [H | Hin]; [discriminate|].
        apply in_app_or in Hin. destruct Hin as [Hin | [H | Hin]];
          [contradiction | discriminate |].
        destruct Hclosing as [[-> _] | [-> _]]; [contradiction|].
        destruct Hin as [H | []]. discriminate.
      * cbv zeta in Ht. rewrite Ht in Hin. simpl in Hin.
        destruct Hin as [H | Hin]; [discriminate|].
        apply in_app_or in Hin. destruct Hin as [Hin | [H | [H | []]]];
          [contradiction | discriminate |].
        injection H as <- <- <- <- <- <-.
        eexists. repeat split. apply Hincl. simpl. now left.
    + intros [= <-] Hin. simpl in Hin.
      repeat (destruct Hin as [H | Hin]; [discriminate|]). contradiction.
Qed.

(** C9. In every [done] event, of either mode, the total is the number of
    entries of the links array of the same event. *)
Theorem done_total_is_links_length
    (startUrl sitemapUrl sel : option string) (tr : list Effect)
    m links t fs fp ps :
  GET parseURL localeCompare env startUrl sitemapUrl sel
  = Some (ResponseStream tr) ->
  In (Send (Done m links t fs fp ps)) tr ->
  t = length links.
Proof.
  intros Hget Hin. destruct startUrl as [startUrl|].
  - destruct (GET_done _ _ _ _ _ _ _ _ _ _ Hget Hin) as (d & _ & Ht & _).
    exact Ht.
  - discriminate.
Qed.

(** C10. In every [done] event, of either mode, the links hold the
    canonical start URL, whatever the pages and the sitemap answered. *)
Theorem done_links_hold_start
    (startUrl : string) (sitemapUrl sel : option string) (tr : list Effect)
    m links t fs fp ps :
  GET parseURL localeCompare env (Some startUrl) sitemapUrl sel
  = Some (ResponseStream tr) ->
  In (Send (Done m links t fs fp ps)) tr ->
  In (cleanUrl parseURL startUrl) links.
Proof.
  intros Hget Hin.
  destruct (GET_done _ _ _ _ _ _ _ _ _ _ Hget Hin) as (d & -> & _ & Hd).
  now apply In_sort.
Qed.

End DoneFacts.

(* ================================================================= *)
(** ** The order of the links *)

Lemma StronglySorted_weaken {A : Type} (R R' : A -> A -> Prop) (l : list A) :
  (forall a b, In a l -> In b l -> R a b -> R' a b) ->
  StronglySorted R l -> StronglySorted R' l.
Proof.
  intros Himp Hs. induction Hs as [|a l Hs IH Ha]; constructor.
  - apply IH. intros x y Hx Hy. apply Himp; now right.
  - rewrite Forall_forall in *. intros x Hx.
    apply Himp; [now left | now right | now apply Ha].
Qed.

Section OrderFacts.

Variable parseURL : URL.Parser.
Variable localeCompare : string -> string -> Z.
Variable env : Env.

(** [localeCompare] is a consistent comparison of strings, as the language
    requires of it. *)
Hypothesis localeCompare_total :
  forall a b, (0 <= localeCompare a b -> localeCompare b a <= 0)%Z.
Hypothesis localeCompare_trans :
  forall a b c, (localeCompare a b <= 0 -> localeCompare b c <= 0 ->
                 localeCompare a c <= 0)%Z.

Local Abbreviation parses := (parsesWith parseURL).

Lemma compareLinks_total (a b : string) :
  parses a -> parses b ->
  (0 <= compareLinks parseURL localeCompare a b ->
   compareLinks parseURL localeCompare b a <= 0)%Z.
Proof.
  unfold parsesWith, compareLinks. intros Ha Hb.
  destruct (parseURL a) as [ua|]; [|congruence].
  destruct (parseURL b) as [ub|]; [|congruence].
  cbv zeta. rewrite (Nat.eqb_sym (depthOf (URL.pathname ub))).
  destruct (Nat.eqb_spec (depthOf (URL.pathname ua)) (depthOf (URL.pathname ub)));
    simpl; [apply localeCompare_total | lia].
Qed.

Lemma compareLinks_trans (a b c : string) :
  parses a -> parses b -> parses c ->
  (compareLinks parseURL localeCompare a b <= 0 ->
   compareLinks parseURL localeCompare b c <= 0 ->
   compareLinks parseURL localeCompare a c <= 0)%Z.
Proof.
  unfold parsesWith, compareLinks. intros Ha Hb Hc.
  destruct (parseURL a) as [ua|]; [|congruence].
  destruct (parseURL b) as [ub|]; [|congruence].
  destruct (parseURL c) as [uc|]; [|congruence].
  cbv zeta.
  destruct (Nat.eqb_spec (depthOf (URL.pathname ua)) (depthOf (URL.pathname ub)));
    destruct (Nat.eqb_spec (depthOf (URL.pathname ub)) (depthOf (URL.pathname uc)));
    destruct (Nat.eqb_spec (depthOf (URL.pathname ua)) (depthOf (URL.pathname uc)));
    simpl; try lia.
  apply localeCompare_trans.
Qed.

Lemma compareLinks_linkOrder (a b : string) :
  parses a -> parses b ->
  (compareLinks parseURL localeCompare a b <= 0)%Z ->
  linkOrder parseURL localeCompare a b.
Proof.
  unfold parsesWith, compareLinks, linkOrder. intros Ha Hb.
  destruct (parseURL a) as [ua|]; [|congruence].
  destruct (parseURL b) as [ub|]; [|congruence].
  cbv zeta. intros H. exists ua, ub. repeat split.
  destruct (Nat.eqb_spec (depthOf (URL.pathname ua)) (depthOf (URL.pathname ub)));
    simpl in H; [right; now split | left; lia].
Qed.

Lemma sortLinks_sorted (d : list string) :
  Forall parses d ->
  StronglySorted (linkOrder parseURL localeCompare)
                 (sortLinks parseURL localeCompare d).
Proof.
  intros Hd.
  assert (Hs := sort_sorted (compareLinks parseURL localeCompare) parses
                  compareLinks_total compareLinks_trans d Hd).
  eapply StronglySorted_weaken; [|exact Hs].
  rewrite Forall_forall in Hd.
  intros a b Ha Hb. apply compareLinks_linkOrder; apply Hd; now apply In_sort in Ha, Hb.
Qed.

(** C7, amended. When the links of a [done] event all parse as URLs they
    are in order of path depth, and among paths of one depth in the order
    of [localeCompare] on the path names, the collation of the platform.
    In particular four links with the paths [/a/b], [/a], [/c/d/e] and [/]
    are sorted to [/], [/a], [/a/b], [/c/d/e].  Without the condition the
    list need not be in order of depth: a link that does not parse is
    compared as a whole string with the others. *)
Theorem done_links_sorted :
  (forall (startUrl sitemapUrl sel : option string) (tr : list Effect)
          m links t fs fp ps,
      GET parseURL localeCompare env startUrl sitemapUrl sel
      = Some (ResponseStream tr) ->
      In (Send (Done m links t fs fp ps)) tr ->
      (forall l, In l links -> parseURL l <> None) ->
      StronglySorted (linkOrder parseURL localeCompare) links)
  /\ (forall l1 l2 l3 l4 u1 u2 u3 u4,
         parseURL l1 = Some u1 -> URL.pathname u1 = "/a/b" ->
         parseURL l2 = Some u2 -> URL.pathname u2 = "/a" ->
         parseURL l3 = Some u3 -> URL.pathname u3 = "/c/d/e" ->
         parseURL l4 = Some u4 -> URL.pathname u4 = "/" ->
         sortLinks parseURL localeCompare [l1; l2; l3; l4] = [l4; l2; l1; l3]).
Proof.
  split.
  - intros startUrl sitemapUrl sel tr m links t fs fp ps Hget Hin Hparse.
    destruct startUrl as [startUrl|]; [|discriminate].
    destruct (GET_done _ _ _ _ _ _ _ _ _ _ _ _ _ Hget Hin) as (d & -> & _ & _).
    apply sortLinks_sorted. rewrite Forall_forall. intros x Hx.
    apply Hparse. now apply In_sort.
  - intros l1 l2 l3 l4 u1 u2 u3 u4 H1 P1 H2 P2 H3 P3 H4 P4.
    assert (E : forall x y ux uy,
               parseURL x = Some ux -> parseURL y = Some uy ->
               compareLinks parseURL localeCompare x y
               = if negb (depthOf (URL.pathname ux) =? depthOf (URL.pathname uy))
                 then (Z.of_nat (depthOf (URL.pathname ux))
                       - Z.of_nat (depthOf (URL.pathname uy)))%Z
                 else localeCompare (URL.pathname ux) (URL.pathname uy)).
    { intros x y ux uy Hx Hy. unfold compareLinks. now rewrite Hx, Hy. }
    unfold sortLinks. cbn [sort sortInsert].
    repeat (erewrite E by eassumption;
            rewrite ?P1, ?P2, ?P3, ?P4; cbn -[compareLinks]).
    reflexivity.
Qed.

End OrderFacts.

(* ================================================================= *)
(** ** Crawl mode: the events of one round *)

Section RoundFacts.

Variable parseURL : URL.Parser.
Variable env : Env.

Local Abbreviation addLink := (addLink parseURL).
Local Abbreviation visitPage := (visitPage parseURL env).
Local Abbreviation loopBody := (loopBody parseURL env).
Local Abbreviation runLoop := (runLoop parseURL env).

Lemma trace_fold origin links :
  forall v, trace (fold_left (addLink origin) links v) = trace v.
Proof.
  induction links as [|link links IH]; intros v; simpl; [reflexivity|].
  rewrite IH. unfold addLink.
  destruct (_ && _ && _); [|reflexivity]. now destruct (negb _).
Qed.

(** The [try] block of a page: the navigation comes first, then at most
    the extraction and the status event for new links; that event is sent
    whenever the discovered set has grown and the page's URL parses. *)
Lemma visitPage_trace origin sel url v :
  let v' := visitPage origin sel url (length (discoveredLinks v)) v in
  let grown := length (discoveredLinks v') - length (discoveredLinks v) in
  exists mid,
    trace v' = trace v ++ Goto url :: mid
    /\ (forall f, In f mid ->
          f = EvalLinks (linkSelector sel)
          \/ exists u,
               parseURL url = Some u /\ 0 < grown
               /\ f = Send (Status scanning
                              (MsgFoundNew grown (URL.pathname u)
                                           (length (discoveredLinks v')))
                              (length (discoveredLinks v')) 0 (pagesVisited v) None))
    /\ (forall u, parseURL url = Some u -> 0 < grown ->
          In (Send (Status scanning
                      (MsgFoundNew grown (URL.pathname u)
                                   (length (discoveredLinks v')))
                      (length (discoveredLinks v')) 0 (pagesVisited v) None)) mid).
Proof.
  unfold visitPage. cbn [pagesVisited emit discoveredLinks].
  destruct (pageGoto env (pagesVisited v) url).
  2:{ cbv zeta. exists []. simpl. repeat split; [intros f [] | intros u _ H; lia]. }
  destruct (pageEval env (pagesVisited v) url (linkSelector sel)) as [links|].
  2:{ cbv zeta. exists [EvalLinks (linkSelector sel)]. simpl.
      rewrite <- app_assoc. repeat split.
      - intros f [<- | []]. now left.
      - intros u _ H. lia. }
  set (v1 := emit (EvalLinks (linkSelector sel)) (emit (Goto url) v)).
  set (v2 := fold_left (addLink origin) links v1).
  assert (Ht : trace v2 = trace v ++ [Goto url; EvalLinks (linkSelector sel)]).
  { unfold v2. rewrite trace_fold. simpl. now rewrite <- app_assoc. }
  assert (Hp : pagesVisited v2 = pagesVisited v).
  { unfold v2. now rewrite pagesVisited_fold. }
  destruct (0 <? length (discoveredLinks v2) - length (discoveredLinks v)) eqn:Hg.
  - apply Nat.ltb_lt in Hg. destruct (parseURL url) as [u|] eqn:Hu.
    + cbv zeta. cbn [sendEvent emit discoveredLinks trace]. rewrite Ht, Hp.
      eexists [EvalLinks (linkSelector sel); _]. split; [|split].
      * rewrite <- app_assoc. reflexivity.
      * intros f [<- | [<- | []]]; [now left | right]. exists u. now repeat split.
      * intros u' [= <-] _. right. now left.
    + cbv zeta. rewrite Ht. exists [EvalLinks (linkSelector sel)]. split; [|split].
      * reflexivity.
      * intros f [<- | []]. now left.
      * intros u'. discriminate.
  - apply Nat.ltb_ge in Hg. cbv zeta. rewrite Ht.
    exists [EvalLinks (linkSelector sel)]. split; [|split].
    + reflexivity.
    + intros f [<- | []]. now left.
    + intros u' _ H. lia.
Qed.

(** One round of the loop that visits a page and ends normally. *)
Lemma round_events origin sel v url rest v' :
  pagesToVisit v = url :: rest ->
  JS.has (visited v) url = false ->
  loopBody origin sel v = Normal v' ->
  let n := S (pagesVisited v) in
  let grown := length (discoveredLinks v') - length (discoveredLinks v) in
  exists ext,
    trace v' = trace v ++ ext
    /\ pagesVisited v' = n
    /\ In (Goto url) ext
    /\ ((exists p t, In (Send (Status scanning (MsgScanning n p) t 0 n (Some url))) ext)
        <-> n mod 5 = 1)
    /\ (forall u, parseURL url = Some u -> 0 < grown ->
          In (Send (Status scanning
                      (MsgFoundNew grown (URL.pathname u)
                                   (length (discoveredLinks v')))
                      (length (discoveredLinks v')) 0 n None)) ext)
    /\ (pagesToVisit v' = [] ->
        In (Send (Status scanning (MsgAllScanned n)
                         (length (discoveredLinks v')) 0 n None)) ext).
Proof.
  intros Hqueue Hhas. unfold loopBody, markVisited, shiftFrontier. rewrite Hqueue.
  cbn [visited discoveredLinks pagesVisited trace]. rewrite Hhas.
  set (n := S (pagesVisited v)).
  set (v1 := mkVars _ (JS.add _ _) _ _ _ _ _ _).
  assert (Hmod : (n mod 5 =? 1) || (n =? 1) = true <-> n mod 5 = 1).
  { rewrite orb_true_iff, !Nat.eqb_eq. split; [|now left].
    intros [H | ->]; [assumption | reflexivity]. }
  destruct ((n mod 5 =? 1) || (n =? 1)) eqn:Etest.
  - destruct (parseURL url) as [u|] eqn:Hu; [|discriminate].
    set (scan := Send (Status scanning (MsgScanning n (URL.pathname u))
                              (length (discoveredLinks v1)) 0 n (Some url))).
    set (v2 := sendEvent _ v1).
    destruct (visitPage_trace origin sel url v2) as (mid & Ht & Hmid & Hnew).
    change (length (discoveredLinks v2)) with (length (discoveredLinks v)) in *.
    set (v3 := visitPage origin sel url (length (discoveredLinks v)) v2) in *.
    assert (Hp3 : pagesVisited v3 = n) by apply pagesVisited_visitPage.
    change (pagesVisited v2) with n in *.
    change (trace v2) with (trace v ++ [scan]) in Ht.
    destruct (length (pagesToVisit v3) =? 0) eqn:Eq; intros [= <-]; cbv zeta.
    + exists (scan :: Goto url :: mid
                ++ [Send (Status scanning (MsgAllScanned (pagesVisited v3))
                                 (length (discoveredLinks v3)) 0 (pagesVisited v3) None)]).
      cbn [sendEvent emit trace pagesVisited discoveredLinks pagesToVisit].
      rewrite Ht, Hp3, <- !app_assoc. repeat split.
      * right. now left.
      * intros _. now apply Hmod.
      * intros _. exists (URL.pathname u), (length (discoveredLinks v)). now left.
      * intros u' [= <-] Hg. right. right. apply in_or_app. left. now apply Hnew.
      * intros _. right. right. apply in_or_app. right. now left.
    + exists (scan :: Goto url :: mid). rewrite Ht, <- !app_assoc. repeat split.
      * assumption.
      * right. now left.
      * intros _. now apply Hmod.
      * intros _. exists (URL.pathname u), (length (discoveredLinks v)). now left.
      * intros u' [= <-] Hg. right. right. now apply Hnew.
      * intros Hnil. rewrite Hnil in Eq. discriminate.
  - assert (Hno : n mod 5 <> 1).
    { intros H. apply Hmod in H. discriminate. }
    destruct (visitPage_trace origin sel url v1) as (mid & Ht & Hmid & Hnew).
    change (length (discoveredLinks v1)) with (length (discoveredLinks v)) in *.
    set (v3 := visitPage origin sel url (length (discoveredLinks v)) v1) in *.
    assert (Hp3 : pagesVisited v3 = n) by apply pagesVisited_visitPage.
    change (pagesVisited v1) with n in *.
    change (trace v1) with (trace v) in Ht.
    assert (Hscan : forall p t ext',
               (forall f, In f ext' -> exists k, f = Send (Status scanning (MsgAllScanned k)
                                   (length (discoveredLinks v3)) 0 k None)) ->
               ~ In (Send (Status scanning (MsgScanning n p) t 0 n (Some url)))
                    (Goto url :: mid ++ ext')).
    { intros p t ext' Hext' [H | Hin]; [discriminate|].
      apply in_app_or in Hin. destruct Hin as [Hin | Hin].
      - destruct (Hmid _ Hin) as [H | (u & _ & _ & H)]; discriminate.
      - destruct (Hext' _ Hin) as (k & H). discriminate. }
    destruct (length (pagesToVisit v3) =? 0) eqn:Eq; intros [= <-]; cbv zeta.
    + exists (Goto url :: mid
                ++ [Send (Status scanning (MsgAllScanned (pagesVisited v3))
                                 (length (discoveredLinks v3)) 0 (pagesVisited v3) None)]).
      cbn [sendEvent emit trace pagesVisited discoveredLinks pagesToVisit].
      rewrite Ht, <- !app_assoc. repeat split.
      * assumption.
      * now left.
      * intros (p & t & Hin). exfalso. revert Hin. apply Hscan.
        intros f [<- | []]. now eexists.
      * intros H. contradiction.
      * intros u Hu Hg. right. apply in_or_app. left. now apply Hnew.
      * intros _. right. apply in_or_app. right. rewrite Hp3. now left.
    + exists (Goto url :: mid). rewrite Ht. repeat split.
      * assumption.
      * now left.
      * intros (p & t & Hin). exfalso. revert Hin.
        rewrite <- (app_nil_r mid). apply Hscan. intros f [].
      * intros H. contradiction.
      * intros u Hu Hg. right. now apply Hnew.
      * intros Hnil. rewrite Hnil in Eq. discriminate.
Qed.

End RoundFacts.

(* ================================================================= *)
(** ** Crawl mode: the frontier *)

Section FrontierOnce.

Variable parseURL : URL.Parser.
Variable env : Env.

Local Abbreviation addLink := (addLink parseURL).
Local Abbreviation loopBody := (loopBody parseURL env).
Local Abbreviation runLoop := (runLoop parseURL env).

Lemma atHead_facts startUrl v :
  atHead startUrl v ->
  NoDup (enqueued v)
  /\ NoDup (navigations (trace v))
  /\ incl (pagesToVisit v) (enqueued v)
  /\ incl (visited v) (enqueued v)
  /\ incl (navigations (trace v)) (visited v)
  /\ (forall x, In x (pagesToVisit v) -> ~ In x (visited v)).
Proof.
  intros [(H1 & H2 & H3 & H4 & H5 & H6 & H7 & H8 & H9) | (Hv & Hq & He & Hn & Hp)].
  - repeat split; assumption.
  - rewrite Hv, Hq, He, Hn. repeat split; try (repeat constructor; simpl; tauto);
      try apply incl_refl; try (intros x []); auto.
Qed.

Lemma headState_atHead startUrl origin sel v0 v :
  atHead startUrl v0 -> headState parseURL env origin sel v0 v ->
  atHead startUrl v.
Proof.
  intros H0 Hreach. induction Hreach as [|v v' _ IH Hcond Hbody]; [assumption|].
  destruct (loopBody_atHead parseURL env startUrl origin sel v IH Hcond) as [Hd _].
  rewrite Hbody in Hd. now left.
Qed.

(** C1. The loop over pages, started with the start URL alone in the
    frontier, ends.  At the head of every round, and when the loop has
    ended, no URL has been pushed onto the frontier twice, no page has
    been navigated to twice, every URL visited or still waiting was pushed
    once, and no waiting URL is a visited one; so the URL a round takes
    from the frontier has not been visited.  While the links of a page
    are added, a link is pushed only if its canonical form is in none of
    the discovered set, the frontier and the visited set (and so was never
    pushed before), and what holds of the variables then holds after it
    too. *)
Theorem frontier_enqueues_once
    (origin startUrl : string) (sel : option string)
    (discovered : list string) (tr0 : list Effect) :
  navigations tr0 = [] ->
  let v0 := mkVars discovered [] 0 [startUrl] 0 0 tr0 [startUrl] in
  let once (v : Vars) :=
    NoDup (enqueued v)
    /\ NoDup (navigations (trace v))
    /\ incl (pagesToVisit v) (enqueued v)
    /\ incl (visited v) (enqueued v)
    /\ incl (navigations (trace v)) (visited v)
    /\ (forall x, In x (pagesToVisit v) -> ~ In x (visited v)) in
  (exists o, runLoop (S MAX_PAGES_SAFETY) origin sel v0 = Some o)
  /\ (forall fuel o, runLoop fuel origin sel v0 = Some o -> once (varsOf o))
  /\ (forall v,
         headState parseURL env origin sel v0 v ->
         once v
         /\ (forall url rest,
                pagesToVisit v = url :: rest ->
                JS.has (visited v) url = false
                /\ duringVisit (markVisited url (shiftFrontier rest v)))
         /\ (loopCond v = true -> duringVisit (varsOf (loopBody origin sel v))))
  /\ (forall v link,
         duringVisit v ->
         let c := cleanUrl parseURL link in
         let v' := addLink origin v link in
         duringVisit v'
         /\ ((pagesToVisit v' = pagesToVisit v /\ enqueued v' = enqueued v)
             \/ (pagesToVisit v' = pagesToVisit v ++ [c]
                 /\ enqueued v' = enqueued v ++ [c]
                 /\ ~ In c (discoveredLinks v)
                 /\ ~ In c (pagesToVisit v)
                 /\ ~ In c (visited v)
                 /\ ~ In c (enqueued v)))).
Proof.
  intros Hnav v0 once.
  assert (Hhead : atHead startUrl v0) by (right; now repeat split).
  split; [|split; [|split]].
  - apply (runLoop_total parseURL env startUrl); [assumption|].
    apply Nat.lt_succ_r, Nat.le_sub_l.
  - intros fuel o Hrun. apply (atHead_facts startUrl).
    now apply (runLoop_atHead parseURL env startUrl origin sel fuel v0).
  - intros v Hreach.
    pose proof (headState_atHead startUrl origin sel v0 v Hhead Hreach) as Hv.
    split; [now apply (atHead_facts startUrl)|]. split.
    + intros url rest Hqueue.
      destruct (marked_duringVisit startUrl v url rest Hv Hqueue)
        as (Hhas & Hd & _).
      now split.
    + intros Hcond.
      now destruct (loopBody_atHead parseURL env startUrl origin sel v Hv Hcond).
  - intros v link Hv. split.
    + now apply duringVisit_addLink.
    + now apply addLink_guard.
Qed.

End FrontierOnce.

(* ================================================================= *)
(** ** Crawl mode: the events *)

Section CrawlEvents.

Variable parseURL : URL.Parser.
Variable localeCompare : string -> string -> Z.
Variable env : Env.

Local Abbreviation loopBody := (loopBody parseURL env).
Local Abbreviation runLoop := (runLoop parseURL env).

Lemma crawlMode_total origin startUrl sel v :
  visited v = [] -> navigations (trace v) = [] ->
  exists v', crawlMode parseURL localeCompare env (S MAX_PAGES_SAFETY)
                       origin startUrl sel v = Some v'.
Proof.
  intros Hv Hn. unfold crawlMode.
  destruct (launch env); [|eexists; reflexivity].
  destruct (newPage env); [|eexists; reflexivity].
  match goal with |- context [runLoop _ _ _ ?w] => set (v0 := w) end.
  destruct (runLoop_total parseURL env startUrl origin sel
              (S MAX_PAGES_SAFETY) v0) as [o Ho].
  - right. subst v0. simpl. rewrite !navigations_app, Hn. now repeat split.
  - apply Nat.lt_succ_r, Nat.le_sub_l.
  - rewrite Ho. destruct o; eexists; reflexivity.
Qed.

(** The handler answers every request. *)
Lemma GET_total (startUrl sitemapUrl sel : option string) :
  exists r, GET parseURL localeCompare env startUrl sitemapUrl sel = Some r.
Proof.
  unfold GET. destruct startUrl as [startUrl|]; [|eexists; reflexivity].
  destruct (JS.truthy startUrl); [|eexists; reflexivity].
  destruct (match sitemapUrl with Some s => JS.truthy s | None => false end) eqn:Hsm.
  - destruct sitemapUrl as [sm|]; [|discriminate].
    destruct (discover_sitemap parseURL localeCompare env (S MAX_PAGES_SAFETY)
                startUrl sm sel Hsm) as (tr & -> & _).
    eexists. reflexivity.
  - rewrite (discover_crawl parseURL localeCompare env _ _ _ _ Hsm).
    destruct (parseURL startUrl) as [u|]; [|eexists; reflexivity].
    destruct (crawlMode_total (URL.origin parseURL u) startUrl sel
                (seeded (cleanUrl parseURL startUrl) false)) as [v' ->];
      try reflexivity.
    eexists. reflexivity.
Qed.

(** The only exception that leaves the loop: at a page whose number is 1
    more than a multiple of 5, the URL taken from the frontier does not
    parse. *)
Lemma loopBody_abrupt origin sel v e v' :
  loopBody origin sel v = Abrupt e v' ->
  exists url rest,
    pagesToVisit v = url :: rest
    /\ parseURL url = None
    /\ S (pagesVisited v) mod 5 = 1
    /\ e = ErrorObject "Invalid URL"
    /\ trace v' = trace v.
Proof.
  unfold loopBody, markVisited, shiftFrontier.
  destruct (pagesToVisit v) as [|url rest]; [discriminate|].
  cbn [visited discoveredLinks pagesVisited trace].
  destruct (JS.has (visited v) url); [discriminate|].
  set (n := S (pagesVisited v)).
  destruct ((n mod 5 =? 1) || (n =? 1)) eqn:Etest.
  - destruct (parseURL url) as [u|] eqn:Hu.
    + destruct (_ =? 0); discriminate.
    + intros [= <- <-]. exists url, rest. repeat split; [assumption|].
      apply orb_true_iff in Etest. rewrite !Nat.eqb_eq in Etest.
      unfold n in *. destruct Etest as [H | H]; [assumption | now rewrite H].
  - destruct (_ =? 0); discriminate.
Qed.


End CrawlEvents.

(* ================================================================= *)
(** ** The properties on the sample platform *)

Lemma sample_localeCompare_refl (a : string) : Sample.localeCompare a a = 0%Z.
Proof.
  unfold Sample.localeCompare.
  destruct (String_as_OT.compare_spec a a) as [_ | H | H]; [reflexivity | |];
    exfalso; revert H; apply (StrictOrder_Irreflexive (R := String_as_OT.lt)).
Qed.

Lemma sample_localeCompare_le (a b : string) :
  (Sample.localeCompare a b <= 0)%Z <-> a = b \/ String_as_OT.lt a b.
Proof.
  unfold Sample.localeCompare.
  destruct (String_as_OT.compare_spec a b) as [H | H | H].
  - split; [now left | lia].
  - split; [now right | lia].
  - split; [lia|]. intros [-> | H'].
    + exfalso. revert H. apply (StrictOrder_Irreflexive (R := String_as_OT.lt)).
    + exfalso. apply (StrictOrder_Irreflexive (R := String_as_OT.lt) a).
      now apply (StrictOrder_Transitive (R := String_as_OT.lt) a b a).
Qed.

Lemma sample_localeCompare_total (a b : string) :
  (0 <= Sample.localeCompare a b -> Sample.localeCompare b a <= 0)%Z.
Proof.
  intros H. apply sample_localeCompare_le. revert H.
  unfold Sample.localeCompare.
  destruct (String_as_OT.compare_spec a b) as [H | H | H]; intros H0.
  - left. now symmetry.
  - lia.
  - now right.
Qed.

Lemma sample_localeCompare_trans (a b c : string) :
  (Sample.localeCompare a b <= 0 -> Sample.localeCompare b c <= 0 ->
   Sample.localeCompare a c <= 0)%Z.
Proof.
  rewrite !sample_localeCompare_le.
  intros [-> | Hab] [-> | Hbc]; auto.
  right. now apply (StrictOrder_Transitive (R := String_as_OT.lt) a b c).
Qed.


Lemma frontier_enqueues_once_witness :
  (exists o,
      runLoop Sample.parseURL Sample.crawlSite (S MAX_PAGES_SAFETY)
              Sample.siteOrigin None Sample.beforeHome = Some o
      /\ NoDup (enqueued (varsOf o))
      /\ NoDup (navigations (trace (varsOf o))))
  /\ pagesToVisit (addLink Sample.parseURL Sample.siteOrigin Sample.atHome
                           "https://example.com/a#top")
     = ["https://example.com/a"].
Proof.
  destruct (frontier_enqueues_once Sample.parseURL Sample.crawlSite
              Sample.siteOrigin Sample.home None [Sample.home] [] eq_refl)
    as ([o Ho] & Hall & _ & Hguard).
  split.
  - exists o. split; [exact Ho|].
    destruct (Hall _ o Ho) as (H1 & H2 & _). split; assumption.
  - assert (Hv : duringVisit Sample.atHome).
    { unfold duringVisit, Sample.atHome. simpl.
      repeat split; try (repeat constructor; simpl; tauto);
        apply incl_refl. }
    destruct (Hguard Sample.atHome "https://example.com/a#top" Hv)
      as (_ & [(Hq & _) | (Hq & _)]); [vm_compute in Hq; discriminate|].
    rewrite Hq. reflexivity.
Defined.


Lemma sitemap_index_of_two_children_counts_witness :
  exists tr m links,
    GET Sample.parseURL Sample.localeCompare Sample.indexSite
        (Some Sample.home) (Some "https://example.com/sitemap.xml") None
    = Some (ResponseStream tr)
    /\ filter isDone (sent tr) = [Done m links 7 6 0 0].
Proof.
  refine (sitemap_index_of_two_children_counts
            Sample.parseURL Sample.localeCompare Sample.indexSite
            Sample.home "https://example.com/sitemap.xml" None
            (URL.mk "https" "" "" (Some "example.com") None
                    (URL.Segments [""]) None None)
            Sample.indexXml
            "https://example.com/s1.xml" "https://example.com/s2.xml"
            Sample.child1Xml Sample.child2Xml
            "https://example.com/a/b" "https://example.com/a"
            "https://example.com/c/d/e"
            "https://example.com/x" "https://example.com/y"
            "https://example.com/z"
            eq_refl eq_refl eq_refl eq_refl eq_refl eq_refl eq_refl eq_refl
            eq_refl eq_refl _ _).
  - repeat constructor.
  - vm_compute. repeat (constructor; [simpl; intuition discriminate|]). constructor.
Defined.



(** C7 fails as stated: a sitemap may list a link that does not parse as
    a URL, and the links of the [done] event are then not in order of path
    depth.  Here the comparator finds the discovered links in order as
    they stand, each below the next, and the sort leaves them so: a link
    of depth one stands before a link of depth zero. *)
Lemma done_links_unsorted_counterexample :
  let deep := "https://example.comk/a" in
  let stray := "https://example.comm:x/" in
  let shallow := "https://example.comz/" in
  exists tr,
    GET Sample.parseURL Sample.localeCompare Sample.straySite
        (Some Sample.home) (Some "https://example.com/sitemap.xml") None
    = Some (ResponseStream tr)
    /\ In (Send (Done (MsgSitemapComplete 3)
                      [Sample.home; deep; stray; shallow] 4 3 0 0)) tr
    /\ Sample.parseURL stray = None
    /\ (exists ud us,
           Sample.parseURL deep = Some ud
           /\ Sample.parseURL shallow = Some us
           /\ depthOf (URL.pathname ud) = 1
           /\ depthOf (URL.pathname us) = 0)
    /\ ~ StronglySorted (linkOrder Sample.parseURL Sample.localeCompare)
                        [Sample.home; deep; stray; shallow].
Proof.
  cbv zeta. eexists. split; [vm_compute; reflexivity|].
  split; [find_in_list|]. split; [reflexivity|]. split.
  - do 2 eexists. repeat split; vm_compute; reflexivity.
  - intros Hs. inversion Hs as [|? ? Hrest _]; subst.
    inversion Hrest as [|? ? _ Hall]; subst.
    inversion Hall as [|? ? _ Hall']; subst.
    inversion Hall' as [|? ? Hord _]; subst.
    destruct Hord as (ua & ub & Ha & Hb & Hord).
    vm_compute in Ha. injection Ha as <-.
    vm_compute in Hb. injection Hb as <-.
    vm_compute in Hord. destruct Hord as [H | [H _]]; [lia | discriminate].
Qed.

Lemma done_links_sorted_witness :
  StronglySorted (linkOrder Sample.parseURL Sample.localeCompare)
    [ "https://example.com/"; "https://example.com/a";
      "https://example.com/x"; "https://example.com/y";
      "https://example.com/z"; "https://example.com/a/b";
      "https://example.com/c/d/e" ]
  /\ StronglySorted (linkOrder Sample.parseURL Sample.localeCompare)
    [ "https://example.com/"; "https://example.com/a";
      "https://example.com/a/b"; "https://example.com/c/d/e" ]
  /\ sortLinks Sample.parseURL Sample.localeCompare
       [ "https://example.com/a/b"; "https://example.com/a";
         "https://example.com/c/d/e"; "https://example.com/" ]
     = [ "https://example.com/"; "https://example.com/a";
         "https://example.com/a/b"; "https://example.com/c/d/e" ].
Proof.
  destruct (done_links_sorted Sample.parseURL Sample.localeCompare Sample.flatSite
              sample_localeCompare_total sample_localeCompare_trans)
    as [Hrun Hexample].
  destruct (done_links_sorted Sample.parseURL Sample.localeCompare Sample.indexSite
              sample_localeCompare_total sample_localeCompare_trans)
    as [Hindex _].
  split; [|split].
  - eapply (Hindex (Some Sample.home) (Some "https://example.com/sitemap.xml") None).
    + vm_compute. reflexivity.
    + find_in_list.
    + intros l Hl. simpl in Hl.
      repeat (destruct Hl as [<- | Hl]; [vm_compute; discriminate|]).
      contradiction.
  - eapply (Hrun (Some Sample.home) (Some "https://example.com/sitemap.xml") None).
    + vm_compute. reflexivity.
    + find_in_list.
    + intros l Hl. simpl in Hl.
      repeat (destruct Hl as [<- | Hl]; [vm_compute; discriminate|]).
      contradiction.
  - eapply Hexample; vm_compute; reflexivity.
Defined.

Lemma done_total_is_links_length_witness :
  (exists tr m links t fs fp ps,
      GET Sample.parseURL Sample.localeCompare Sample.indexSite
          (Some Sample.home) (Some "https://example.com/sitemap.xml") None
      = Some (ResponseStream tr)
      /\ In (Send (Done m links t fs fp ps)) tr
      /\ t = length links /\ t = 7)
  /\ (exists tr m links t fs fp ps,
         GET Sample.parseURL Sample.localeCompare Sample.crawlSite
             (Some Sample.home) None None
         = Some (ResponseStream tr)
         /\ In (Send (Done m links t fs fp ps)) tr
         /\ t = length links /\ t = 4).
Proof.
  split.
  - do 7 eexists. split; [vm_compute; reflexivity|]. split; [find_in_list|].
    split; [|reflexivity].
    eapply (done_total_is_links_length Sample.parseURL Sample.localeCompare
              Sample.indexSite (Some Sample.home)
              (Some "https://example.com/sitemap.xml") None);
      [vm_compute; reflexivity | find_in_list].
  - do 7 eexists. split; [vm_compute; reflexivity|]. split; [find_in_list|].
    split; [|reflexivity].
    eapply (done_total_is_links_length Sample.parseURL Sample.localeCompare
              Sample.crawlSite (Some Sample.home) None None);
      [vm_compute; reflexivity | find_in_list].
Defined.

Lemma done_links_hold_start_witness :
  (exists tr m links t fs fp ps,
      GET Sample.parseURL Sample.localeCompare Sample.deadSite
          (Some "https://example.com/#top") None None
      = Some (ResponseStream tr)
      /\ In (Send (Done m links t fs fp ps)) tr
      /\ In "https://example.com/" links)
  /\ (exists tr m links t fs fp ps,
         GET Sample.parseURL Sample.localeCompare Sample.flatSite
             (Some "https://example.com/#top")
             (Some "https://example.com/sitemap.xml") None
         = Some (ResponseStream tr)
         /\ In (Send (Done m links t fs fp ps)) tr
         /\ In "https://example.com/" links).
Proof.
  split.
  - do 7 eexists. split; [vm_compute; reflexivity|]. split; [find_in_list|].
    change "https://example.com/"
      with (cleanUrl Sample.parseURL "https://example.com/#top").
    eapply (done_links_hold_start Sample.parseURL Sample.localeCompare
              Sample.deadSite "https://example.com/#top" None None);
      [vm_compute; reflexivity | find_in_list].
  - do 7 eexists. split; [vm_compute; reflexivity|]. split; [find_in_list|].
    change "https://example.com/"
      with (cleanUrl Sample.parseURL "https://example.com/#top").
    eapply (done_links_hold_start Sample.parseURL Sample.localeCompare
              Sample.flatSite "https://example.com/#top"
              (Some "https://example.com/sitemap.xml") None);
      [vm_compute; reflexivity | find_in_list].
Defined.

(* ================================================================= *)
(** ** The sitemap fetcher: redirects and outcomes *)

Section FetchFacts.

Variable net : Fetch.Protocol -> string -> Fetch.Answer.
Variable resolveURL : string -> string -> option string.

Local Abbreviation makeRequest := (Fetch.makeRequest net resolveURL).
Local Abbreviation chained := (Fetch.chained net resolveURL).

Lemma makeRequest_bounded :
  forall fuel url count,
    6 - count < fuel ->
    exists reqs out,
      makeRequest fuel url count = Some (reqs, out)
      /\ length reqs + count <= 6 + (count - 6)
      /\ chained reqs
      /\ (forall req, In req reqs -> fst req = Fetch.protocolOf (snd req))
      /\ (forall req, hd_error reqs = Some req -> snd req = url).
Proof.
  induction fuel as [|fuel IH]; intros url count Hfuel; [lia|].
  cbn [Fetch.makeRequest].
  destruct (5 <? count) eqn:Hc.
  { apply Nat.ltb_lt in Hc. do 2 eexists. split; [reflexivity|].
    simpl. repeat split; [lia | intros req [] | discriminate]. }
  apply Nat.ltb_ge in Hc.
  set (req := (Fetch.protocolOf url, url)).
  assert (Hone : forall out : Fetch.Settled,
             exists (reqs : list Fetch.Request) (out' : Fetch.Settled),
               Some ([req], out) = Some (reqs, out')
               /\ length reqs + count <= 6 + (count - 6)
               /\ chained reqs
               /\ (forall r, In r reqs -> fst r = Fetch.protocolOf (snd r))
               /\ (forall r, hd_error reqs = Some r -> snd r = url)).
  { intros out. exists [req], out. simpl. repeat split; try lia.
    - intros r [<- | []]. reflexivity.
    - intros r [= <-]. reflexivity. }
  destruct (net (Fetch.protocolOf url) url) as [sc loc chunks ends|e|e|] eqn:Hnet;
    [|apply Hone|apply Hone|apply Hone].
  destruct (Fetch.redirectTo sc loc) as [l|] eqn:Hred; [|apply Hone].
  destruct (resolveURL l url) as [next|] eqn:Hres; [|apply Hone].
  destruct (IH next (S count)) as (reqs & out & -> & Hlen & Hch & Hproto & Hhd);
    [lia|].
  exists (req :: reqs), out. split; [reflexivity|]. repeat split.
  - simpl. lia.
  - destruct reqs as [|r reqs]; [exact I|]. split; [|exact Hch].
    exists sc, loc, chunks, ends, l. rewrite (Hhd r eq_refl). now repeat split.
  - intros r [<- | Hr]; [reflexivity | now apply Hproto].
  - intros r [= <-]. reflexivity.
Qed.

Lemma makeRequest_last :
  forall fuel url count reqs out,
    makeRequest fuel url count = Some (reqs, out) ->
    count <= 5 ->
    exists front req,
      reqs = front ++ [req]
      /\ match net (fst req) (snd req) with
         | Fetch.Errors e => out = Fetch.Rejected e
         | Fetch.Refuses e =>
             out = if length front + count =? 0 then Fetch.Rejected e
                   else Fetch.Unsettled
         | Fetch.Silent => out = Fetch.Unsettled
         | Fetch.Responds statusCode location chunks ends =>
             match Fetch.redirectTo statusCode location with
             | None =>
                 out = if ends then Fetch.Resolved (String.concat "" chunks)
                       else Fetch.Unsettled
             | Some loc =>
                 match resolveURL loc (snd req) with
                 | None => out = Fetch.Unsettled
                 | Some _ =>
                     length reqs + count = 6
                     /\ out = Fetch.Rejected (ErrorObject "Too many redirects")
                 end
             end
         end.
Proof.
  induction fuel as [|fuel IH]; intros url count reqs out; [discriminate|].
  cbn [Fetch.makeRequest]. intros H Hcount.
  destruct (5 <? count) eqn:Hc; [apply Nat.ltb_lt in Hc; lia|].
  set (req := (Fetch.protocolOf url, url)) in *.
  destruct (net (Fetch.protocolOf url) url) as [sc loc chunks ends|e|e|] eqn:Hnet.
  2:{ injection H as <- <-. exists [], req. split; [reflexivity|].
      cbn [fst snd req]. now rewrite Hnet. }
  2:{ injection H as <- <-. exists [], req. split; [reflexivity|].
      cbn [fst snd req]. now rewrite Hnet. }
  2:{ injection H as <- <-. exists [], req. split; [reflexivity|].
      cbn [fst snd req]. now rewrite Hnet. }
  destruct (Fetch.redirectTo sc loc) as [l|] eqn:Hred.
  2:{ injection H as <- <-. exists [], req. split; [reflexivity|].
      cbn [fst snd req]. now rewrite Hnet, Hred. }
  destruct (resolveURL l url) as [next|] eqn:Hres.
  2:{ injection H as <- <-. exists [], req. split; [reflexivity|].
      cbn [fst snd req]. now rewrite Hnet, Hred, Hres. }
  destruct (makeRequest fuel next (S count)) as [[reqs' out']|] eqn:Hrec;
    [|discriminate].
  injection H as <- <-.
  destruct (Nat.eq_dec count 5) as [-> | Hlt].
  - destruct fuel as [|fuel']; [discriminate|]. cbn in Hrec.
    injection Hrec as <- <-.
    exists [], req. split; [reflexivity|].
    cbn [fst snd req]. rewrite Hnet, Hred, Hres. now split.
  - destruct (IH _ _ _ _ Hrec ltac:(lia)) as (front & last & -> & Hlast).
    exists (req :: front), last. split; [reflexivity|].
    destruct (net (fst last) (snd last)) as [sc' loc' chunks' ends'|e'|e'|];
      try assumption.
    + destruct (Fetch.redirectTo sc' loc'); [|assumption].
      destruct (resolveURL _ (snd last)); [|assumption].
      destruct Hlast as [Hlen Hout]. split; [|assumption].
      cbn [length app]. lia.
    + rewrite Nat.add_succ_r in Hlast. exact Hlast.
Qed.

(** X1. [fetchXml] always comes to an end after at most six requests: the
    one for the URL and one for each of at most five redirects, each sent to
    the URL the redirect before it resolved to, over the protocol its own
    URL selects. *)
Theorem fetchXml_at_most_six_requests (url : string) :
  exists reqs out,
    Fetch.fetchXml net resolveURL url = Some (reqs, out)
    /\ length reqs <= 6
    /\ chained reqs
    /\ (forall req, In req reqs -> fst req = Fetch.protocolOf (snd req))
    /\ (forall req, hd_error reqs = Some req -> snd req = url).
Proof.
  destruct (makeRequest_bounded 7 url 0) as (reqs & out & H & Hlen & Hrest);
    [lia|].
  exists reqs, out. split; [exact H|]. split; [simpl in Hlen; lia | exact Hrest].
Qed.


End FetchFacts.

(* ================================================================= *)
(** ** Resource files *)

Lemma endsWith_app (s p : string) :
  JS.endsWith s p = true <-> exists a, s = (a ++ p)%string.
Proof.
  induction s as [|c s IH]; cbn [JS.endsWith].
  - rewrite orb_false_r, String.eqb_eq. split.
    + intros <-. now exists EmptyString.
    + intros [a Ha]. destruct a; [exact Ha | discriminate].
  - rewrite orb_true_iff, String.eqb_eq, IH. split.
    + intros [<- | [a ->]]; [now exists EmptyString | now exists (String c a)].
    + intros [a Ha]. destruct a as [|c' a]; simpl in Ha.
      * now left.
      * right. exists a. congruence.
Qed.

Lemma toLowerCase_app (a b : string) :
  JS.toLowerCase (a ++ b) = (JS.toLowerCase a ++ JS.toLowerCase b)%string.
Proof.
  induction a as [|c a IH]; simpl; [reflexivity | now rewrite IH].
Qed.

Section ResourceFacts.

Variable parseURL : URL.Parser.

(** X3. Whether a URL counts as a resource file is decided by its path
    alone, read without regard to case: it does exactly when the path, in
    lower case, ends with one of the listed extensions.  So an extension in
    capitals counts, an extension that only shows in the query or the
    fragment does not, and a string that does not parse never counts. *)
Theorem isNonHtmlResource_by_path :
  (forall url u,
      parseURL url = Some u ->
      (isNonHtmlResource parseURL url = true
       <-> exists stem ext,
             In ext NON_HTML_EXTENSIONS
             /\ JS.toLowerCase (URL.pathname u) = (stem ++ ext)%string))
  /\ (forall url u stem ext,
         parseURL url = Some u ->
         URL.pathname u = (stem ++ ext)%string ->
         In (JS.toLowerCase ext) NON_HTML_EXTENSIONS ->
         isNonHtmlResource parseURL url = true)
  /\ (forall a b ua ub,
         parseURL a = Some ua -> parseURL b = Some ub ->
         URL.path ua = URL.path ub ->
         isNonHtmlResource parseURL a = isNonHtmlResource parseURL b)
  /\ (forall url, parseURL url = None -> isNonHtmlResource parseURL url = false).
Proof.
  assert (Hiff : forall url u,
             parseURL url = Some u ->
             (isNonHtmlResource parseURL url = true
              <-> exists stem ext,
                    In ext NON_HTML_EXTENSIONS
                    /\ JS.toLowerCase (URL.pathname u) = (stem ++ ext)%string)).
  { intros url u Hu. unfold isNonHtmlResource. rewrite Hu. cbv zeta.
    rewrite existsb_exists. split.
    - intros (ext & Hin & Hends). apply endsWith_app in Hends.
      destruct Hends as [stem Hstem]. now exists stem, ext.
    - intros (stem & ext & Hin & Heq). exists ext. split; [assumption|].
      apply endsWith_app. now exists stem. }
  split; [exact Hiff|]. split; [|split].
  - intros url u stem ext Hu Hpath Hin. apply (Hiff url u Hu).
    exists (JS.toLowerCase stem), (JS.toLowerCase ext). split; [assumption|].
    now rewrite Hpath, toLowerCase_app.
  - intros a b ua ub Ha Hb Hpath. unfold isNonHtmlResource, URL.pathname.
    now rewrite Ha, Hb, Hpath.
  - intros url Hu. unfold isNonHtmlResource. now rewrite Hu.
Qed.

End ResourceFacts.

(* ================================================================= *)
(** ** Sitemap documents *)

(** [m] occurs in [s]. *)
Local Abbreviation occursIn m s := (JS.includes s m = true).

Lemma occursIn_refl (s : string) : occursIn s s.
Proof.
  apply includes_app. exists EmptyString, EmptyString. simpl.
  induction s as [|c s IH]; simpl; congruence.
Qed.

Lemma append_assoc (a b c : string) :
  ((a ++ b) ++ c)%string = (a ++ (b ++ c))%string.
Proof. induction a as [|x a IH]; simpl; congruence. Qed.

Lemma occursIn_trans (a b c : string) :
  occursIn a b -> occursIn b c -> occursIn a c.
Proof.
  rewrite !includes_app. intros (p & q & ->) (p' & q' & ->).
  exists (p' ++ p)%string, (q ++ q')%string.
  now rewrite !append_assoc.
Qed.

Lemma take_drop (n : nat) (s : string) :
  s = (JS.take n s ++ JS.drop n s)%string.
Proof.
  revert s. induction n as [|n IH]; intros [|c s]; simpl; try reflexivity.
  now rewrite <- IH.
Qed.

Lemma take_occursIn (n : nat) (s : string) : occursIn (JS.take n s) s.
Proof.
  apply includes_app. exists EmptyString, (JS.drop n s). apply take_drop.
Qed.

Lemma drop_occursIn (n : nat) (s : string) : occursIn (JS.drop n s) s.
Proof.
  apply includes_app. exists (JS.take n s), EmptyString.
  rewrite (take_drop n s) at 1. f_equal.
  induction (JS.drop n s) as [|c r IH]; simpl; congruence.
Qed.

Lemma occursIn_tail (m : string) (c : ascii) (s : string) :
  occursIn m s -> occursIn m (String c s).
Proof.
  rewrite !includes_app. intros (a & b & ->). now exists (String c a), b.
Qed.

Lemma trimStart_occursIn (s : string) : occursIn (JS.trimStart s) s.
Proof.
  induction s as [|c s IH]; cbn [JS.trimStart]; [reflexivity|].
  destruct (JS.isWhiteSpace c); [now apply occursIn_tail | apply occursIn_refl].
Qed.

Lemma trimEnd_prefix (s : string) : exists b, s = (JS.trimEnd s ++ b)%string.
Proof.
  induction s as [|c s [b Hb]]; simpl; [now exists EmptyString|].
  destruct (JS.trimEnd s) as [|c' r] eqn:E.
  - destruct (JS.isWhiteSpace c).
    + now exists (String c s).
    + exists s. reflexivity.
  - exists b. simpl. now rewrite Hb at 1.
Qed.

Lemma trim_occursIn (s : string) : occursIn (JS.trim s) s.
Proof.
  unfold JS.trim. apply occursIn_trans with (b := JS.trimStart s);
    [|apply trimStart_occursIn].
  apply includes_app. destruct (trimEnd_prefix (JS.trimStart s)) as [b Hb].
  exists EmptyString, b. exact Hb.
Qed.

Lemma matchAll_occursIn (at_ : string -> option nat) :
  forall s skip m, In m (Regex.matchAll at_ skip s) -> occursIn m s.
Proof.
  induction s as [|c s IH]; intros skip m; cbn [Regex.matchAll]; [intros []|].
  destruct skip as [|k].
  - destruct (at_ (String c s)) as [[|n]|].
    + intros H. apply occursIn_tail. now apply (IH 0).
    + intros [<- | H]; [apply take_occursIn|].
      apply occursIn_tail. now apply (IH n).
    + intros H. apply occursIn_tail. now apply (IH 0).
  - intros H. apply occursIn_tail. now apply (IH k).
Qed.

Lemma firstLoc_occursIn :
  forall s loc, Regex.firstLoc s = Some loc -> occursIn loc s.
Proof.
  induction s as [|c s IH]; intros loc; cbn [Regex.firstLoc].
  - destruct (Regex.locAt "") as [[n inner]|] eqn:E; [|discriminate].
    unfold Regex.locAt in E. simpl in E. discriminate.
  - destruct (Regex.locAt (String c s)) as [[n inner]|] eqn:E.
    + intros [= <-]. unfold Regex.locAt in E.
      destruct (Regex.ciPrefix "<loc>" (String c s)); [|discriminate].
      destruct (Regex.ciIndexOf "</loc>" (JS.drop 5 (String c s))) as [k|];
        [|discriminate].
      destruct (Regex.hasLineTerminator _); [discriminate|].
      injection E as _ <-.
      eapply occursIn_trans; [apply take_occursIn|].
      exact (drop_occursIn 5 (String c s)).
    + intros H. apply occursIn_tail. now apply IH.
Qed.

(** The page URLs taken from the [url] elements of a document: the first
    loop of [parseSitemapUrls]. *)
Lemma parseSitemapUrls_cases (xml : string) :
  let fromUrlElements :=
    fold_left
      (fun urls m =>
         match Regex.firstLoc m with
         | Some loc => if JS.truthy loc then JS.add urls (JS.trim loc) else urls
         | None => urls
         end)
      (Regex.matchElements "url" xml) [] in
  parseSitemapUrls xml = fromUrlElements
  \/ (fromUrlElements = []
      /\ parseSitemapUrls xml
         = fold_left
             (fun urls m =>
                let loc := JS.trim (Regex.stripLocTags 0 m) in
                if negb (JS.endsWith loc ".xml") && negb (JS.includes loc "sitemap")
                then JS.add urls loc else urls)
             (Regex.matchLocs xml) []).
Proof.
  cbv zeta. unfold parseSitemapUrls.
  destruct (fold_left _ (Regex.matchElements "url" xml) []) as [|u us] eqn:E.
  - right. split; reflexivity.
  - left. reflexivity.
Qed.

(** X5. Nothing is decoded or rewritten when locations are taken from a
    sitemap: every child sitemap URL returned by [extractSitemapUrls], and
    every page URL that [parseSitemapUrls] takes from a [url] element,
    stands in the document letter for letter (white space around it
    trimmed). *)
Theorem sitemap_locations_are_literal (xml : string) :
  (forall u, In u (extractSitemapUrls xml) -> JS.includes xml u = true)
  /\ (forall u,
         In u (parseSitemapUrls xml) ->
         JS.includes xml u = true
         \/ Regex.matchLocs xml <> []
            /\ forall m loc,
                 In m (Regex.matchElements "url" xml) ->
                 Regex.firstLoc m = Some loc -> loc = EmptyString).
Proof.
  assert (Hloc : forall tag m loc,
             In m (Regex.matchElements tag xml) ->
             Regex.firstLoc m = Some loc ->
             JS.includes xml (JS.trim loc) = true).
  { intros tag m loc Hm Hl.
    apply occursIn_trans with (b := loc); [apply trim_occursIn|].
    apply occursIn_trans with (b := m); [now apply firstLoc_occursIn|].
    exact (matchAll_occursIn _ xml 0 m Hm). }
  split.
  - intros u Hu. unfold extractSitemapUrls in Hu.
    assert (H : Forall (fun u => JS.includes xml u = true)
                       (extractSitemapUrls xml)).
    { unfold extractSitemapUrls.
      assert (Hgen : forall ms acc,
                 incl ms (Regex.matchElements "sitemap" xml) ->
                 Forall (fun u => JS.includes xml u = true) acc ->
                 Forall (fun u => JS.includes xml u = true)
                   (fold_left
                      (fun urls m =>
                         match Regex.firstLoc m with
                         | Some loc =>
                             if JS.truthy loc then urls ++ [JS.trim loc] else urls
                         | None => urls
                         end) ms acc)).
      { induction ms as [|m ms IH]; intros acc Hincl Hacc; simpl; [assumption|].
        apply IH; [intros x Hx; apply Hincl; now right|].
        destruct (Regex.firstLoc m) as [loc|] eqn:El; [|assumption].
        destruct (JS.truthy loc); [|assumption].
        apply Forall_app. split; [assumption|]. constructor; [|constructor].
        apply (Hloc "sitemap" m loc); [apply Hincl; now left | assumption]. }
      apply Hgen; [apply incl_refl | constructor]. }
    rewrite Forall_forall in H. now apply H.
  - intros u Hu.
    destruct (parseSitemapUrls_cases xml) as [Heq | [Hnil Heq]]; cbv zeta in *.
    + left. rewrite Heq in Hu. clear Heq.
      assert (Hgen : forall ms acc,
                 incl ms (Regex.matchElements "url" xml) ->
                 Forall (fun u => JS.includes xml u = true) acc ->
                 Forall (fun u => JS.includes xml u = true)
                   (fold_left
                      (fun urls m =>
                         match Regex.firstLoc m with
                         | Some loc =>
                             if JS.truthy loc then JS.add urls (JS.trim loc) else urls
                         | None => urls
                         end) ms acc)).
      { induction ms as [|m ms IH]; intros acc Hincl Hacc; simpl; [assumption|].
        apply IH; [intros x Hx; apply Hincl; now right|].
        destruct (Regex.firstLoc m) as [loc|] eqn:El; [|assumption].
        destruct (JS.truthy loc); [|assumption].
        rewrite Forall_forall in *. intros y Hy. apply In_add in Hy.
        destruct Hy as [Hy | ->]; [now apply Hacc|].
        apply (Hloc "url" m loc); [apply Hincl; now left | assumption]. }
      specialize (Hgen _ [] (incl_refl _) (Forall_nil _)).
      rewrite Forall_forall in Hgen. now apply Hgen.
    + right. split.
      * intros Hno. rewrite Heq, Hno in Hu. contradiction.
      * assert (Hgen : forall ms acc,
                   fold_left
                     (fun urls m =>
                        match Regex.firstLoc m with
                        | Some loc =>
                            if JS.truthy loc then JS.add urls (JS.trim loc) else urls
                        | None => urls
                        end) ms acc = [] ->
                   forall m loc, In m ms -> Regex.firstLoc m = Some loc ->
                                 loc = EmptyString).
        { induction ms as [|m ms IH]; intros acc Hfold m' loc []; simpl in Hfold.
          - subst m'. intros El. rewrite El in Hfold.
            destruct loc as [|c loc]; [reflexivity|]. exfalso.
            cbn [JS.truthy] in Hfold.
            assert (Hne : forall xs acc',
                       acc' <> [] ->
                       fold_left
                         (fun urls m =>
                            match Regex.firstLoc m with
                            | Some loc =>
                                if JS.truthy loc then JS.add urls (JS.trim loc) else urls
                            | None => urls
                            end) xs acc' <> []).
            { induction xs as [|x xs IHx]; intros acc' Hacc'; simpl; [assumption|].
              apply IHx. destruct (Regex.firstLoc x) as [l|]; [|assumption].
              destruct (JS.truthy l); [|assumption].
              unfold JS.add. destruct (JS.has acc' (JS.trim l)); [assumption|].
              intros Happ. apply app_eq_nil in Happ. destruct Happ. discriminate. }
            apply (Hne ms _) in Hfold; [assumption|].
            unfold JS.add. destruct (JS.has acc _) eqn:Ehas; [|intros Happ;
              apply app_eq_nil in Happ; destruct Happ; discriminate].
            intros Hacc. rewrite Hacc in Ehas. discriminate.
          - now apply (IH _ Hfold). }
        intros m loc. now apply (Hgen _ [] Hnil).
Qed.

(** X4. [parseSitemapUrls] returns no URL twice. *)
Theorem parseSitemapUrls_NoDup (xml : string) : NoDup (parseSitemapUrls xml).
Proof.
  assert (Hgen : forall (B : Type) (step : list string -> B -> list string)
                        (l : list B),
             (forall acc b, step acc b = acc \/ exists x, step acc b = JS.add acc x) ->
             forall acc, NoDup acc -> NoDup (fold_left step l acc)).
  { intros B step l Hstep. induction l as [|b l IH]; intros acc Hacc; simpl;
      [assumption|].
    apply IH. destruct (Hstep acc b) as [-> | [x ->]];
      [assumption | now apply NoDup_add]. }
  unfold parseSitemapUrls.
  set (fromUrlElements := fold_left _ (Regex.matchElements "url" xml) []).
  assert (H1 : NoDup fromUrlElements).
  { apply Hgen; [|constructor]. intros acc m.
    destruct (Regex.firstLoc m) as [loc|]; [|now left].
    destruct (JS.truthy loc); [right; now eexists | now left]. }
  destruct (length fromUrlElements =? 0); [|assumption].
  apply Hgen; [|assumption]. intros acc m. cbv zeta.
  destruct (_ && _); [right; now eexists | now left].
Qed.

(* ================================================================= *)
(** ** Scoped selectors *)

Lemma split_nonempty (sep : ascii) (s : string) : JS.split sep s <> [].
Proof.
  destruct s as [|c s]; cbn [JS.split]; [discriminate|].
  destruct (Ascii.eqb c sep); [discriminate|].
  destruct (JS.split sep s); discriminate.
Qed.

Lemma split_app (sep : ascii) (a b : string) :
  JS.split sep (a ++ String sep b) = JS.split sep a ++ JS.split sep b.
Proof.
  induction a as [|c a IH]; cbn [JS.split append].
  - now rewrite Ascii.eqb_refl.
  - destruct (Ascii.eqb c sep); [now rewrite IH|].
    rewrite IH. destruct (JS.split sep a) as [|w ws] eqn:E; [|reflexivity].
    now apply split_nonempty in E.
Qed.

Lemma split_without (sep : ascii) (s : string) :
  JS.includes s (String sep "") = false -> JS.split sep s = [s].
Proof.
  induction s as [|c s IH]; cbn [JS.split JS.includes]; [reflexivity|].
  cbn [String.prefix]. destruct (ascii_dec sep c) as [<- | Hne].
  - destruct s; discriminate.
  - intros H. rewrite orb_false_l in H.
    destruct (Ascii.eqb_spec c sep) as [-> | _]; [now contradiction Hne|].
    now rewrite (IH H).
Qed.

Lemma concat_app (sep : string) (l1 l2 : list string) :
  l1 <> [] -> l2 <> [] ->
  String.concat sep (l1 ++ l2)
  = (String.concat sep l1 ++ sep ++ String.concat sep l2)%string.
Proof.
  intros H1 H2. induction l1 as [|x l1 IH]; [contradiction|].
  destruct l1 as [|y l1].
  - simpl. destruct l2; [contradiction | reflexivity].
  - change (String.concat sep ((x :: y :: l1) ++ l2))
      with (x ++ sep ++ String.concat sep ((y :: l1) ++ l2))%string.
    rewrite IH by discriminate.
    change (String.concat sep (x :: y :: l1))
      with (x ++ sep ++ String.concat sep (y :: l1))%string.
    now rewrite !append_assoc.
Qed.

(** X7. A selector list is scoped member by member: the scoped form of
    [a,b] is the scoped form of [a], a comma and a space, and the scoped
    form of [b]; and a selector with no comma becomes itself, trimmed,
    followed by a space and the target. *)
Theorem buildScopedSelector_distributes (targetSelector : string) :
  (forall a b,
      buildScopedSelector (a ++ "," ++ b) targetSelector
      = (buildScopedSelector a targetSelector ++ ", "
         ++ buildScopedSelector b targetSelector)%string)
  /\ (forall s,
         JS.includes s "," = false ->
         buildScopedSelector s targetSelector
         = (JS.trim s ++ " " ++ targetSelector)%string).
Proof.
  split.
  - intros a b. unfold buildScopedSelector.
    change ("," ++ b)%string with (String "," b).
    rewrite split_app, map_app. apply concat_app.
    + destruct (JS.split "," a) eqn:E; [now apply split_nonempty in E | discriminate].
    + destruct (JS.split "," b) eqn:E; [now apply split_nonempty in E | discriminate].
  - intros s Hs. unfold buildScopedSelector. now rewrite split_without.
Qed.

Lemma buildScopedSelector_distributes_witness :
  buildScopedSelector "main , .content" "a[href]" = "main a[href], .content a[href]"%string.
Proof.
  change (buildScopedSelector ("main " ++ "," ++ " .content") "a[href]"
          = "main a[href], .content a[href]"%string).
  rewrite (proj1 (buildScopedSelector_distributes "a[href]") "main " " .content").
  rewrite !(proj2 (buildScopedSelector_distributes "a[href]")) by reflexivity.
  reflexivity.
Defined.

(* ================================================================= *)
(** ** What the emitter delivers *)

Section DeliveryFacts.

Context {A : Type}.
Variable stringify : A -> Result string.

Lemma sendEvent_cases (data : A) (s : SSE.t) :
  SSE.isClosed s = false ->
  (exists json,
      stringify data = Ok json /\ SSE.accepting (SSE.controller s) = true
      /\ SSE.sendEvent stringify data s
         = Ok (SSE.mk false
                 (SSE.mkController true
                    (SSE.chunks (SSE.controller s) ++ [frame json]))))
  \/ (((exists e, stringify data = Throws e)
       \/ SSE.accepting (SSE.controller s) = false)
      /\ SSE.sendEvent stringify data s = Ok (SSE.mk true (SSE.controller s))).
Proof.
  intros Hopen. unfold SSE.sendEvent. rewrite Hopen.
  destruct (stringify data) as [json|e] eqn:Ej.
  - cbv zeta. unfold SSE.enqueue.
    destruct (SSE.accepting (SSE.controller s)) eqn:Ea.
    + left. exists json. repeat split.
    + right. split; [now right | reflexivity].
  - right. split; [left; now exists e | reflexivity].
Qed.

Lemma happen_closed (hs : list Happening) (s : SSE.t) :
  SSE.isClosed s = true ->
  exists s', happen stringify hs s = Ok s'
             /\ SSE.isClosed s' = true
             /\ SSE.chunks (SSE.controller s') = SSE.chunks (SSE.controller s).
Proof.
  revert s. induction hs as [|h hs IH]; intros s Hclosed.
  - now exists s.
  - destruct h as [c|]; cbn [happen].
    + rewrite (call_closed stringify c s Hclosed). now apply IH.
    + destruct (IH (cancelled s) Hclosed) as (s' & H1 & H2 & H3).
      exists s'. now repeat split.
Qed.

(** X8. Whatever is done with an emitter, calls of [sendEvent] and
    [close] with the consumer cancelling the stream at any point between
    them, no call throws, and what is appended to the stream is the frames,
    in order, of the first few events sent before the first [close()] and
    before the cancellation: events are never reordered, repeated or
    invented, only cut short.  Nothing of these is cut when the emitter
    starts open on a stream that accepts chunks and every event can be
    serialised. *)
Theorem emitter_delivers_a_prefix (hs : list Happening) (s : SSE.t) :
  exists s' ds jsons rest,
    happen stringify hs s = Ok s'
    /\ SSE.chunks (SSE.controller s')
       = SSE.chunks (SSE.controller s) ++ map frame jsons
    /\ Forall2 (fun d json => stringify d = Ok json) ds jsons
    /\ sendsBeforeEnd hs = ds ++ rest
    /\ (SSE.isClosed s = false ->
        SSE.accepting (SSE.controller s) = true ->
        (forall d, In d (sendsBeforeEnd hs) -> exists json, stringify d = Ok json) ->
        rest = []).
Proof.
  revert s. induction hs as [|h hs IH]; intros s.
  - exists s, [], [], []. cbn. rewrite app_nil_r. repeat split; auto.
  - destruct (SSE.isClosed s) eqn:Hclosed.
    + destruct (happen_closed (h :: hs) s Hclosed) as (s' & Hs' & _ & Hchunks).
      exists s', [], [], (sendsBeforeEnd (h :: hs)).
      rewrite Hs', Hchunks. cbn [map]. rewrite app_nil_r.
      repeat split; auto. discriminate.
    + destruct h as [[data|]|].
      * cbn [happen SSE.call sendsBeforeEnd].
        destruct (sendEvent_cases data s Hclosed)
          as [(json & Hj & Hacc & ->) | [Hfail ->]].
        -- destruct (IH (SSE.mk false
                           (SSE.mkController true
                              (SSE.chunks (SSE.controller s) ++ [frame json]))))
             as (s' & ds & jsons & rest & Hcalls & Hchunks & Hall & Hsplit & Hfull).
           exists s', (data :: ds), (json :: jsons), rest.
           split; [exact Hcalls|]. split.
           { rewrite Hchunks. cbn. now rewrite <- app_assoc. }
           split; [now constructor|]. split; [cbn; now rewrite Hsplit|].
           intros _ _ Hser. apply Hfull; try reflexivity.
           intros d Hd. apply Hser. now right.
        -- destruct (happen_closed hs (SSE.mk true (SSE.controller s)) eq_refl)
             as (s' & Hs' & _ & Hchunks).
           exists s', [], [], (data :: sendsBeforeEnd hs).
           rewrite Hs', Hchunks. cbn. rewrite app_nil_r.
           repeat split; auto.
           intros _ Hacc Hser. exfalso. destruct Hfail as [[e He] | Hno].
           ++ destruct (Hser data (or_introl eq_refl)) as [json Hj]. congruence.
           ++ congruence.
      * cbn [happen SSE.call sendsBeforeEnd].
        destruct (close_closes s) as [s1 [Hc Hs1]]. rewrite Hc.
        destruct (happen_closed hs s1 Hs1) as (s' & Hs' & _ & Hchunks).
        exists s', [], [], []. rewrite Hs', Hchunks.
        cbn. rewrite app_nil_r. repeat split; auto.
        unfold SSE.close in Hc. rewrite Hclosed in Hc. cbn in Hc.
        unfold SSE.closeController in Hc.
        destruct (SSE.accepting (SSE.controller s)); injection Hc as <-; reflexivity.
      * cbn [happen sendsBeforeEnd].
        assert (Hlater : forall hs' s0,
                   SSE.accepting (SSE.controller s0) = false ->
                   exists s',
                     happen stringify hs' s0 = Ok s'
                     /\ SSE.chunks (SSE.controller s')
                        = SSE.chunks (SSE.controller s0)).
        { clear. induction hs' as [|h hs' IH']; intros s0 Hacc.
          - now exists s0.
          - destruct h as [[data|]|]; cbn [happen SSE.call].
            + destruct (SSE.isClosed s0) eqn:Hcl.
              * unfold SSE.sendEvent. rewrite Hcl. now apply IH'.
              * destruct (sendEvent_cases data s0 Hcl)
                  as [(json & _ & Hacc' & _) | [_ ->]]; [congruence|].
                destruct (IH' (SSE.mk true (SSE.controller s0)) Hacc)
                  as (s' & H1 & H2).
                now exists s'.
            + unfold SSE.close, SSE.closeController. rewrite Hacc.
              destruct (negb (SSE.isClosed s0)); cbn.
              * destruct (IH' (SSE.mk true (SSE.controller s0)) Hacc)
                  as (s' & H1 & H2).
                now exists s'.
              * now apply IH'.
            + destruct (IH' (cancelled s0) eq_refl) as (s' & H1 & H2).
              now exists s'. }
        destruct (Hlater hs (cancelled s) eq_refl) as (s' & Hs' & Hchunks).
        exists s', [], [], []. rewrite Hs', Hchunks.
        cbn. rewrite app_nil_r. repeat split; auto.
Qed.

(** X9. A send that fails, because the event cannot be serialised or
    because the stream no longer accepts chunks, is swallowed: the emitter
    marks itself closed and leaves the stream as it was, without closing it.
    Every later call, [close()] included, then does nothing, so the emitter
    never closes that stream. *)
Theorem emitter_failed_send_latches (data : A) (s : SSE.t)
    (Hopen : SSE.isClosed s = false)
    (Hfail : (exists e, stringify data = Throws e)
             \/ SSE.accepting (SSE.controller s) = false) :
  exists s1,
    SSE.sendEvent stringify data s = Ok s1
    /\ SSE.isClosed s1 = true
    /\ SSE.controller s1 = SSE.controller s
    /\ forall cs s2,
         SSE.calls stringify cs s1 = Ok s2 -> SSE.controller s2 = SSE.controller s.
Proof.
  destruct (sendEvent_cases data s Hopen) as [(json & Hj & Hacc & _) | [_ Hs]].
  - exfalso. destruct Hfail as [[e He] | Hno]; congruence.
  - exists (SSE.mk true (SSE.controller s)). repeat split; [exact Hs|].
    intros cs s2. rewrite calls_closed by reflexivity. now intros [= <-].
Qed.

End DeliveryFacts.

(* ================================================================= *)
(** ** The parts of a run *)

Section RunFacts.

Variable parseURL : URL.Parser.
Variable localeCompare : string -> string -> Z.
Variable env : Env.

Local Abbreviation runLoop := (runLoop parseURL env).

(** A run without a sitemap: the start URL does not parse, the browser or
    its page does not start, or the loop over pages is run from
    [crawlStart] and crawl mode ends by [crawlEnding]. *)
Lemma GET_crawl startUrl sitemapUrl sel tr :
  hasSitemap sitemapUrl = false ->
  GET parseURL localeCompare env (Some startUrl) sitemapUrl sel
  = Some (ResponseStream tr) ->
  (parseURL startUrl = None
   /\ tr = [Send (Error (MsgFailure "Invalid URL")); CloseStream])
  \/ exists u,
       parseURL startUrl = Some u
       /\ let opening :=
            [ Send (Status starting MsgStartingCrawl 0 0 0 None);
              Send (Status browser MsgLaunching 1 0 0 None); Launch ] in
          (exists e,
              launch env = Throws e
              /\ tr = opening
                      ++ [ Send (Error (MsgFailure (messageOr e "Discovery failed")));
                           CloseStream ])
          \/ (exists ok e,
                 launch env = Ok ok /\ newPage env = Throws e
                 /\ tr = opening
                         ++ [ NewPage;
                              Send (Error (MsgFailure (messageOr e "Discovery failed")));
                              CloseBrowser; CloseStream ])
          \/ (exists ok o ext,
                 launch env = Ok ok
                 /\ runLoop (S MAX_PAGES_SAFETY) (URL.origin parseURL u) sel
                            (crawlStart parseURL startUrl) = Some o
                 /\ trace (varsOf o) = opening ++ NewPage :: ext
                 /\ forallb crawlEffect ext = true
                 /\ tr = trace (varsOf o)
                         ++ crawlEnding parseURL localeCompare o ++ [CloseStream]).
Proof.
  intros Hsm. unfold GET.
  destruct (JS.truthy startUrl); [|discriminate].
  rewrite (discover_crawl parseURL localeCompare env _ _ _ _ Hsm).
  destruct (parseURL startUrl) as [u|] eqn:Hu.
  2:{ cbn [option_map]. intros [= <-]. now left. }
  intros H. right. exists u. split; [reflexivity|]. cbv zeta.
  unfold crawlMode in H.
  destruct (launch env) as [ok|e] eqn:Hlaunch.
  2:{ left. exists e. split; [reflexivity|]. cbn in H. now injection H as <-. }
  right.
  destruct (newPage env) as [ok'|e] eqn:Hpage.
  2:{ left. exists ok, e. repeat split. cbn in H. now injection H as <-. }
  right.
  change (mkVars _ _ _ [startUrl] 0 0 _ [startUrl]) with (crawlStart parseURL startUrl) in H.
  destruct (runLoop _ _ _ (crawlStart parseURL startUrl)) as [o|] eqn:Hrun;
    [|cbn in H; discriminate].
  destruct (extends_runLoop parseURL env _ _ _ _ _ Hrun) as [(ext & Ht & HQ) _].
  exists ok, o, ext. repeat split; try assumption.
  destruct o as [vend|e vend]; cbn -[sortLinks] in H |- *;
    injection H as <-; now rewrite <- !app_assoc.
Qed.

(** A run with a sitemap, as [discover_sitemap] has it. *)
Lemma GET_sitemap startUrl sitemapUrl sel tr :
  JS.truthy sitemapUrl = true ->
  GET parseURL localeCompare env (Some startUrl) (Some sitemapUrl) sel
  = Some (ResponseStream tr) ->
  (parseURL startUrl = None
   /\ tr = [Send (Error (MsgFailure "Invalid URL")); CloseStream])
  \/ (exists u e,
         parseURL startUrl = Some u
         /\ fetchXml env sitemapUrl = Throws e
         /\ tr = [Send (Status starting MsgStartingSitemap 0 0 0 None);
                  Send (Status sitemap (MsgFetchingSitemap sitemapUrl) 1 0 0 None);
                  FetchXml sitemapUrl;
                  Send (Error (MsgSitemapFailed (messageOr e "Unknown error")));
                  CloseStream])
  \/ (exists u xml ext,
         parseURL startUrl = Some u
         /\ fetchXml env sitemapUrl = Ok xml
         /\ forallb sitemapEffect ext = true
         /\ let pages := sitemapPages parseURL env (URL.origin parseURL u) xml in
            let links :=
              sortLinks parseURL localeCompare
                (sitemapResult parseURL env startUrl (URL.origin parseURL u) xml) in
            tr = ext
                 ++ [Send (Done (MsgSitemapComplete (length pages)) links
                                (length links) (length pages) 0 0);
                     CloseStream]).
Proof.
  intros Hsm. unfold GET. destruct (JS.truthy startUrl); [|discriminate].
  destruct (discover_sitemap parseURL localeCompare env (S MAX_PAGES_SAFETY)
              startUrl sitemapUrl sel Hsm) as (tr' & -> & Hcases).
  cbn [option_map]. intros [= <-]. exact Hcases.
Qed.

Lemma quiet_of_sitemap (ext : list Effect) :
  forallb sitemapEffect ext = true -> forallb quietEffect ext = true.
Proof.
  rewrite !forallb_forall. intros H f Hf. unfold quietEffect. now rewrite (H f Hf).
Qed.

Lemma quiet_of_crawl (ext : list Effect) :
  forallb crawlEffect ext = true -> forallb quietEffect ext = true.
Proof.
  rewrite !forallb_forall. intros H f Hf. unfold quietEffect, browsingEffect.
  rewrite (H f Hf). now rewrite orb_true_r.
Qed.

Lemma sitemapEffect_no_launch (ext : list Effect) :
  forallb sitemapEffect ext = true -> ~ In Launch ext.
Proof.
  rewrite forallb_forall. intros H Hin. apply H in Hin. discriminate.
Qed.

(** How every run goes: quiet effects, then the report of how it ended,
    around the closing of the browser if one was started, then the closing
    of the stream. *)
Lemma run_shape startUrl sitemapUrl sel tr :
  GET parseURL localeCompare env (Some startUrl) sitemapUrl sel
  = Some (ResponseStream tr) ->
  exists pre tail,
    tr = pre ++ tail ++ [CloseStream]
    /\ forallb quietEffect pre = true
    /\ ((exists m, tail = [Send (Error m)]
                   /\ (In Launch pre -> exists e, launch env = Throws e))
        \/ (exists m ok, tail = [Send (Error m); CloseBrowser]
                         /\ In Launch pre /\ launch env = Ok ok)
        \/ (exists m links t fs fp ps ok,
               tail = [CloseBrowser; Send (Done m links t fs fp ps)]
               /\ In Launch pre /\ launch env = Ok ok)
        \/ (exists m links t fs fp ps,
               tail = [Send (Done m links t fs fp ps)] /\ ~ In Launch pre)).
Proof.
  intros Hget. destruct (hasSitemap sitemapUrl) eqn:Hsm.
  - destruct sitemapUrl as [sitemapUrl|]; [|discriminate]. cbn in Hsm.
    destruct (GET_sitemap _ _ _ _ Hsm Hget)
      as [[_ ->] | [(u & e & _ & _ & ->) | (u & xml & ext & _ & _ & Hext & ->)]].
    + exists [], [Send (Error (MsgFailure "Invalid URL"))].
      repeat split. left. eexists. split; [reflexivity | intros []].
    + eexists [_; _; _], [_]. split; [reflexivity|]. split; [reflexivity|].
      left. eexists. split; [reflexivity|].
      intros [H | [H | [H | []]]]; discriminate.
    + exists ext. eexists [_]. split; [reflexivity|].
      split; [now apply quiet_of_sitemap|].
      right. right. right. do 6 eexists. split; [reflexivity|].
      now apply sitemapEffect_no_launch.
  - destruct (GET_crawl _ _ _ _ Hsm Hget) as [[_ ->] | (u & _ & Hcases)].
    + exists [], [Send (Error (MsgFailure "Invalid URL"))].
      repeat split. left. eexists. split; [reflexivity | intros []].
    + cbv zeta in Hcases.
      destruct Hcases
        as [(e & Hlaunch & ->)
           | [(ok & e & Hlaunch & _ & ->)
             | (ok & o & ext & Hlaunch & _ & Ht & Hext & ->)]].
      * eexists [_; _; _], [_]. split; [reflexivity|]. split; [reflexivity|].
        left. eexists. split; [reflexivity|]. intros _. now exists e.
      * eexists [_; _; _; _], [_; _]. split; [reflexivity|]. split; [reflexivity|].
        right. left. do 2 eexists. split; [reflexivity|].
        split; [find_in_list | exact Hlaunch].
      * exists (trace (varsOf o)), (crawlEnding parseURL localeCompare o).
        split; [reflexivity|]. split.
        { rewrite Ht. cbn [app forallb]. cbn [quietEffect sitemapEffect
            browsingEffect crawlEffect isStatus orb andb].
          now apply quiet_of_crawl. }
        assert (Hin : In Launch (trace (varsOf o))) by (rewrite Ht; find_in_list).
        destruct o as [vend|e vend]; cbn [crawlEnding].
        -- right. right. left. do 6 eexists. exists ok.
           split; [reflexivity|]. now split.
        -- right. left. eexists. exists ok. split; [reflexivity|]. now split.
Qed.

(** A run of [GET] closes the stream once, as the last thing it does. *)
Lemma closes_of_run startUrl sitemapUrl sel tr :
  GET parseURL localeCompare env (Some startUrl) sitemapUrl sel
  = Some (ResponseStream tr) ->
  exists body, tr = body ++ [CloseStream] /\ ~ In CloseStream body.
Proof.
  intros Hget.
  destruct (run_shape _ _ _ _ Hget) as (pre & tail & -> & Hpre & Htail).
  exists (pre ++ tail). split; [now rewrite app_assoc|].
  rewrite in_app_iff. intros [Hin | Hin].
  - rewrite forallb_forall in Hpre. apply Hpre in Hin. discriminate.
  - destruct Htail as [(m & -> & _) | [(m & ok & -> & _)
      | [(m & l & t & fs & fp & ps & ok & -> & _) | (m & l & t & fs & fp & ps & -> & _)]]];
      cbn in Hin; intuition discriminate.
Qed.

(** The events of a run: status events, then the one that ends it. *)
Lemma run_events startUrl sitemapUrl sel tr :
  GET parseURL localeCompare env (Some startUrl) sitemapUrl sel
  = Some (ResponseStream tr) ->
  exists statuses final,
    sent tr = statuses ++ [final]
    /\ forallb isStatusEvent statuses = true
    /\ isTerminal final = true
    /\ In (Send final) tr.
Proof.
  intros Hget.
  destruct (run_shape _ _ _ _ Hget) as (pre & tail & -> & Hpre & Htail).
  assert (Hsent : forallb isStatusEvent (sent pre) = true).
  { clear Htail Hget. induction pre as [|f pre IH]; [reflexivity|].
    cbn [forallb] in Hpre. apply andb_true_iff in Hpre. destruct Hpre as [Hf Hpre].
    destruct f as [[]| | | | | | |]; cbn in Hf |- *; try discriminate; auto. }
  rewrite !sent_app.
  destruct Htail as [(m & -> & _) | [(m & ok & -> & _)
    | [(m & l & t & fs & fp & ps & ok & -> & _) | (m & l & t & fs & fp & ps & -> & _)]]];
    cbn [sent app]; rewrite ?app_nil_r; eexists _, _; split; try reflexivity;
    split; try assumption; (split; [reflexivity|]);
    rewrite in_app_iff; right; find_in_list.
Qed.

(** A run of [GET] closes the browser it started, once, and does nothing
    with it afterwards. *)
Lemma browser_of_run startUrl sitemapUrl sel tr :
  GET parseURL localeCompare env (Some startUrl) sitemapUrl sel
  = Some (ResponseStream tr) ->
  (In CloseBrowser tr <-> In Launch tr /\ exists ok, launch env = Ok ok)
  /\ (In CloseBrowser tr ->
      exists before after,
        tr = before ++ CloseBrowser :: after
        /\ ~ In CloseBrowser before
        /\ forallb (fun f => negb (isBrowserEffect f)) after = true).
Proof.
  intros Hget.
  destruct (run_shape _ _ _ _ Hget) as (pre & tail & -> & Hpre & Htail).
  assert (Hquiet : ~ In CloseBrowser pre).
  { intros Hin. rewrite forallb_forall in Hpre. apply Hpre in Hin. discriminate. }
  assert (Hlaunch : forall l, In Launch (pre ++ l ++ [CloseStream]) ->
                              ~ In Launch l -> In Launch pre).
  { intros l Hin Hno. rewrite !in_app_iff in Hin.
    destruct Hin as [Hin | [Hin | [Hin | []]]];
      [assumption | contradiction | discriminate]. }
  destruct Htail as [(m & -> & Hno) | [(m & ok & -> & Hin & Hok)
    | [(m & l & t & fs & fp & ps & ok & -> & Hin & Hok)
      | (m & l & t & fs & fp & ps & -> & Hno)]]].
  - assert (Hnone : ~ In CloseBrowser (pre ++ [Send (Error m)] ++ [CloseStream])).
    { rewrite in_app_iff. cbn. intuition discriminate. }
    split; [|intros H; contradiction]. split; [intros H; contradiction|].
    intros [Hin [ok Hok]]. exfalso.
    destruct Hno as [e He]; [|congruence].
    apply (Hlaunch _ Hin). cbn. intuition discriminate.
  - split.
    + split; [|intros _; rewrite in_app_iff; right; find_in_list].
      intros _. split; [rewrite in_app_iff; now left | now exists ok].
    + intros _. exists (pre ++ [Send (Error m)]), [CloseStream].
      split; [now rewrite <- app_assoc|]. split; [|reflexivity].
      rewrite in_app_iff. cbn. intuition discriminate.
  - split.
    + split; [|intros _; rewrite in_app_iff; right; find_in_list].
      intros _. split; [rewrite in_app_iff; now left | now exists ok].
    + intros _. exists pre, [Send (Done m l t fs fp ps); CloseStream].
      split; [reflexivity|]. split; [assumption | reflexivity].
  - assert (Hnone : ~ In CloseBrowser
                      (pre ++ [Send (Done m l t fs fp ps)] ++ [CloseStream])).
    { rewrite in_app_iff. cbn. intuition discriminate. }
    split; [|intros H; contradiction]. split; [intros H; contradiction|].
    intros [Hin _]. exfalso. apply Hno, (Hlaunch _ Hin). cbn. intuition discriminate.
Qed.

End RunFacts.

(* ================================================================= *)
(** ** What the loop over pages keeps true *)

Section LoopInvariants.

Variable parseURL : URL.Parser.
Variable env : Env.
Variable origin : string.
Variable sel : option string.

Local Abbreviation addLink := (addLink parseURL).
Local Abbreviation visitPage := (visitPage parseURL env).
Local Abbreviation loopBody := (loopBody parseURL env).
Local Abbreviation runLoop := (runLoop parseURL env).

(** A property of the variables that each step of a round keeps: an effect
    whose event, if it reports a total, reports the size of the discovered
    set; a link added; the next URL taken off the frontier, and marked
    visited while the loop condition holds. *)
Variable I : Vars -> Prop.

Hypothesis I_emit :
  forall v f,
    (forall e t, f = Send e -> totalOf e = Some t ->
                 t = length (discoveredLinks v)) ->
    I v -> I (emit f v).
Hypothesis I_addLink : forall v link, I v -> I (addLink origin v link).
Hypothesis I_shift :
  forall v url rest, pagesToVisit v = url :: rest -> I v -> I (shiftFrontier rest v).
Hypothesis I_mark :
  forall v url rest,
    pagesToVisit v = url :: rest -> loopCond v = true -> I v ->
    I (markVisited url (shiftFrontier rest v)).

Lemma invariant_fold links : forall v, I v -> I (fold_left (addLink origin) links v).
Proof.
  induction links as [|link links IH]; intros v Hv; simpl; [assumption|].
  now apply IH, I_addLink.
Qed.

Lemma invariant_visitPage url size v : I v -> I (visitPage origin sel url size v).
Proof.
  intros Hv. unfold visitPage.
  assert (Hg : I (emit (Goto url) v)) by (apply I_emit; [discriminate | assumption]).
  destruct (pageGoto _ _ _); [|assumption].
  assert (He : I (emit (EvalLinks (linkSelector sel)) (emit (Goto url) v)))
    by (apply I_emit; [discriminate | assumption]).
  destruct (pageEval _ _ _ _) as [links|]; [|assumption].
  pose proof (invariant_fold links _ He) as Hf.
  destruct (0 <? _); [|assumption].
  destruct (parseURL url); [|assumption].
  apply I_emit; [|assumption]. reported_size.
Qed.

Lemma invariant_loopBody v :
  loopCond v = true -> I v -> I (varsOf (loopBody origin sel v)).
Proof.
  intros Hc Hv. unfold loopBody.
  destruct (pagesToVisit v) as [|url rest] eqn:Hq; [assumption|].
  destruct (JS.has _ url).
  { cbn [varsOf]. now apply (I_shift v url rest). }
  pose proof (I_mark v url rest Hq Hc Hv) as H1.
  set (v1 := markVisited url (shiftFrontier rest v)) in *.
  assert (Hend : forall w, I w ->
            I (varsOf
                 (if length (pagesToVisit (visitPage origin sel url
                                             (length (discoveredLinks v1)) w)) =? 0
                  then Normal (sendEvent
                                 (Status scanning
                                    (MsgAllScanned
                                       (pagesVisited (visitPage origin sel url
                                          (length (discoveredLinks v1)) w)))
                                    (length (discoveredLinks (visitPage origin sel url
                                          (length (discoveredLinks v1)) w)))
                                    0
                                    (pagesVisited (visitPage origin sel url
                                          (length (discoveredLinks v1)) w))
                                    None)
                                 (visitPage origin sel url
                                    (length (discoveredLinks v1)) w))
                  else Normal (visitPage origin sel url
                                 (length (discoveredLinks v1)) w)))).
  { intros w Hw.
    pose proof (invariant_visitPage url (length (discoveredLinks v1)) w Hw) as H3.
    destruct (_ =? 0); cbn [varsOf]; [|assumption].
    apply I_emit; [|assumption]. reported_size. }
  destruct ((_ =? 1) || _).
  - destruct (parseURL url) as [u|]; [|exact H1].
    apply Hend. apply I_emit; [|assumption]. reported_size.
  - now apply Hend.
Qed.

Lemma invariant_runLoop fuel :
  forall v o, I v -> runLoop fuel origin sel v = Some o -> I (varsOf o).
Proof.
  induction fuel as [|fuel IH]; intros v o Hv; simpl; [discriminate|].
  destruct (loopCond v) eqn:Hc.
  - pose proof (invariant_loopBody v Hc Hv) as Hb.
    destruct (loopBody origin sel v) as [v'|e v'].
    + now apply IH.
    + intros [= <-]. exact Hb.
  - intros [= <-]. exact Hv.
Qed.

End LoopInvariants.

(* ================================================================= *)
(** ** The [done] event of a run *)

Section DoneOfRun.

Variable parseURL : URL.Parser.
Variable localeCompare : string -> string -> Z.
Variable env : Env.

Local Abbreviation runLoop := (runLoop parseURL env).
Local Abbreviation clean := (cleanUrl parseURL).

Lemma quiet_not_done pre m links t fs fp ps :
  forallb quietEffect pre = true -> ~ In (Send (Done m links t fs fp ps)) pre.
Proof.
  rewrite forallb_forall. intros H Hin. apply H in Hin. discriminate.
Qed.

(** Where the [done] event of a run comes from: the sitemap branch, or
    the loop over pages left without an exception. *)
Lemma done_of_run startUrl sitemapUrl sel tr m links t fs fp ps :
  GET parseURL localeCompare env (Some startUrl) sitemapUrl sel
  = Some (ResponseStream tr) ->
  In (Send (Done m links t fs fp ps)) tr ->
  (exists sm u xml,
      sitemapUrl = Some sm /\ JS.truthy sm = true
      /\ parseURL startUrl = Some u /\ fetchXml env sm = Ok xml
      /\ links = sortLinks parseURL localeCompare
                   (sitemapResult parseURL env startUrl (URL.origin parseURL u) xml)
      /\ t = length links
      /\ fs = length (sitemapPages parseURL env (URL.origin parseURL u) xml)
      /\ fp = 0 /\ ps = 0
      /\ navigations tr = [])
  \/ (hasSitemap sitemapUrl = false
      /\ exists u vend,
           parseURL startUrl = Some u
           /\ runLoop (S MAX_PAGES_SAFETY) (URL.origin parseURL u) sel
                      (crawlStart parseURL startUrl) = Some (Normal vend)
           /\ links = sortLinks parseURL localeCompare (discoveredLinks vend)
           /\ t = length links /\ fs = 0
           /\ fp = newLinksFromPages vend /\ ps = pagesVisited vend
           /\ navigations tr = navigations (trace vend)).
Proof.
  intros Hget Hin. destruct (hasSitemap sitemapUrl) eqn:Hsm.
  - left. destruct sitemapUrl as [sm|]; [|discriminate]. cbn in Hsm.
    destruct (GET_sitemap _ _ _ _ _ _ _ Hsm Hget)
      as [[_ ->] | [(u & e & _ & _ & ->) | (u & xml & ext & Hu & Hx & Hext & ->)]].
    + cbn in Hin. intuition discriminate.
    + cbn in Hin. intuition discriminate.
    + cbv zeta in Hin. apply in_app_iff in Hin. destruct Hin as [Hin | Hin].
      { exfalso. rewrite forallb_forall in Hext. apply Hext in Hin. discriminate. }
      destruct Hin as [Hin | [Hin | []]]; [|discriminate].
      injection Hin as <- <- <- <- <- <-.
      exists sm, u, xml. repeat split; try assumption.
      rewrite navigations_app. cbn. rewrite app_nil_r.
      clear - Hext. induction ext as [|f ext IH]; [reflexivity|].
      cbn [forallb] in Hext. apply andb_true_iff in Hext. destruct Hext as [Hf Hext].
      destruct f as [[]| | | | | | |]; cbn in Hf |- *; try discriminate; auto.
  - right. split; [reflexivity|].
    destruct (GET_crawl _ _ _ _ _ _ _ Hsm Hget) as [[_ ->] | (u & Hu & Hcases)].
    { cbn in Hin. intuition discriminate. }
    cbv zeta in Hcases.
    destruct Hcases
      as [(e & _ & ->) | [(ok & e & _ & _ & ->)
                         | (ok & o & ext & _ & Hrun & Ht & Hext & ->)]].
    + cbn in Hin. intuition discriminate.
    + cbn in Hin. intuition discriminate.
    + apply in_app_iff in Hin. destruct Hin as [Hin | Hin].
      { exfalso. rewrite Ht in Hin. cbn in Hin.
        destruct Hin as [Hin | [Hin | [Hin | [Hin | Hin]]]]; try discriminate.
        rewrite forallb_forall in Hext. apply Hext in Hin. discriminate. }
      destruct o as [vend|e vend]; cbn -[sortLinks] in Hin.
      2:{ intuition discriminate. }
      destruct Hin as [Hin | [Hin | [Hin | []]]]; try discriminate.
      injection Hin as <- <- <- <- <- <-.
      exists u, vend. repeat split; try assumption.
      rewrite navigations_app. cbn. now rewrite app_nil_r.
Qed.

End DoneOfRun.

(* ================================================================= *)
(** ** The counters of the crawl *)

Section CrawlCounts.

Variable parseURL : URL.Parser.
Variable env : Env.

Local Abbreviation addLink := (addLink parseURL).
Local Abbreviation visitPage := (visitPage parseURL env).
Local Abbreviation loopBody := (loopBody parseURL env).
Local Abbreviation runLoop := (runLoop parseURL env).
Local Abbreviation clean := (cleanUrl parseURL).

Lemma counted_addLink origin startUrl v link :
  counted parseURL origin startUrl v ->
  counted parseURL origin startUrl (addLink origin v link).
Proof.
  intros (Hnd & Hlen & Hd & Hq & Hcap). unfold addLink.
  destruct (JS.startsWith _ origin) eqn:Eo; cbn [andb];
    [|repeat split; assumption].
  destruct (isNonHtmlResource parseURL _) eqn:Er; cbn [andb negb];
    [repeat split; assumption|].
  destruct (JS.has (discoveredLinks v) _) eqn:Eh; cbn [andb negb];
    [repeat split; assumption|].
  assert (Hsite : onSite parseURL origin (clean link)) by now split.
  assert (Hlen' : length (JS.add (discoveredLinks v) (clean link))
                  = S (S (newLinksFromPages v))).
  { unfold JS.add. rewrite Eh, length_app. cbn. lia. }
  assert (Hd' : forall x, In x (JS.add (discoveredLinks v) (clean link)) ->
                          x = clean startUrl \/ onSite parseURL origin x).
  { intros x Hx. apply In_add in Hx. destruct Hx as [Hx | ->]; auto. }
  destruct (negb _); unfold counted; cbn [discoveredLinks newLinksFromPages
    enqueued pagesVisited]; repeat split; auto using NoDup_add.
  intros x Hx. apply in_app_iff in Hx. destruct Hx as [Hx | [<- | []]]; auto.
Qed.

Lemma counted_runLoop origin startUrl sel fuel v o :
  counted parseURL origin startUrl v ->
  runLoop fuel origin sel v = Some o ->
  counted parseURL origin startUrl (varsOf o).
Proof.
  apply (invariant_runLoop parseURL env origin sel
           (counted parseURL origin startUrl)).
  - intros w f _ H. exact H.
  - intros w link. apply counted_addLink.
  - intros w url rest _ H. exact H.
  - intros w url rest _ Hc (Hnd & Hlen & Hd & Hq & Hcap).
    unfold counted. cbn. repeat split; try assumption.
    unfold loopCond in Hc. apply andb_true_iff in Hc. destruct Hc as [_ Hc].
    apply Nat.ltb_lt in Hc. exact Hc.
Qed.

Lemma counted_crawlStart origin startUrl :
  counted parseURL origin startUrl (crawlStart parseURL startUrl).
Proof.
  unfold counted, crawlStart. cbn. repeat split.
  - repeat constructor. intros [].
  - intros x [<- | []]. now left.
  - intros x [<- | []]. now left.
  - apply Nat.le_0_l.
Qed.

Lemma atHead_crawlStart startUrl : atHead startUrl (crawlStart parseURL startUrl).
Proof. right. repeat split. Qed.

Lemma pages_runLoop origin sel n fuel v o :
  n <= pagesVisited v -> runLoop fuel origin sel v = Some o ->
  n <= pagesVisited (varsOf o).
Proof.
  apply (invariant_runLoop parseURL env origin sel (fun w => n <= pagesVisited w)).
  - intros w f _ H. exact H.
  - intros w link H. unfold addLink.
    destruct (_ && _ && _); [|exact H]. now destruct (negb _).
  - intros w url rest _ H. exact H.
  - intros w url rest _ _ H. cbn. now apply Nat.le_le_succ_r.
Qed.

Lemma runLoop_step fuel origin sel v :
  runLoop (S fuel) origin sel v
  = if loopCond v then
      match loopBody origin sel v with
      | Normal v' => runLoop fuel origin sel v'
      | Abrupt e v' => Some (Abrupt e v')
      end
    else Some (Normal v).
Proof. reflexivity. Qed.

(** A loop that starts on a frontier and ends by itself has taken a page. *)
Lemma pages_positive origin sel startUrl vend :
  runLoop (S MAX_PAGES_SAFETY) origin sel (crawlStart parseURL startUrl)
  = Some (Normal vend) ->
  1 <= pagesVisited vend.
Proof.
  rewrite runLoop_step.
  change (loopCond (crawlStart parseURL startUrl)) with true. cbv iota.
  pose proof (loopBody_atHead parseURL env startUrl origin sel
                (crawlStart parseURL startUrl) (atHead_crawlStart startUrl)
                eq_refl) as [_ Hpv].
  destruct (loopBody origin sel (crawlStart parseURL startUrl)) as [v1|e v1];
    [|discriminate].
  intros Hrun. cbn [varsOf] in Hpv.
  apply (pages_runLoop origin sel 1 _ v1 _) in Hrun; [exact Hrun|].
  rewrite Hpv. apply Nat.le_refl.
Qed.

Lemma visited_fold origin links :
  forall v, visited (fold_left (addLink origin) links v) = visited v.
Proof.
  induction links as [|link links IH]; intros v; simpl; [reflexivity|].
  rewrite IH. unfold addLink.
  destruct (_ && _ && _); [|reflexivity]. now destruct (negb _).
Qed.

Lemma visited_visitPage origin sel url size v :
  visited (visitPage origin sel url size v) = visited v.
Proof.
  unfold visitPage. destruct (pageGoto _ _ _); [|reflexivity].
  destruct (pageEval _ _ _ _); [|reflexivity].
  destruct (0 <? _); [|now rewrite visited_fold].
  destruct (parseURL url); simpl; now rewrite visited_fold.
Qed.

Lemma navigations_visitPage origin sel url size v :
  navigations (trace (visitPage origin sel url size v))
  = navigations (trace v) ++ [url].
Proof.
  unfold visitPage. cbn [emit trace].
  destruct (pageGoto _ _ _); [|cbn; now rewrite navigations_app].
  destruct (pageEval _ _ _ _);
    [|cbn; rewrite !navigations_app; cbn; now rewrite app_nil_r].
  destruct (0 <? _).
  - destruct (parseURL url); cbn; rewrite ?navigations_app, trace_fold; cbn;
      rewrite !navigations_app; cbn; now rewrite ?app_nil_r.
  - rewrite trace_fold. cbn. rewrite !navigations_app. cbn. now rewrite app_nil_r.
Qed.

Lemma navigated_loopBody startUrl origin sel v v' :
  atHead startUrl v -> loopCond v = true -> navigatedAll v ->
  loopBody origin sel v = Normal v' -> navigatedAll v'.
Proof.
  intros Hhead Hc Hnav. unfold loopBody.
  destruct (pagesToVisit v) as [|url rest] eqn:Hq.
  { now intros [= <-]. }
  destruct (marked_duringVisit startUrl v url rest Hhead Hq) as [Hhas _].
  change (visited (shiftFrontier rest v)) with (visited v). rewrite Hhas.
  set (v1 := markVisited url (shiftFrontier rest v)).
  assert (H1 : navigations (trace v1) ++ [url] = visited v1).
  { unfold v1. cbn. unfold JS.add. rewrite Hhas. now rewrite Hnav. }
  assert (Hend : forall w,
            navigations (trace w) = navigations (trace v1) ->
            visited w = visited v1 ->
            forall size,
              (if length (pagesToVisit (visitPage origin sel url size w)) =? 0
               then Normal (sendEvent
                              (Status scanning
                                 (MsgAllScanned
                                    (pagesVisited (visitPage origin sel url size w)))
                                 (length (discoveredLinks
                                            (visitPage origin sel url size w)))
                                 0 (pagesVisited (visitPage origin sel url size w))
                                 None)
                              (visitPage origin sel url size w))
               else Normal (visitPage origin sel url size w)) = Normal v' ->
              navigatedAll v').
  { intros w Hw1 Hw2 size H.
    assert (Hv : navigatedAll (visitPage origin sel url size w)).
    { unfold navigatedAll.
      now rewrite navigations_visitPage, visited_visitPage, Hw1, Hw2. }
    destruct (_ =? 0); injection H as <-; [|assumption].
    unfold navigatedAll in *. cbn. rewrite navigations_app. cbn.
    now rewrite app_nil_r. }
  destruct ((_ =? 1) || _).
  - destruct (parseURL url) as [u|]; [|discriminate].
    apply Hend; [|reflexivity]. cbn. rewrite navigations_app. cbn.
    now rewrite app_nil_r.
  - now apply Hend.
Qed.

Lemma navigated_runLoop startUrl origin sel fuel :
  forall v vend,
    atHead startUrl v -> navigatedAll v ->
    runLoop fuel origin sel v = Some (Normal vend) -> navigatedAll vend.
Proof.
  induction fuel as [|fuel IH]; intros v vend Hhead Hnav; simpl; [discriminate|].
  destruct (loopCond v) eqn:Hc.
  - pose proof (loopBody_atHead parseURL env startUrl origin sel v Hhead Hc)
      as [Hd _].
    pose proof (navigated_loopBody startUrl origin sel v) as Hb.
    destruct (loopBody origin sel v) as [v'|e v']; [|discriminate].
    apply IH; [now left | now apply Hb].
  - now intros [= <-].
Qed.

(** What holds of the variables when the loop of a run is left. *)
Lemma run_loop_facts origin sel startUrl o :
  runLoop (S MAX_PAGES_SAFETY) origin sel (crawlStart parseURL startUrl) = Some o ->
  let v := varsOf o in
  counted parseURL origin startUrl v
  /\ NoDup (navigations (trace v))
  /\ length (navigations (trace v)) <= pagesVisited v
  /\ incl (navigations (trace v)) (enqueued v)
  /\ (forall vend, o = Normal vend ->
        length (navigations (trace vend)) = pagesVisited vend
        /\ 1 <= pagesVisited vend).
Proof.
  intros Hrun v.
  pose proof (counted_runLoop origin startUrl sel _ _ _
                (counted_crawlStart origin startUrl) Hrun) as Hcount.
  pose proof (runLoop_atHead parseURL env startUrl origin sel _ _ _
                (atHead_crawlStart startUrl) Hrun) as Hhead.
  fold v in Hcount, Hhead.
  destruct (atHead_facts startUrl v Hhead) as (_ & Hnd & _ & Hve & Hnv & _).
  assert (Hpv : pagesVisited v = length (visited v)).
  { destruct Hhead as [(_ & _ & _ & _ & _ & _ & _ & H & _) | (-> & _ & _ & _ & ->)];
      [exact H | reflexivity]. }
  split; [exact Hcount|]. split; [exact Hnd|]. split; [|split].
  - rewrite Hpv. now apply NoDup_incl_length.
  - intros x Hx. now apply Hve, Hnv.
  - intros vend ->. cbn in v. subst v. split.
    + rewrite Hpv.
      now rewrite (navigated_runLoop startUrl origin sel _ _ _
                     (atHead_crawlStart startUrl) eq_refl Hrun).
    + now apply (pages_positive origin sel startUrl).
Qed.

End CrawlCounts.

(* ================================================================= *)
(** ** What a run reports and where it goes *)

Lemma length_fold_add_le (xs : list string) :
  forall acc, length (fold_left JS.add xs acc) <= length acc + length xs.
Proof.
  induction xs as [|x xs IH]; intros acc; simpl; [lia|].
  specialize (IH (JS.add acc x)).
  assert (length (JS.add acc x) <= S (length acc)).
  { unfold JS.add. destruct (JS.has acc x); [lia|]. rewrite length_app. simpl. lia. }
  lia.
Qed.

Lemma sitemapEffect_navigations (ext : list Effect) :
  forallb sitemapEffect ext = true -> navigations ext = [].
Proof.
  induction ext as [|f ext IH]; [reflexivity|].
  cbn [forallb]. rewrite andb_true_iff. intros [Hf Hext].
  destruct f as [[]| | | | | | |]; cbn in Hf |- *; try discriminate; auto.
Qed.

Section RunCounts.

Variable parseURL : URL.Parser.
Variable localeCompare : string -> string -> Z.
Variable env : Env.

Local Abbreviation runLoop := (runLoop parseURL env).
Local Abbreviation clean := (cleanUrl parseURL).

(** The pages a run navigates to: none, or those of the loop over
    pages. *)
Lemma navigations_of_run startUrl sitemapUrl sel tr :
  GET parseURL localeCompare env (Some startUrl) sitemapUrl sel
  = Some (ResponseStream tr) ->
  navigations tr = []
  \/ (hasSitemap sitemapUrl = false
      /\ exists u o,
           parseURL startUrl = Some u
           /\ runLoop (S MAX_PAGES_SAFETY) (URL.origin parseURL u) sel
                      (crawlStart parseURL startUrl) = Some o
           /\ navigations tr = navigations (trace (varsOf o))).
Proof.
  intros Hget. destruct (hasSitemap sitemapUrl) eqn:Hsm.
  - left. destruct sitemapUrl as [sm|]; [|discriminate]. cbn in Hsm.
    destruct (GET_sitemap _ _ _ _ _ _ _ Hsm Hget)
      as [[_ ->] | [(u & e & _ & _ & ->) | (u & xml & ext & _ & _ & Hext & ->)]];
      try reflexivity.
    cbv zeta. rewrite navigations_app, (sitemapEffect_navigations _ Hext).
    reflexivity.
  - destruct (GET_crawl _ _ _ _ _ _ _ Hsm Hget) as [[_ ->] | (u & Hu & Hcases)];
      [now left|].
    cbv zeta in Hcases.
    destruct Hcases
      as [(e & _ & ->) | [(ok & e & _ & _ & ->)
                         | (ok & o & ext & _ & Hrun & _ & _ & ->)]];
      [now left | now left |].
    right. split; [reflexivity|]. exists u, o. repeat split; try assumption.
    rewrite navigations_app.
    destruct o; cbn; now rewrite app_nil_r.
Qed.

(** X13. The counts of a [done] event add up.  With a sitemap no page
    was scanned and none found by crawling, and the total is at least one
    and at most one more than the pages counted from the sitemap (which
    counts repeats).  Without one nothing is counted from a sitemap, the
    total is one more than the links counted as found on pages, and
    between one and [MAX_PAGES_SAFETY] pages were scanned. *)
Theorem done_counts_add_up startUrl sitemapUrl sel tr m links t fs fp ps :
  GET parseURL localeCompare env (Some startUrl) sitemapUrl sel
  = Some (ResponseStream tr) ->
  In (Send (Done m links t fs fp ps)) tr ->
  if hasSitemap sitemapUrl
  then fp = 0 /\ ps = 0 /\ 1 <= t <= fs + 1
  else fs = 0 /\ t = fp + 1 /\ 1 <= ps <= MAX_PAGES_SAFETY.
Proof.
  intros Hget Hin.
  destruct (done_of_run _ _ _ _ _ _ _ _ _ _ _ _ _ Hget Hin)
    as [(sm & u & xml & -> & Hsm & Hu & Hx & -> & -> & -> & -> & -> & _)
       | (Hsm & u & vend & Hu & Hrun & -> & -> & -> & -> & -> & _)].
  - cbn [hasSitemap]. rewrite Hsm. split; [reflexivity|]. split; [reflexivity|].
    unfold sortLinks. rewrite length_sort. unfold sitemapResult, dedup.
    split.
    + assert (Hin' : In (clean startUrl)
                        (fold_left JS.add
                           (clean startUrl
                            :: map clean (sitemapPages parseURL env
                                            (URL.origin parseURL u) xml)) []))
        by (apply In_fold_add; right; now left).
      destruct (fold_left _ _ _); [contradiction | cbn; lia].
    + pose proof (length_fold_add_le
                    (clean startUrl
                     :: map clean (sitemapPages parseURL env
                                     (URL.origin parseURL u) xml)) []) as H.
      cbn [length] in H. rewrite length_map in H. lia.
  - rewrite Hsm.
    destruct (run_loop_facts parseURL env _ _ _ _ Hrun)
      as ((_ & Hlen & _ & _ & Hcap) & _ & _ & _ & Hnormal).
    destruct (Hnormal vend eq_refl) as [_ Hpos]. cbn [varsOf] in *.
    unfold sortLinks. rewrite length_sort.
    repeat split; try assumption. lia.
Qed.

(** The links of a [done] event are a sorted copy of a set. *)
Lemma run_done_set startUrl sitemapUrl sel tr m links t fs fp ps :
  GET parseURL localeCompare env (Some startUrl) sitemapUrl sel
  = Some (ResponseStream tr) ->
  In (Send (Done m links t fs fp ps)) tr ->
  exists d, links = sortLinks parseURL localeCompare d /\ NoDup d.
Proof.
  intros Hget Hin.
  destruct (done_of_run _ _ _ _ _ _ _ _ _ _ _ _ _ Hget Hin)
    as [(sm & u & xml & _ & _ & _ & _ & -> & _)
       | (_ & u & vend & _ & Hrun & -> & _)];
    eexists; (split; [reflexivity|]).
  - unfold sitemapResult, dedup. apply NoDup_fold_add. constructor.
  - destruct (run_loop_facts parseURL env _ _ _ _ Hrun) as ((Hnd & _) & _).
    exact Hnd.
Qed.

(** X14. The links of a [done] event are pairwise distinct, in both
    modes. *)
Theorem done_links_distinct startUrl sitemapUrl sel tr m links t fs fp ps :
  GET parseURL localeCompare env (Some startUrl) sitemapUrl sel
  = Some (ResponseStream tr) ->
  In (Send (Done m links t fs fp ps)) tr ->
  NoDup links.
Proof.
  intros Hget Hin.
  destruct (run_done_set _ _ _ _ _ _ _ _ _ _ Hget Hin) as (d & -> & Hnd).
  unfold sortLinks. eapply Permutation_NoDup; [apply sort_perm | exact Hnd].
Qed.

(** X15. A crawl stays on the site, as its test has it: every page it
    navigates to is the start URL or a link that starts with the origin of
    the start URL and is no resource file, and every link it reports is the
    canonical start URL or such a link. *)
Theorem crawl_stays_on_site startUrl sitemapUrl sel tr u :
  hasSitemap sitemapUrl = false ->
  parseURL startUrl = Some u ->
  GET parseURL localeCompare env (Some startUrl) sitemapUrl sel
  = Some (ResponseStream tr) ->
  (forall url, In url (navigations tr) ->
               url = startUrl \/ onSite parseURL (URL.origin parseURL u) url)
  /\ (forall m links t fs fp ps link,
         In (Send (Done m links t fs fp ps)) tr -> In link links ->
         link = clean startUrl \/ onSite parseURL (URL.origin parseURL u) link).
Proof.
  intros Hsm Hu Hget. split.
  - intros url Hin.
    destruct (navigations_of_run _ _ _ _ Hget)
      as [Hnone | (_ & u' & o & Hu' & Hrun & Hnav)].
    { rewrite Hnone in Hin. contradiction. }
    assert (u' = u) by congruence. subst u'.
    destruct (run_loop_facts parseURL env _ _ _ _ Hrun)
      as ((_ & _ & _ & Hq & _) & _ & _ & Hincl & _).
    apply Hq, Hincl. now rewrite <- Hnav.
  - intros m links t fs fp ps link Hin Hlink.
    destruct (done_of_run _ _ _ _ _ _ _ _ _ _ _ _ _ Hget Hin)
      as [(sm & _ & _ & -> & Hsm' & _) | (_ & u' & vend & Hu' & Hrun & -> & _)].
    { cbn in Hsm. congruence. }
    assert (u' = u) by congruence. subst u'.
    destruct (run_loop_facts parseURL env _ _ _ _ Hrun) as ((_ & _ & Hd & _) & _).
    apply Hd. cbn [varsOf]. unfold sortLinks in Hlink. now apply In_sort in Hlink.
Qed.

(** X16. No run navigates to the same URL twice or to more than
    [MAX_PAGES_SAFETY] pages, and the pages a [done] event reports as
    scanned are as many as were navigated to. *)
Theorem pages_navigated_once_within_cap startUrl sitemapUrl sel tr :
  GET parseURL localeCompare env (Some startUrl) sitemapUrl sel
  = Some (ResponseStream tr) ->
  NoDup (navigations tr)
  /\ length (navigations tr) <= MAX_PAGES_SAFETY
  /\ forall m links t fs fp ps,
       In (Send (Done m links t fs fp ps)) tr -> ps = length (navigations tr).
Proof.
  intros Hget. split; [|split].
  - destruct (navigations_of_run _ _ _ _ Hget)
      as [-> | (_ & u & o & _ & Hrun & ->)]; [constructor|].
    now destruct (run_loop_facts parseURL env _ _ _ _ Hrun) as (_ & Hnd & _).
  - destruct (navigations_of_run _ _ _ _ Hget)
      as [-> | (_ & u & o & _ & Hrun & ->)]; [apply Nat.le_0_l|].
    destruct (run_loop_facts parseURL env _ _ _ _ Hrun)
      as ((_ & _ & _ & _ & Hcap) & _ & Hle & _).
    now apply Nat.le_trans with (m := pagesVisited (varsOf o)).
  - intros m links t fs fp ps Hin.
    destruct (done_of_run _ _ _ _ _ _ _ _ _ _ _ _ _ Hget Hin)
      as [(sm & u & xml & _ & _ & _ & _ & _ & _ & _ & _ & -> & ->)
         | (_ & u & vend & _ & Hrun & _ & _ & _ & _ & -> & ->)];
      [reflexivity|].
    destruct (run_loop_facts parseURL env _ _ _ _ Hrun) as (_ & _ & _ & _ & Hn).
    now destruct (Hn vend eq_refl) as [-> _].
Qed.

End RunCounts.

(* ================================================================= *)
(** ** Reported totals and fetched documents *)

Lemma totals_app (tr1 tr2 : list Effect) :
  totals (tr1 ++ tr2) = totals tr1 ++ totals tr2.
Proof.
  induction tr1 as [|f tr1 IH]; simpl; [reflexivity|].
  destruct f as [e| | | | | | |]; simpl; rewrite ?IH; try reflexivity.
  now destruct (totalOf e).
Qed.

Lemma fetches_app (tr1 tr2 : list Effect) :
  fetches (tr1 ++ tr2) = fetches tr1 ++ fetches tr2.
Proof.
  induction tr1 as [|f tr1 IH]; simpl; [reflexivity|].
  destruct f; simpl; now rewrite ?IH.
Qed.

Lemma sorted_snoc (l : list nat) (t : nat) :
  StronglySorted le l -> Forall (fun x => x <= t) l -> StronglySorted le (l ++ [t]).
Proof.
  induction 1 as [|x l Hl IH Hx]; intros Hall; simpl.
  - repeat constructor.
  - inversion Hall; subst. constructor; [now apply IH|].
    apply Forall_app. split; [assumption | now repeat constructor].
Qed.

Lemma steady_emit (v : Vars) (f : Effect) :
  (forall e t, f = Send e -> totalOf e = Some t -> t = length (discoveredLinks v)) ->
  steady v -> steady (emit f v).
Proof.
  intros Hf [Hs Hb]. unfold steady. cbn [emit trace discoveredLinks].
  rewrite totals_app.
  destruct f as [e| | | | | | |]; cbn [totals]; rewrite ?app_nil_r; try now split.
  destruct (totalOf e) as [t|] eqn:Et; rewrite ?app_nil_r; [|now split].
  rewrite (Hf e t eq_refl Et). split.
  - now apply sorted_snoc.
  - apply Forall_app. split; [assumption | now repeat constructor].
Qed.

Lemma steady_grow (v v' : Vars) :
  trace v' = trace v -> length (discoveredLinks v) <= length (discoveredLinks v') ->
  steady v -> steady v'.
Proof.
  intros Ht Hlen [Hs Hb]. unfold steady. rewrite Ht. split; [assumption|].
  eapply Forall_impl; [|exact Hb]. cbv beta. intros t Hle. lia.
Qed.

Section Growth.

Variable parseURL : URL.Parser.
Variable localeCompare : string -> string -> Z.
Variable env : Env.

Local Abbreviation runLoop := (runLoop parseURL env).
Local Abbreviation clean := (cleanUrl parseURL).

Lemma steady_runLoop origin sel fuel v o :
  steady v -> runLoop fuel origin sel v = Some o -> steady (varsOf o).
Proof.
  apply (invariant_runLoop parseURL env origin sel steady).
  - intros w f Hf. now apply steady_emit.
  - intros w link. apply steady_grow.
    + unfold addLink. destruct (_ && _ && _); [|reflexivity]. now destruct (negb _).
    + unfold addLink. destruct (_ && _ && _); [|apply Nat.le_refl].
      destruct (negb _); apply length_add_le.
  - intros w url rest _. now apply steady_grow.
  - intros w url rest _ _. now apply steady_grow.
Qed.

Lemma grows_refl v : grows [] v v.
Proof. split; [now rewrite app_nil_r | auto]. Qed.

Lemma grows_trans a b v1 v2 v3 :
  grows a v1 v2 -> grows b v2 v3 -> grows (a ++ b) v1 v3.
Proof.
  intros [F1 S1] [F2 S2]. split; [|auto]. now rewrite F2, F1, app_assoc.
Qed.

Lemma grows_emit v f :
  (forall e t, f = Send e -> totalOf e = Some t -> t = length (discoveredLinks v)) ->
  grows (fetches [f]) v (emit f v).
Proof.
  intros Hf. split; [cbn [emit trace]; apply fetches_app | now apply steady_emit].
Qed.

Lemma grows_send v e :
  (forall t, totalOf e = Some t -> t = length (discoveredLinks v)) ->
  grows [] v (sendEvent e v).
Proof.
  intros He. apply (grows_emit v (Send e)).
  intros e' t [= <-]. apply He.
Qed.

Lemma grows_addSitemapUrl origin v url :
  grows [] v (addSitemapUrl parseURL origin v url).
Proof.
  unfold addSitemapUrl. destruct (_ && _); [|apply grows_refl].
  split; [cbn; now rewrite app_nil_r|].
  apply steady_grow; [reflexivity | apply length_add_le].
Qed.

Lemma grows_fold origin urls :
  forall v, grows [] v (fold_left (addSitemapUrl parseURL origin) urls v).
Proof.
  induction urls as [|url urls IH]; intros v; simpl; [apply grows_refl|].
  change (@nil string) with (@nil string ++ @nil string).
  eapply grows_trans; [apply grows_addSitemapUrl | apply IH].
Qed.

Lemma grows_fetches batch :
  forall v, grows batch v (fold_left (fun v url => emit (FetchXml url) v) batch v).
Proof.
  induction batch as [|url batch IH]; intros v; simpl; [apply grows_refl|].
  change (url :: batch) with ([url] ++ batch).
  eapply grows_trans; [apply (grows_emit v (FetchXml url)); discriminate | apply IH].
Qed.

Lemma grows_processBatch origin cs i v :
  grows (firstn PARALLEL_LIMIT (skipn i cs)) v
        (processBatch parseURL env origin cs i v).
Proof.
  unfold processBatch. rewrite fold_left_concat.
  set (batch := firstn PARALLEL_LIMIT (skipn i cs)).
  pose proof (grows_fetches batch v) as H1.
  pose proof (grows_fold origin (concat (map (fetchChild env) batch))
                (fold_left (fun v url => emit (FetchXml url) v) batch v)) as H2.
  pose proof (grows_trans _ _ _ _ _ H1 H2) as H12.
  match goal with |- grows _ _ (sendEvent ?e ?w) =>
    assert (H3 : grows [] w (sendEvent e w))
      by (apply grows_send; reported_total) end.
  pose proof (grows_trans _ _ _ _ _ H12 H3) as H.
  now rewrite !app_nil_r in H.
Qed.

Lemma grows_batchLoop origin cs :
  forall fuel i v,
    length cs <= fuel + i ->
    grows (skipn i cs) v (batchLoop parseURL env fuel origin cs i v).
Proof.
  induction fuel as [|fuel IH]; intros i v Hlen; simpl.
  - rewrite skipn_all2 by lia. apply grows_refl.
  - destruct (i <? length cs) eqn:E.
    + rewrite <- (firstn_skipn PARALLEL_LIMIT (skipn i cs)) at 1.
      rewrite skipn_skipn.
      eapply grows_trans; [apply grows_processBatch|].
      rewrite Nat.add_comm. apply IH. unfold PARALLEL_LIMIT. lia.
    + apply Nat.ltb_ge in E. rewrite skipn_all2 by lia. apply grows_refl.
Qed.

Lemma grows_sitemapParsed origin xml v :
  grows (if isSitemapIndex xml then extractSitemapUrls xml else []) v
        (sitemapParsed parseURL localeCompare env origin xml v).
Proof.
  unfold sitemapParsed.
  set (mid := if isSitemapIndex xml then batchLoop _ _ _ _ _ _ _ else _).
  assert (Hmid : grows (if isSitemapIndex xml then extractSitemapUrls xml else [])
                       v mid).
  { unfold mid. destruct (isSitemapIndex xml).
    - change (extractSitemapUrls xml) with ([] ++ skipn 0 (extractSitemapUrls xml)).
      eapply grows_trans; cycle 1.
      + apply grows_batchLoop. lia.
      + apply grows_send. reported_total.
    - change (@nil string) with (@nil string ++ @nil string).
      eapply grows_trans; cycle 1.
      + apply grows_fold.
      + apply grows_send. reported_total. }
  clearbody mid. cbv zeta.
  rewrite <- (app_nil_r (if isSitemapIndex xml then _ else _)).
  eapply grows_trans; [exact Hmid|].
  change (@nil string) with (@nil string ++ @nil string).
  eapply grows_trans; cycle 1.
  - apply grows_send. reported_total.
    unfold sortLinks. now rewrite length_sort.
  - apply grows_send. reported_total.
Qed.

Lemma grows_sitemapMode origin sitemapUrl v :
  grows (sitemapRequests env sitemapUrl) v
        (sitemapMode parseURL localeCompare env origin sitemapUrl v).
Proof.
  unfold sitemapMode, sitemapRequests.
  change (sitemapUrl :: ?l) with ([] ++ [sitemapUrl] ++ l).
  eapply grows_trans; cycle 1.
  { eapply grows_trans; cycle 1.
    - destruct (fetchXml env sitemapUrl) as [xml|e].
      + apply grows_sitemapParsed.
      + apply grows_send. discriminate.
    - apply (grows_emit _ (FetchXml sitemapUrl)). discriminate. }
  apply grows_send. reported_total.
Qed.

(** A run with a sitemap and a start URL that parses is the sitemap
    branch, between the seeding of the discovered set and the closing of
    the stream. *)
Lemma GET_sitemap_vars startUrl sitemapUrl sel tr u :
  JS.truthy sitemapUrl = true ->
  parseURL startUrl = Some u ->
  GET parseURL localeCompare env (Some startUrl) (Some sitemapUrl) sel
  = Some (ResponseStream tr) ->
  tr = trace (sitemapMode parseURL localeCompare env (URL.origin parseURL u)
                          sitemapUrl (seeded (clean startUrl) true))
       ++ [CloseStream].
Proof.
  intros Hsm Hu. unfold GET, discover.
  destruct (JS.truthy startUrl); [|discriminate].
  rewrite Hu, Hsm. cbn [option_map]. intros [= <-]. reflexivity.
Qed.

Lemma steady_seeded c b : steady (seeded c b).
Proof.
  unfold steady. cbn. split; repeat constructor.
Qed.


(** X18. The totals that the events of a run report never go down, from
    the first status event to the [done] event. *)
Theorem reported_totals_never_decrease startUrl sitemapUrl sel tr :
  GET parseURL localeCompare env (Some startUrl) sitemapUrl sel
  = Some (ResponseStream tr) ->
  StronglySorted le (totals tr).
Proof.
  intros Hget. destruct (hasSitemap sitemapUrl) eqn:Hsm.
  - destruct sitemapUrl as [sm|]; [|discriminate]. cbn in Hsm.
    destruct (parseURL startUrl) as [u|] eqn:Hu.
    + rewrite (GET_sitemap_vars _ _ _ _ _ Hsm Hu Hget), totals_app.
      cbn [totals]. rewrite app_nil_r.
      destruct (grows_sitemapMode (URL.origin parseURL u) sm
                  (seeded (clean startUrl) true)) as [_ Hs].
      now destruct (Hs (steady_seeded _ _)).
    + destruct (GET_sitemap _ _ _ _ _ _ _ Hsm Hget)
        as [[_ ->] | [(u & e & Hu' & _) | (u & xml & ext & Hu' & _)]];
        [constructor | congruence | congruence].
  - destruct (GET_crawl _ _ _ _ _ _ _ Hsm Hget) as [[_ ->] | (u & _ & Hcases)];
      [constructor|].
    cbv zeta in Hcases.
    destruct Hcases
      as [(e & _ & ->) | [(ok & e & _ & _ & ->)
                         | (ok & o & ext & _ & Hrun & _ & _ & ->)]].
    + cbn. repeat constructor.
    + cbn. repeat constructor.
    + assert (Hstart : steady (crawlStart parseURL startUrl)).
      { unfold steady. cbn. split; repeat constructor. }
      destruct (steady_runLoop _ _ _ _ _ Hstart Hrun) as [Hs Hb].
      rewrite !totals_app. destruct o as [vend|e vend]; cbn -[sortLinks] in *.
      * rewrite ?app_nil_r. apply sorted_snoc; [assumption|].
        unfold sortLinks. now rewrite length_sort.
      * now rewrite ?app_nil_r.
Qed.

End Growth.

(* ================================================================= *)
(** ** An index that lists no child *)

Section EmptyIndex.

Variable parseURL : URL.Parser.
Variable localeCompare : string -> string -> Z.
Variable env : Env.


(** X6. When the sitemap is taken for an index and no child can be read
    from it, the run reports the canonical start URL alone, whatever pages
    the document lists itself: they are not looked at. *)
Theorem index_without_children_reports_start_only
    (startUrl sitemapUrl : string) (sel : option string) (tr : list Effect)
    (u : URL.t) (xml : string) :
  JS.truthy sitemapUrl = true ->
  parseURL startUrl = Some u ->
  fetchXml env sitemapUrl = Ok xml ->
  isSitemapIndex xml = true ->
  extractSitemapUrls xml = [] ->
  GET parseURL localeCompare env (Some startUrl) (Some sitemapUrl) sel
  = Some (ResponseStream tr) ->
  filter isDone (sent tr)
  = [Done (MsgSitemapComplete 0) [cleanUrl parseURL startUrl] 1 0 0 0].
Proof.
  intros Hsm Hu Hx Hindex Hnone Hget.
  - destruct (GET_sitemap _ _ _ _ _ _ _ Hsm Hget)
      as [[Hu' _] | [(u' & e & _ & Hx' & _) | (u' & xml' & ext & Hu' & Hx' & Hext & ->)]];
      [congruence | congruence |].
    assert (u' = u) by congruence. assert (xml' = xml) by congruence. subst u' xml'.
    assert (Hpages : sitemapPages parseURL env (URL.origin parseURL u) xml = []).
    { unfold sitemapPages, flatten. now rewrite Hindex, Hnone. }
    cbv zeta. rewrite sent_app, filter_app, (sitemapEffect_no_dones _ Hext).
    unfold sitemapResult. rewrite Hpages. reflexivity.
Qed.

End EmptyIndex.

(* ================================================================= *)
(** ** The client and the route together *)

Lemma dedup_NoDup (l : list string) : NoDup l -> fold_left JS.add l [] = l.
Proof.
  assert (H : forall l acc, NoDup (acc ++ l) -> fold_left JS.add l acc = acc ++ l).
  { clear l. induction l as [|x l IH]; intros acc Hnd; simpl.
    - now rewrite app_nil_r.
    - assert (Hx : JS.has acc x = false).
      { apply has_notIn. intros Hin. apply NoDup_remove_2 in Hnd. apply Hnd.
        apply in_app_iff. now left. }
      unfold JS.add at 2. rewrite Hx.
      rewrite IH; rewrite <- app_assoc; [reflexivity | exact Hnd]. }
  intros Hnd. now apply (H l []).
Qed.

Lemma orNat_same (n : nat) : Client.orNat n n = n.
Proof. unfold Client.orNat. now destruct (n =? 0). Qed.

Lemma orNat_zero (n : nat) : Client.orNat n 0 = n.
Proof.
  unfold Client.orNat. destruct (n =? 0) eqn:E; [|reflexivity].
  apply Nat.eqb_eq in E. now subst.
Qed.

Section ClientFacts.

Variable render : Message -> string.
Variable parseURL : URL.Parser.
Variable localeCompare : string -> string -> Z.
Variable env : Env.

Local Abbreviation dispatch := (Client.dispatch render).

(** Status events change the progress shown and nothing else. *)
Lemma dispatch_statuses (evs : list Event) :
  forallb isStatusEvent evs = true ->
  forall s,
    Client.connected s = true ->
    exists progress,
      fold_left dispatch evs s
      = Client.mkState (Client.phase s) (Client.discoveredLinks s)
          (Client.selectedLinks s) (Client.pendingStartUrl s)
          (Client.pendingSitemapUrl s) (Client.pendingResetCallback s)
          progress (Client.discoveryEventSource s) (Client.alertState s) true.
Proof.
  induction evs as [|e evs IH]; intros Hall s Hc.
  - exists (Client.discoveryProgress s). destruct s. cbn in Hc |- *. now subst.
  - cbn [forallb] in Hall. apply andb_true_iff in Hall. destruct Hall as [He Hall].
    destruct e as [p m t fs ps cur| |]; try discriminate.
    cbn [fold_left].
    assert (Hstep : dispatch s (Status p m t fs ps cur)
                    = Client.onmessage render (Status p m t fs ps cur) s).
    { unfold Client.dispatch. now rewrite Hc. }
    rewrite Hstep.
    destruct (IH Hall (Client.onmessage render (Status p m t fs ps cur) s) Hc)
      as [progress ->].
    now exists progress.
Qed.


End ClientFacts.

(* ================================================================= *)
(** ** Runs with awaits that do not come back *)

Lemma trace_fetches (batch : list string) :
  forall v,
    trace (fold_left (fun v url => emit (FetchXml url) v) batch v)
    = trace v ++ map FetchXml batch.
Proof.
  induction batch as [|url batch IH]; intros v; cbn [fold_left map].
  - now rewrite app_nil_r.
  - rewrite IH. cbn [emit trace]. now rewrite <- app_assoc.
Qed.

Lemma crawlEffect_fetches (ext : list Effect) :
  forallb crawlEffect ext = true -> fetches ext = [].
Proof.
  induction ext as [|f ext IH]; [reflexivity|].
  cbn [forallb]. rewrite andb_true_iff. intros [Hf Hext].
  destruct f as [[]| | | | | | |]; cbn in Hf |- *; try discriminate; auto.
Qed.

Lemma fetches_In (tr : list Effect) (url : string) :
  In url (fetches tr) <-> In (FetchXml url) tr.
Proof.
  induction tr as [|f tr IH]; [reflexivity|].
  destruct f; cbn [fetches In]; rewrite ?IH; split;
    try (intros [H | H]; [discriminate | assumption]); try tauto.
  - intros [-> | H]; [now left | now right].
  - intros [[= ->] | H]; [now left | now right].
Qed.

Section AwaitingFacts.

Variable parseURL : URL.Parser.
Variable localeCompare : string -> string -> Z.
Variable env : Env.
Variable pending : string -> bool.
Variable closeBrowser : Result unit.

Local Abbreviation clean := (cleanUrl parseURL).

(** The trace has grown by status events and fetches. *)
Local Abbreviation grown v v' :=
  (exists ext, trace v' = trace v ++ ext /\ forallb sitemapEffect ext = true).

(** Where the task waits, a document it asked for is pending. *)
Local Abbreviation waitsAt v v' :=
  (grown v v' /\ exists url, In (FetchXml url) (trace v') /\ pending url = true).

Lemma grown_refl v : grown v v.
Proof. exists []. now rewrite app_nil_r. Qed.

Lemma grown_trans v1 v2 v3 : grown v1 v2 -> grown v2 v3 -> grown v1 v3.
Proof.
  intros (e1 & T1 & Q1) (e2 & T2 & Q2). exists (e1 ++ e2).
  rewrite T2, T1, <- app_assoc, forallb_app, Q1, Q2. now split.
Qed.

Lemma grown_send e v : isStatusEvent e = true -> grown v (sendEvent e v).
Proof.
  intros He. exists [Send e]. split; [reflexivity|].
  destruct e; try discriminate. reflexivity.
Qed.

Lemma grown_absorbed origin urls v v' :
  absorbed parseURL origin urls v v' -> grown v v'.
Proof. now intros (_ & _ & H). Qed.

Lemma waitsAt_after v1 v2 v3 : grown v1 v2 -> waitsAt v2 v3 -> waitsAt v1 v3.
Proof.
  intros H12 [H23 Hurl]. split; [exact (grown_trans _ _ _ H12 H23) | exact Hurl].
Qed.

Lemma await_processBatch origin cs i v :
  match Awaiting.processBatch parseURL env pending origin cs i v with
  | Goes v' =>
      v' = processBatch parseURL env origin cs i v
      /\ Forall (fun url => pending url = false)
                (firstn PARALLEL_LIMIT (skipn i cs))
  | Waits v' => waitsAt v v'
  end.
Proof.
  unfold Awaiting.processBatch.
  destruct (existsb pending (firstn PARALLEL_LIMIT (skipn i cs))) eqn:E.
  - split.
    + exact (grown_absorbed _ _ _ _ (absorbed_fetches parseURL origin _ v)).
    + apply existsb_exists in E. destruct E as (url & Hin & Hp).
      exists url. split; [|exact Hp].
      rewrite trace_fetches. apply in_or_app. right. now apply in_map.
  - split; [reflexivity|]. rewrite Forall_forall. intros url Hin.
    destruct (pending url) eqn:Hp; [|reflexivity].
    assert (existsb pending (firstn PARALLEL_LIMIT (skipn i cs)) = true)
      by (apply existsb_exists; now exists url).
    congruence.
Qed.

Lemma await_batchLoop origin cs :
  forall fuel i v,
    length cs <= fuel + i ->
    match Awaiting.batchLoop parseURL env pending fuel origin cs i v with
    | Goes v' =>
        v' = batchLoop parseURL env fuel origin cs i v
        /\ Forall (fun url => pending url = false) (skipn i cs)
    | Waits v' => waitsAt v v'
    end.
Proof.
  induction fuel as [|fuel IH]; intros i v Hlen; cbn [Awaiting.batchLoop batchLoop].
  - split; [reflexivity|]. rewrite skipn_all2 by lia. constructor.
  - destruct (i <? length cs) eqn:E.
    + pose proof (await_processBatch origin cs i v) as Hb.
      destruct (Awaiting.processBatch parseURL env pending origin cs i v)
        as [v1|v1]; [|exact Hb].
      destruct Hb as [-> Hbatch].
      specialize (IH (i + PARALLEL_LIMIT)
                     (processBatch parseURL env origin cs i v)
                     ltac:(unfold PARALLEL_LIMIT; lia)).
      destruct (Awaiting.batchLoop parseURL env pending fuel origin cs
                  (i + PARALLEL_LIMIT) (processBatch parseURL env origin cs i v))
        as [v2|v2].
      * destruct IH as [-> Hrest]. split; [reflexivity|].
        rewrite <- (firstn_skipn PARALLEL_LIMIT (skipn i cs)).
        apply Forall_app. split; [exact Hbatch|].
        rewrite skipn_skipn, Nat.add_comm. exact Hrest.
      * eapply waitsAt_after; [|exact IH].
        exact (grown_absorbed _ _ _ _
                 (absorbed_processBatch parseURL env origin cs i v)).
    + split; [reflexivity|]. apply Nat.ltb_ge in E.
      rewrite skipn_all2 by lia. constructor.
Qed.

Lemma await_sitemapParsed origin xml v :
  match Awaiting.sitemapParsed parseURL localeCompare env pending origin xml v with
  | Goes v' =>
      v' = sitemapParsed parseURL localeCompare env origin xml v
      /\ Forall (fun url => pending url = false)
                (if isSitemapIndex xml then extractSitemapUrls xml else [])
  | Waits v' => waitsAt v v'
  end.
Proof.
  unfold Awaiting.sitemapParsed, sitemapParsed.
  destruct (isSitemapIndex xml).
  - set (v1 := sendEvent _ v).
    pose proof (await_batchLoop origin (extractSitemapUrls xml)
                  (length (extractSitemapUrls xml)) 0 v1 ltac:(lia)) as Hb.
    destruct (Awaiting.batchLoop parseURL env pending _ origin _ 0 v1) as [v2|v2].
    + destruct Hb as [-> Hall]. split; [reflexivity | exact Hall].
    + eapply waitsAt_after; [|exact Hb]. now apply grown_send.
  - split; [reflexivity | constructor].
Qed.

Lemma await_sitemapMode origin sitemapUrl v :
  match Awaiting.sitemapMode parseURL localeCompare env pending origin sitemapUrl v
  with
  | Goes v' =>
      v' = sitemapMode parseURL localeCompare env origin sitemapUrl v
      /\ Forall (fun url => pending url = false) (sitemapRequests env sitemapUrl)
  | Waits v' => waitsAt v v'
  end.
Proof.
  unfold Awaiting.sitemapMode, sitemapMode, sitemapRequests.
  set (v1 := sendEvent _ v). set (v2 := emit (FetchXml sitemapUrl) v1).
  assert (H12 : grown v v2).
  { exists [Send (Status sitemap (MsgFetchingSitemap sitemapUrl)
                         (length (discoveredLinks v)) 0 0 None);
            FetchXml sitemapUrl].
    split; [|reflexivity]. unfold v2, v1. cbn. now rewrite <- app_assoc. }
  destruct (pending sitemapUrl) eqn:Hp.
  - split; [exact H12|]. exists sitemapUrl. split; [|exact Hp].
    unfold v2. cbn. apply in_or_app. right. now left.
  - destruct (fetchXml env sitemapUrl) as [xml|err].
    + pose proof (await_sitemapParsed origin xml v2) as Hs.
      destruct (Awaiting.sitemapParsed parseURL localeCompare env pending
                  origin xml v2) as [v3|v3].
      * destruct Hs as [-> Hall]. split; [reflexivity|]. now constructor.
      * now apply (waitsAt_after v v2 v3).
    + split; [reflexivity|]. constructor; [exact Hp | constructor].
Qed.

(** Crawl mode goes as in [crawlMode], but for a loop that ended by itself
    and a [browser.close()] that rejects. *)
Lemma await_crawlMode fuel origin startUrl sel v :
  Awaiting.crawlMode parseURL localeCompare env closeBrowser fuel origin
                     startUrl sel v
  = crawlMode parseURL localeCompare env fuel origin startUrl sel v
  \/ exists e ok ok' vend,
       closeBrowser = Throws e /\ launch env = Ok ok /\ newPage env = Ok ok'
       /\ runLoop parseURL env fuel origin sel
            (loopStart startUrl
               (emit NewPage
                  (emit Launch
                     (sendEvent (Status browser MsgLaunching
                                        (length (discoveredLinks v)) 0 0 None) v))))
          = Some (Normal vend)
       /\ Awaiting.crawlMode parseURL localeCompare env closeBrowser fuel origin
                             startUrl sel v
          = Some (failed e true (emit CloseBrowser vend)).
Proof.
  unfold Awaiting.crawlMode, crawlMode.
  destruct (launch env) as [ok|e] eqn:Hl; [|now left].
  destruct (newPage env) as [ok'|e] eqn:Hn; [|now left].
  fold (loopStart startUrl
          (emit NewPage
             (emit Launch
                (sendEvent (Status browser MsgLaunching
                                   (length (discoveredLinks v)) 0 0 None) v)))).
  destruct (runLoop parseURL env fuel origin sel _) as [[vend|e vend]|] eqn:Hrun;
    [|now left|now left].
  destruct closeBrowser as [u|e] eqn:Hc; [now left|].
  right. now exists e, ok, ok', vend.
Qed.

(** What becomes of a request with a start URL: its task ends as [GET] has
    it and none of the documents it asked for is pending; or it waits for
    ever on a pending document, having sent status events only; or the
    [browser.close()] after the loop rejects, and the task ends with an
    error event between two closings of the browser. *)
Lemma await_GET startUrl sitemapUrl sel :
  JS.truthy startUrl = true ->
  exists reply,
    Awaiting.GET parseURL localeCompare env pending closeBrowser
                 (Some startUrl) sitemapUrl sel = Some reply
    /\ ((exists tr,
            reply = Finished (ResponseStream tr)
            /\ GET parseURL localeCompare env (Some startUrl) sitemapUrl sel
               = Some (ResponseStream tr)
            /\ (forall url, In url (fetches tr) -> pending url = false))
        \/ (exists tr url,
               reply = Hung tr
               /\ forallb sitemapEffect tr = true
               /\ In url (fetches tr) /\ pending url = true)
        \/ (exists tr e ok pre,
               reply = Finished (ResponseStream tr)
               /\ closeBrowser = Throws e
               /\ launch env = Ok ok
               /\ forallb browsingEffect pre = true
               /\ In Launch pre
               /\ tr = pre
                       ++ [ CloseBrowser;
                            Send (Error (MsgFailure (messageOr e "Discovery failed")));
                            CloseBrowser; CloseStream ])).
Proof.
  intros Hstart.
  destruct (GET_total parseURL localeCompare env (Some startUrl) sitemapUrl sel)
    as [r Hget].
  assert (Hr : exists tr0, r = ResponseStream tr0).
  { unfold GET in Hget. rewrite Hstart in Hget.
    destruct (discover _ _ _ _ _ _ _) as [tr0|]; [|discriminate].
    injection Hget as <-. now exists tr0. }
  destruct Hr as [tr0 ->].
  unfold Awaiting.GET, Awaiting.discover. rewrite Hstart.
  destruct (parseURL startUrl) as [u|] eqn:Hu.
  2:{ eexists. split; [reflexivity|]. left. eexists. split; [reflexivity|].
      unfold GET, discover in Hget |- *. rewrite Hstart, Hu in Hget |- *.
      split; [reflexivity|]. intros url []. }
  destruct (hasSitemap sitemapUrl) eqn:Hsm.
  - destruct sitemapUrl as [sm|]; [|discriminate]. cbn in Hsm.
    change (setDiscovered _ _) with (seeded (clean startUrl) true).
    pose proof (await_sitemapMode (URL.origin parseURL u) sm
                  (seeded (clean startUrl) true)) as Hmode.
    destruct (Awaiting.sitemapMode parseURL localeCompare env pending _ sm _)
      as [v'|v'].
    + destruct Hmode as [-> Hall].
      eexists. split; [reflexivity|]. left. eexists. split; [reflexivity|].
      pose proof (GET_sitemap_vars parseURL localeCompare env _ _ _ _ _
                    Hsm Hu Hget) as Htr.
      split.
      * rewrite Hget. f_equal. f_equal. rewrite Htr. reflexivity.
      * cbn [emit trace]. rewrite fetches_app. cbn [fetches]. rewrite app_nil_r.
        destruct (grows_sitemapMode parseURL localeCompare env
                    (URL.origin parseURL u) sm (seeded (clean startUrl) true))
          as [-> _].
        rewrite Forall_forall in Hall. exact Hall.
    + destruct Hmode as [(ext & Ht & Hext) (url & Hin & Hp)].
      eexists. split; [reflexivity|]. right. left. exists (trace v'), url.
      split; [reflexivity|]. split; [|split; [now apply fetches_In | exact Hp]].
      rewrite Ht. rewrite forallb_app, Hext. reflexivity.
  - assert (Hseed : setDiscovered
                      (JS.add (discoveredLinks
                                 (sendEvent (Status starting MsgStartingCrawl 0 0 0 None)
                                            initialVars)) (clean startUrl))
                      (sendEvent (Status starting MsgStartingCrawl 0 0 0 None)
                                 initialVars)
                    = seeded (clean startUrl) false) by reflexivity.
    cbv iota. rewrite Hseed. clear Hseed.
    pose proof Hget as Hget'.
    unfold GET in Hget'. rewrite Hstart in Hget'.
    rewrite (discover_crawl parseURL localeCompare env _ _ _ _ Hsm), Hu in Hget'.
    destruct (await_crawlMode (S MAX_PAGES_SAFETY) (URL.origin parseURL u)
                startUrl sel (seeded (clean startUrl) false))
      as [-> | (e & ok & ok' & vend & Hc & Hl & Hn & Hrun & ->)].
    + destruct (crawlMode parseURL localeCompare env _ _ startUrl sel _) as [v'|];
        [|discriminate].
      cbn [option_map] in Hget' |- *. injection Hget' as <-.
      eexists. split; [reflexivity|]. left. eexists. split; [reflexivity|].
      split; [exact Hget|].
      destruct (GET_crawl parseURL localeCompare env _ _ _ _ Hsm Hget)
        as [[Hnone _] | (u' & _ & Hcases)]; [congruence|].
      cbv zeta in Hcases.
      destruct Hcases as [(e & _ & Htr) | [(ok & e & _ & _ & Htr)
                                          | (ok & o & ext & _ & _ & Ht & Hext & Htr)]];
        cbn [emit trace]; rewrite Htr;
        [ intros url Hin; cbn in Hin; contradiction
        | intros url Hin; cbn in Hin; contradiction | ].
      rewrite Ht, !fetches_app. cbn [fetches app].
      rewrite (crawlEffect_fetches _ Hext).
      destruct o; cbn; intros url [].
    + cbn [option_map]. eexists. split; [reflexivity|]. right. right.
      destruct (extends_runLoop parseURL env _ _ _ _ _ Hrun)
        as [(ext & Ht & Hext) _].
      cbn [varsOf] in Ht.
      exists (trace (emit CloseStream (failed e true (emit CloseBrowser vend)))),
        e, ok, (trace vend).
      split; [reflexivity|]. split; [exact Hc|]. split; [exact Hl|].
      split; [|split].
      * rewrite Ht. cbn. now apply crawlEffect_browsing.
      * rewrite Ht. cbn. right. right. now left.
      * cbn. now rewrite <- !app_assoc.
Qed.

Lemma browsingEffect_plain (pre : list Effect) :
  forallb browsingEffect pre = true ->
  fetches pre = [] /\ ~ In CloseStream pre /\ ~ In CloseBrowser pre
  /\ forallb isStatusEvent (sent pre) = true.
Proof.
  induction pre as [|f pre IH]; [now repeat split|].
  cbn [forallb]. rewrite andb_true_iff. intros [Hf Hpre].
  destruct (IH Hpre) as (H1 & H2 & H3 & H4).
  destruct f as [[]| | | | | | |]; cbn in Hf |- *; try discriminate;
    (repeat split; [assumption | | | assumption]);
    intros [H | H]; try discriminate; contradiction.
Qed.

Lemma sitemapEffect_plain (tr : list Effect) :
  forallb sitemapEffect tr = true ->
  ~ In CloseStream tr /\ ~ In CloseBrowser tr /\ ~ In Launch tr
  /\ forallb isStatusEvent (sent tr) = true.
Proof.
  induction tr as [|f tr IH]; [now repeat split|].
  cbn [forallb]. rewrite andb_true_iff. intros [Hf Htr].
  destruct (IH Htr) as (H1 & H2 & H3 & H4).
  destruct f as [[]| | | | | | |]; cbn in Hf |- *; try discriminate;
    (repeat split; [ | | | assumption]);
    intros [H | H]; try discriminate; contradiction.
Qed.

(** X10. The task of a request closes the stream exactly when none of
    the documents it asks for stays pending.  It then closes it once, as
    the last thing it does, whatever else happened: a start URL that does
    not parse, a sitemap that cannot be fetched, a browser that does not
    start, an exception in the loop over pages, a [browser.close()] that
    rejects.  When a fetch stays pending the task waits for it for ever,
    and the stream is never closed. *)
Theorem stream_closed_once_and_last startUrl sitemapUrl sel :
  JS.truthy startUrl = true ->
  exists reply,
    Awaiting.GET parseURL localeCompare env pending closeBrowser
                 (Some startUrl) sitemapUrl sel = Some reply
    /\ match reply with
       | Finished Response400 => False
       | Finished (ResponseStream tr) =>
           (exists body, tr = body ++ [CloseStream] /\ ~ In CloseStream body)
           /\ forall url, In url (fetches tr) -> pending url = false
       | Hung tr =>
           ~ In CloseStream tr
           /\ exists url, In url (fetches tr) /\ pending url = true
       end.
Proof.
  intros Hstart.
  destruct (await_GET startUrl sitemapUrl sel Hstart)
    as (reply & Hget
        & [(tr & -> & Hbase & Hfetch)
          | [(tr & url & -> & Hquiet & Hin & Hp)
            | (tr & e & ok & pre & -> & _ & _ & Hpre & _ & ->)]]);
    exists reply || (eexists; split; [exact Hget|]).
  - split; [|exact Hfetch].
    exact (closes_of_run parseURL localeCompare env _ _ _ _ Hbase).
  - destruct (sitemapEffect_plain _ Hquiet) as (Hnone & _).
    split; [exact Hnone | now exists url].
  - destruct (browsingEffect_plain _ Hpre) as (Hf & Hc & _).
    split.
    + exists (pre ++ [ CloseBrowser;
                       Send (Error (MsgFailure (messageOr e "Discovery failed")));
                       CloseBrowser ]).
      split; [now rewrite <- app_assoc|].
      rewrite in_app_iff. intros [H | H]; [contradiction|].
      cbn in H. intuition discriminate.
    + rewrite fetches_app, Hf. cbn. intros url [].
Qed.

(** X11. The task of a request sends exactly one event that ends the
    run, [done] or [error], and sends it last, when none of the documents
    it asks for stays pending: all events before it are status events and
    no event follows it.  When a fetch stays pending, status events are
    all that is ever sent. *)
Theorem one_final_event_sent_last startUrl sitemapUrl sel :
  JS.truthy startUrl = true ->
  exists reply,
    Awaiting.GET parseURL localeCompare env pending closeBrowser
                 (Some startUrl) sitemapUrl sel = Some reply
    /\ match reply with
       | Finished Response400 => False
       | Finished (ResponseStream tr) =>
           (exists statuses final,
               sent tr = statuses ++ [final]
               /\ forallb isStatusEvent statuses = true
               /\ isTerminal final = true)
           /\ forall url, In url (fetches tr) -> pending url = false
       | Hung tr =>
           forallb isStatusEvent (sent tr) = true
           /\ exists url, In url (fetches tr) /\ pending url = true
       end.
Proof.
  intros Hstart.
  destruct (await_GET startUrl sitemapUrl sel Hstart)
    as (reply & Hget
        & [(tr & -> & Hbase & Hfetch)
          | [(tr & url & -> & Hquiet & Hin & Hp)
            | (tr & e & ok & pre & -> & _ & _ & Hpre & _ & ->)]]);
    (eexists; split; [exact Hget|]).
  - split; [|exact Hfetch].
    destruct (run_events parseURL localeCompare env _ _ _ _ Hbase)
      as (statuses & final & H1 & H2 & H3 & _).
    now exists statuses, final.
  - destruct (sitemapEffect_plain _ Hquiet) as (_ & _ & _ & Hsent).
    split; [exact Hsent | now exists url].
  - destruct (browsingEffect_plain _ Hpre) as (Hf & _ & _ & Hsent).
    split.
    + exists (sent pre), (Error (MsgFailure (messageOr e "Discovery failed"))).
      rewrite sent_app. now repeat split.
    + rewrite fetches_app, Hf. cbn. intros url [].
Qed.

(** X12. The browser is closed exactly when it was launched and the
    launch succeeded, and nothing is done with it after its closing.
    [browser.close()] is then called once, except that it is called a
    second time, after an error event, when the call that follows the loop
    over pages rejects.  A run with a sitemap, with a start URL that does
    not parse, or whose launch failed closes no browser. *)
Theorem browser_closed_after_use startUrl sitemapUrl sel :
  JS.truthy startUrl = true ->
  exists reply,
    Awaiting.GET parseURL localeCompare env pending closeBrowser
                 (Some startUrl) sitemapUrl sel = Some reply
    /\ (In CloseBrowser (effectsOf reply)
        <-> In Launch (effectsOf reply) /\ exists ok, launch env = Ok ok)
    /\ (In CloseBrowser (effectsOf reply) ->
        exists before after,
          effectsOf reply = before ++ CloseBrowser :: after
          /\ ~ In CloseBrowser before
          /\ forallb (fun f => negb (usesBrowser f)) after = true
          /\ (In CloseBrowser after ->
              exists e,
                closeBrowser = Throws e
                /\ after
                   = [ Send (Error (MsgFailure (messageOr e "Discovery failed")));
                       CloseBrowser; CloseStream ])).
Proof.
  intros Hstart.
  destruct (await_GET startUrl sitemapUrl sel Hstart)
    as (reply & Hget
        & [(tr & -> & Hbase & Hfetch)
          | [(tr & url & -> & Hquiet & Hin & Hp)
            | (tr & e & ok & pre & -> & Hc & Hl & Hpre & Hlaunch & ->)]]);
    (eexists; split; [exact Hget|]); cbn [effectsOf].
  - destruct (browser_of_run parseURL localeCompare env _ _ _ _ Hbase)
      as [Hiff Hshape].
    split; [exact Hiff|]. intros Hin.
    destruct (Hshape Hin) as (before & after & -> & Hbefore & Hafter).
    exists before, after. repeat split; try assumption.
    + rewrite forallb_forall in Hafter |- *. intros f Hf.
      specialize (Hafter f Hf). unfold usesBrowser.
      destruct (isBrowserEffect f); [discriminate | reflexivity].
    + intros Hagain. rewrite forallb_forall in Hafter.
      specialize (Hafter _ Hagain). discriminate.
  - destruct (sitemapEffect_plain _ Hquiet) as (_ & Hnone & Hno & _).
    split; [|intros H; contradiction].
    split; [intros H; contradiction | intros [H _]; contradiction].
  - destruct (browsingEffect_plain _ Hpre) as (_ & _ & Hnone & _).
    split.
    + split.
      * intros _. split; [apply in_or_app; now left | now exists ok].
      * intros _. apply in_or_app. right. now left.
    + intros _. exists pre. eexists. split; [reflexivity|].
      split; [exact Hnone|]. split; [reflexivity|].
      intros _. now exists e.
Qed.

End AwaitingFacts.

(* ================================================================= *)
(** ** The facts above on the sample sites *)

Local Abbreviation crawlOfSample :=
  (GET Sample.parseURL Sample.localeCompare Sample.crawlSite
       (Some Sample.home) None None).

Local Abbreviation indexOfSample :=
  (GET Sample.parseURL Sample.localeCompare Sample.indexSite
       (Some Sample.home) (Some "https://example.com/sitemap.xml") None).

Local Abbreviation sampleFetch :=
  (Fetch.fetchXml SampleNet.net SampleNet.resolveURL).

(** The conclusion of [fetchXml_outcome] on the sample network. *)
Local Abbreviation sampleOutcome reqs out :=
  (exists front req,
      reqs%list = front ++ [req]
      /\ match SampleNet.net (fst req) (snd req) with
         | Fetch.Errors e => out = Fetch.Rejected e
         | Fetch.Refuses e =>
             out = match front with
                   | [] => Fetch.Rejected e
                   | _ => Fetch.Unsettled
                   end
         | Fetch.Silent => out = Fetch.Unsettled
         | Fetch.Responds statusCode location chunks ends =>
             match Fetch.redirectTo statusCode location with
             | None =>
                 out = if ends then Fetch.Resolved (String.concat "" chunks)
                       else Fetch.Unsettled
             | Some loc =>
                 match SampleNet.resolveURL loc (snd req) with
                 | None => out = Fetch.Unsettled
                 | Some _ =>
                     length reqs = 6
                     /\ out = Fetch.Rejected (ErrorObject "Too many redirects")
                 end
             end
         end).


Lemma isNonHtmlResource_by_path_witness :
  isNonHtmlResource Sample.parseURL "https://example.com/files/Report.PDF?x=1#y"
  = true.
Proof.
  refine (proj1 (proj2 (isNonHtmlResource_by_path Sample.parseURL))
            _ _ "/files/Report" ".PDF" _ _ _).
  - vm_compute. reflexivity.
  - reflexivity.
  - vm_compute. find_in_list.
Defined.

Lemma sitemap_locations_are_literal_witness :
  JS.includes Sample.indexXml "https://example.com/s2.xml" = true.
Proof.
  apply (proj1 (sitemap_locations_are_literal Sample.indexXml)).
  vm_compute. find_in_list.
Defined.

Lemma emitter_failed_send_latches_witness :
  exists s1,
    SSE.sendEvent SampleNet.stringify "" SSE.createSSEResponse = Ok s1
    /\ SSE.isClosed s1 = true
    /\ SSE.controller s1 = SSE.controller SSE.createSSEResponse
    /\ forall cs s2,
         SSE.calls SampleNet.stringify cs s1 = Ok s2 ->
         SSE.controller s2 = SSE.controller SSE.createSSEResponse.
Proof.
  apply (emitter_failed_send_latches SampleNet.stringify "" SSE.createSSEResponse).
  - reflexivity.
  - left. eexists. reflexivity.
Defined.

Lemma index_without_children_reports_start_only_witness :
  parseSitemapUrls SampleNet.commentedXml = ["https://example.com/a"]
  /\ filter isDone (sent commentedRun)
     = [Done (MsgSitemapComplete 0) ["https://example.com/"] 1 0 0 0].
Proof.
  split; [vm_compute; reflexivity|].
  eapply (index_without_children_reports_start_only
            Sample.parseURL Sample.localeCompare SampleNet.commentedSite
            Sample.home "https://example.com/sitemap.xml" None commentedRun);
    vm_compute; reflexivity.
Defined.

Lemma done_counts_add_up_witness :
  crawlOfSample = Some (ResponseStream crawlRun)
  /\ (0 = 0 /\ 4 = 3 + 1 /\ 1 <= 4 <= MAX_PAGES_SAFETY).
Proof.
  assert (H : crawlOfSample = Some (ResponseStream crawlRun))
    by (vm_compute; reflexivity).
  split; [exact H|].
  refine (done_counts_add_up Sample.parseURL Sample.localeCompare
            Sample.crawlSite Sample.home None None crawlRun
            (MsgCrawlComplete 4 4)
            [ "https://example.com/"; "https://example.com/a";
              "https://example.com/b"; "https://example.com/c/d" ]
            4 0 3 4 H _).
  unfold crawlRun. find_in_list.
Defined.

Lemma done_links_distinct_witness :
  indexOfSample = Some (ResponseStream indexRun)
  /\ NoDup [ "https://example.com/"; "https://example.com/a";
             "https://example.com/x"; "https://example.com/y";
             "https://example.com/z"; "https://example.com/a/b";
             "https://example.com/c/d/e" ].
Proof.
  assert (H : indexOfSample = Some (ResponseStream indexRun))
    by (vm_compute; reflexivity).
  split; [exact H|].
  refine (done_links_distinct Sample.parseURL Sample.localeCompare
            Sample.indexSite Sample.home _ None indexRun
            (MsgSitemapComplete 6) _ 7 6 0 0 H _).
  unfold indexRun. find_in_list.
Defined.

Lemma crawl_stays_on_site_witness :
  crawlOfSample = Some (ResponseStream crawlRun)
  /\ (forall url, In url (navigations crawlRun) ->
                  url = Sample.home
                  \/ onSite Sample.parseURL "https://example.com" url).
Proof.
  assert (H : crawlOfSample = Some (ResponseStream crawlRun))
    by (vm_compute; reflexivity).
  split; [exact H|].
  refine (proj1 (crawl_stays_on_site Sample.parseURL Sample.localeCompare
                   Sample.crawlSite Sample.home None None crawlRun
                   (URL.mk "https" "" "" (Some "example.com") None
                           (URL.Segments [""]) None None) _ _ H)).
  - reflexivity.
  - vm_compute. reflexivity.
Defined.

Lemma pages_navigated_once_within_cap_witness :
  crawlOfSample = Some (ResponseStream crawlRun)
  /\ NoDup (navigations crawlRun)
  /\ length (navigations crawlRun) <= MAX_PAGES_SAFETY
  /\ forall m links t fs fp ps,
       In (Send (Done m links t fs fp ps)) crawlRun ->
       ps = length (navigations crawlRun).
Proof.
  assert (H : crawlOfSample = Some (ResponseStream crawlRun))
    by (vm_compute; reflexivity).
  split; [exact H|].
  exact (pages_navigated_once_within_cap Sample.parseURL Sample.localeCompare
           Sample.crawlSite Sample.home None None crawlRun H).
Defined.


Lemma reported_totals_never_decrease_witness :
  indexOfSample = Some (ResponseStream indexRun)
  /\ StronglySorted le (totals indexRun).
Proof.
  assert (H : indexOfSample = Some (ResponseStream indexRun))
    by (vm_compute; reflexivity).
  split; [exact H|].
  exact (reported_totals_never_decrease Sample.parseURL Sample.localeCompare
           Sample.indexSite Sample.home _ None indexRun H).
Defined.

Lemma emitter_delivers_a_prefix_witness :
  let hs := [ Called (SSE.CallSend "a"); Called (SSE.CallSend "b");
              ConsumerCancels; Called (SSE.CallSend "c"); Called SSE.CallClose ] in
  happen SampleNet.stringify hs SSE.createSSEResponse
  = Ok (SSE.mk true (SSE.mkController false [frame "a"; frame "b"]))
  /\ exists s' ds jsons rest,
      happen SampleNet.stringify hs SSE.createSSEResponse = Ok s'
      /\ SSE.chunks (SSE.controller s') = [] ++ map frame jsons
      /\ Forall2 (fun d json => SampleNet.stringify d = Ok json) ds jsons
      /\ ["a"; "b"] = ds ++ rest
      /\ (SSE.isClosed SSE.createSSEResponse = false ->
          SSE.accepting (SSE.controller SSE.createSSEResponse) = true ->
          (forall d, In d ["a"; "b"] ->
                     exists json, SampleNet.stringify d = Ok json) ->
          rest = []).
Proof.
  split; [reflexivity|].
  exact (emitter_delivers_a_prefix SampleNet.stringify
           [ Called (SSE.CallSend "a"); Called (SSE.CallSend "b");
             ConsumerCancels; Called (SSE.CallSend "c"); Called SSE.CallClose ]
           SSE.createSSEResponse).
Defined.

Local Abbreviation awaitPending :=
  (Awaiting.GET Sample.parseURL Sample.localeCompare networkSite
                networkPending (Ok tt) (Some Sample.home)
                (Some "https://example.com/moved.xml") None).

Local Abbreviation awaitFollowed :=
  (Awaiting.GET Sample.parseURL Sample.localeCompare networkSite
                networkPending (Ok tt) (Some Sample.home)
                (Some "http://example.com/sitemap.xml") None).

Local Abbreviation awaitCloseFailed :=
  (Awaiting.GET Sample.parseURL Sample.localeCompare Sample.crawlSite
                (fun _ => false) (Throws (ErrorObject "Target closed"))
                (Some Sample.home) None None).

(** Read what a theorem says of the reply of a run that is known. *)
Ltac of_reply Hthm Hrun :=
  let reply := fresh "reply" in
  let Hget := fresh "Hget" in
  let H := fresh "H" in
  destruct Hthm as (reply & Hget & H);
  rewrite Hrun in Hget; injection Hget as <-; exact H.

Lemma stream_closed_once_and_last_witness :
  (awaitPending = Some (Hung pendingRun)
   /\ ~ In CloseStream pendingRun
   /\ exists url, In url (fetches pendingRun) /\ networkPending url = true)
  /\ (awaitFollowed = Some (Finished (ResponseStream followedRun))
      /\ (exists body,
             followedRun = body ++ [CloseStream] /\ ~ In CloseStream body)
      /\ forall url, In url (fetches followedRun) -> networkPending url = false)
  /\ (awaitCloseFailed = Some (Finished (ResponseStream closeFailedRun))
      /\ (exists body,
             closeFailedRun = body ++ [CloseStream] /\ ~ In CloseStream body)
      /\ forall url, In url (fetches closeFailedRun) -> false = false).
Proof.
  assert (H1 : awaitPending = Some (Hung pendingRun))
    by (vm_compute; reflexivity).
  assert (H2 : awaitFollowed = Some (Finished (ResponseStream followedRun)))
    by (vm_compute; reflexivity).
  assert (H3 : awaitCloseFailed = Some (Finished (ResponseStream closeFailedRun)))
    by (vm_compute; reflexivity).
  split; [|split]; (split; [assumption|]).
  - of_reply (stream_closed_once_and_last Sample.parseURL Sample.localeCompare
                networkSite networkPending (Ok tt) Sample.home
                (Some "https://example.com/moved.xml") None eq_refl) H1.
  - of_reply (stream_closed_once_and_last Sample.parseURL Sample.localeCompare
                networkSite networkPending (Ok tt) Sample.home
                (Some "http://example.com/sitemap.xml") None eq_refl) H2.
  - of_reply (stream_closed_once_and_last Sample.parseURL Sample.localeCompare
                Sample.crawlSite (fun _ => false)
                (Throws (ErrorObject "Target closed")) Sample.home
                None None eq_refl) H3.
Defined.

Lemma one_final_event_sent_last_witness :
  (awaitPending = Some (Hung pendingRun)
   /\ forallb isStatusEvent (sent pendingRun) = true
   /\ exists url, In url (fetches pendingRun) /\ networkPending url = true)
  /\ (awaitFollowed = Some (Finished (ResponseStream followedRun))
      /\ (exists statuses final,
             sent followedRun = statuses ++ [final]
             /\ forallb isStatusEvent statuses = true
             /\ isTerminal final = true)
      /\ forall url, In url (fetches followedRun) -> networkPending url = false)
  /\ (awaitCloseFailed = Some (Finished (ResponseStream closeFailedRun))
      /\ (exists statuses final,
             sent closeFailedRun = statuses ++ [final]
             /\ forallb isStatusEvent statuses = true
             /\ isTerminal final = true)
      /\ forall url, In url (fetches closeFailedRun) -> false = false)
  /\ last (sent closeFailedRun) (Error (MsgFailure ""))
     = Error (MsgFailure "Target closed").
Proof.
  assert (H1 : awaitPending = Some (Hung pendingRun))
    by (vm_compute; reflexivity).
  assert (H2 : awaitFollowed = Some (Finished (ResponseStream followedRun)))
    by (vm_compute; reflexivity).
  assert (H3 : awaitCloseFailed = Some (Finished (ResponseStream closeFailedRun)))
    by (vm_compute; reflexivity).
  split; [|split; [|split; [|reflexivity]]]; (split; [assumption|]).
  - of_reply (one_final_event_sent_last Sample.parseURL Sample.localeCompare
                networkSite networkPending (Ok tt) Sample.home
                (Some "https://example.com/moved.xml") None eq_refl) H1.
  - of_reply (one_final_event_sent_last Sample.parseURL Sample.localeCompare
                networkSite networkPending (Ok tt) Sample.home
                (Some "http://example.com/sitemap.xml") None eq_refl) H2.
  - of_reply (one_final_event_sent_last Sample.parseURL Sample.localeCompare
                Sample.crawlSite (fun _ => false)
                (Throws (ErrorObject "Target closed")) Sample.home
                None None eq_refl) H3.
Defined.

Lemma browser_closed_after_use_witness :
  awaitCloseFailed = Some (Finished (ResponseStream closeFailedRun))
  /\ (exists pre,
         closeFailedRun
         = pre ++ [ CloseBrowser;
                    Send (Error (MsgFailure "Target closed"));
                    CloseBrowser; CloseStream ]
         /\ ~ In CloseBrowser pre)
  /\ (In CloseBrowser (effectsOf (Finished (ResponseStream closeFailedRun)))
      <-> In Launch (effectsOf (Finished (ResponseStream closeFailedRun)))
          /\ exists ok, launch Sample.crawlSite = Ok ok)
  /\ (In CloseBrowser (effectsOf (Finished (ResponseStream closeFailedRun))) ->
      exists before after,
        effectsOf (Finished (ResponseStream closeFailedRun))
        = before ++ CloseBrowser :: after
        /\ ~ In CloseBrowser before
        /\ forallb (fun f => negb (usesBrowser f)) after = true
        /\ (In CloseBrowser after ->
            exists e,
              @Throws unit (ErrorObject "Target closed") = Throws e
              /\ after
                 = [ Send (Error (MsgFailure (messageOr e "Discovery failed")));
                     CloseBrowser; CloseStream ])).
Proof.
  assert (H : awaitCloseFailed = Some (Finished (ResponseStream closeFailedRun)))
    by (vm_compute; reflexivity).
  split; [exact H|]. split.
  - exists (firstn 16 closeFailedRun). split; [vm_compute; reflexivity|].
    cbn. intuition discriminate.
  - of_reply (browser_closed_after_use Sample.parseURL Sample.localeCompare
                Sample.crawlSite (fun _ => false)
                (Throws (ErrorObject "Target closed")) Sample.home
                None None eq_refl) H.
Defined.

